(** * claude-autopilot: the durable task scheduler, embedded and verified

    A shallow embedding of the Go packages [queue], [timeparse], [detector],
    [compat] and [runner] of claude-autopilot, followed by the properties the
    specification states about them.

    Conventions of the embedding.
    - Go [string] is [string] (a sequence of bytes); Go [int] is [Z], and the
      one place where the program increments a counter writes the 64-bit
      wrap-around out ([wrap64]).
    - [time.Time] is an instant: nanoseconds since the Unix epoch, a [Z];
      [time.Duration] is a [Z] of nanoseconds; [*time.Time] is [option Z].
    - Files are finite maps from names to contents ([gmap]); what the
      program reads from its environment (clock, file system, child process,
      random source) is an explicit argument. *)

From Stdlib Require Import ZArith QArith Qpower Qround Qabs Lia Lqa List Ascii String Bool
  OrderedTypeEx.
From stdpp Require Import base option list gmap strings pretty sorting.

Open Scope string_scope.
Open Scope list_scope.
Open Scope Z_scope.

(** ** Go's [strings] package, on byte strings *)

Module GoStrings.

(** [unicode.ToLower] on the ASCII range: bytes [A-Z] go to [a-z]. *)
Definition lowerByte (c : ascii) : ascii :=
  let n := N_of_ascii c in
  if ((65 <=? n) && (n <=? 90))%N then ascii_of_N (n + 32) else c.

(** [strings.ToLower] (ASCII letters; other bytes are kept). *)
Fixpoint ToLower (s : string) : string :=
  match s with
  | EmptyString => EmptyString
  | String c r => String (lowerByte c) (ToLower r)
  end.

(** [strings.HasPrefix s p]. *)
Fixpoint HasPrefix (s p : string) : bool :=
  match p, s with
  | EmptyString, _ => true
  | String _ _, EmptyString => false
  | String b p', String a s' => Ascii.eqb a b && HasPrefix s' p'
  end.

(** [strings.Contains s sub]: [sub] occurs in [s] at some offset. *)
Fixpoint Contains (s sub : string) : bool :=
  HasPrefix s sub ||
  match s with
  | EmptyString => false
  | String _ r => Contains r sub
  end.

(** [strings.Join]. *)
Fixpoint Join (l : list string) (sep : string) : string :=
  match l with
  | [] => ""
  | [x] => x
  | x :: r => x +:+ sep +:+ Join r sep
  end.

(** The white space of [unicode.IsSpace] in the ASCII range:
    tab, line feed, vertical tab, form feed, carriage return, space. *)
Definition isSpace (c : ascii) : bool :=
  let n := N_of_ascii c in
  (((9 <=? n) && (n <=? 13)) || (n =? 32))%N.

Fixpoint TrimLeftSpace (s : string) : string :=
  match s with
  | EmptyString => EmptyString
  | String c r => if isSpace c then TrimLeftSpace r else s
  end.

(** Drops the trailing bytes that satisfy [p]. *)
Fixpoint TrimRightFunc (p : ascii -> bool) (s : string) : string :=
  match s with
  | EmptyString => EmptyString
  | String c r =>
      match TrimRightFunc p r with
      | EmptyString => if p c then EmptyString else String c EmptyString
      | r' => String c r'
      end
  end.

(** [strings.TrimSpace]. *)
Definition TrimSpace (s : string) : string :=
  TrimRightFunc isSpace (TrimLeftSpace s).

(** [strings.Map] with a byte-to-byte mapping. *)
Fixpoint Map (f : ascii -> ascii) (s : string) : string :=
  match s with
  | EmptyString => EmptyString
  | String c r => String (f c) (Map f r)
  end.

(** [len(s)] as a Go [int]. *)
Definition len (s : string) : Z := Z.of_nat (String.length s).

(** [s[:n]] for [0 <= n <= len(s)]. *)
Definition prefixTo (n : Z) (s : string) : string :=
  String.substring 0 (Z.to_nat n) s.

(** [strings.LastIndex s sub]: offset of the last occurrence, or [-1]. *)
Fixpoint LastIndex (s sub : string) : Z :=
  match s with
  | EmptyString => if HasPrefix s sub then 0 else -1
  | String _ r =>
      let k := LastIndex r sub in
      if 0 <=? k then k + 1 else if HasPrefix s sub then 0 else -1
  end.

(** [strings.TrimPrefix]. *)
Definition TrimPrefix (s p : string) : string :=
  if HasPrefix s p
  then String.substring (String.length p) (String.length s - String.length p) s
  else s.

(** [strings.Index s sub]: offset of the first occurrence, or [-1]. *)
Fixpoint Index (s sub : string) : Z :=
  if HasPrefix s sub then 0
  else match s with
       | EmptyString => -1
       | String _ r => let k := Index r sub in if 0 <=? k then k + 1 else -1
       end.

(** [s[n:]] for [0 <= n <= len(s)]. *)
Definition suffixFrom (n : Z) (s : string) : string :=
  String.substring (Z.to_nat n) (String.length s - Z.to_nat n) s.

(** [strings.SplitN s sep n] for a separator that is not empty and
    [n >= 0]: at most [n] pieces, the last one the unsplit rest. *)
Fixpoint SplitN (s sep : string) (n : nat) : list string :=
  match n with
  | O => []
  | S O => [s]
  | S n' =>
      let m := Index s sep in
      if m <? 0 then [s]
      else prefixTo m s :: SplitN (suffixFrom (m + len sep) s) sep n'
  end.

End GoStrings.

(** ** Go's [strconv.Atoi] *)

Module strconv.

Definition isDigit (c : ascii) : bool :=
  let n := N_of_ascii c in ((48 <=? n) && (n <=? 57))%N.

(** The value of a string of decimal digits; [None] when a byte is not
    a digit. *)
Fixpoint digitsFrom (acc : Z) (s : string) : option Z :=
  match s with
  | EmptyString => Some acc
  | String c r =>
      if isDigit c
      then digitsFrom (10 * acc + (Z.of_N (N_of_ascii c) - 48)) r
      else None
  end.

(** [strconv.Atoi]: an optional sign and at least one decimal digit,
    the value within the range of a 64-bit [int]; [None] stands for
    the error. *)
Definition Atoi (s : string) : option Z :=
  let '(neg, body) :=
    match s with
    | String c r =>
        if Ascii.eqb c "-" then (true, r)
        else if Ascii.eqb c "+" then (false, r)
        else (false, s)
    | EmptyString => (false, s)
    end in
  match body with
  | EmptyString => None
  | _ =>
      match digitsFrom 0 body with
      | None => None
      | Some n =>
          let v := if neg then - n else n in
          if (- 2 ^ 63 <=? v) && (v <=? 2 ^ 63 - 1) then Some v else None
      end
  end.

End strconv.

(** The 64-bit two's-complement wrap-around of Go's [int]. *)
Definition wrap64 (z : Z) : Z := (z + 2 ^ 63) mod 2 ^ 64 - 2 ^ 63.

(** A fallible result: Go's [(T, error)] with the error's message. *)
Inductive result (A : Type) : Type :=
| Ok (a : A)
| Err (msg : string).
Arguments Ok {A} a.
Arguments Err {A} msg.

Global Instance result_ret : MRet result := fun A a => Ok a.
Global Instance result_bind : MBind result := fun A B f r =>
  match r with
  | Ok a => f a
  | Err e => Err e
  end.

(** [fmt.Errorf("<prefix>: %w", err)]. *)
Definition wrapErr {A} (prefix : string) (r : result A) : result A :=
  match r with
  | Ok a => Ok a
  | Err e => Err (prefix +:+ ": " +:+ e)
  end.

(** The double-quote byte, for [%q]. *)
Definition dquote : string := String (ascii_of_nat 34) EmptyString.

(** ** Package [queue]: tasks, states and the transition table *)

Module queue.

Definition StatusPending : string := "pending".
Definition StatusRunning : string := "running".
Definition StatusWaiting : string := "waiting".
Definition StatusDone : string := "done".
Definition StatusFailed : string := "failed".
Definition StatusCancelled : string := "cancelled".

(** The zero [time.Time]: January 1, year 1, 00:00:00 UTC. *)
Definition zeroTime : Z := -62135596800 * 1000000000.

Record Task := mkTask {
  ID : string;
  Title : string;
  Priority : Z;
  CreatedAt : Z;
  WorkingDir : string;
  SkipPermissions : bool;
  Prompt : string;
  ContextFiles : list string;
  Model : string;
  MaxRetries : Z;
  EstimatedTokens : Z;
  Flags : list string;
  Source : string
}.

Record TaskState := mkState {
  sID : string;
  Status : string;
  Attempt : Z;
  StartedAt : option Z;
  EndedAt : option Z;
  LastRateLimitedAt : option Z;
  ResumeAt : option Z;
  PromptHash : string;
  GitCommit : string;
  SessionID : string;
  LastNDJSONMessages : list string
}.

Record TaskInit := mkInit {
  iID : string;
  iCreatedAt : Z
}.

(** A [map[string]bool] literal: the keys listed map to [true]. *)
Definition targetSet (l : list string) : gmap string bool :=
  list_to_map ((fun s => (s, true)) <$> l).

(** The rows of the [validTransitions] literal: source status and the
    destinations it allows. *)
Definition transitionRows : list (string * list string) :=
  [ (StatusPending, [StatusRunning; StatusCancelled]);
    (StatusRunning,
      [StatusDone; StatusFailed; StatusWaiting; StatusCancelled]);
    (StatusWaiting, [StatusRunning; StatusCancelled]);
    (StatusFailed, [StatusPending; StatusCancelled]);
    (StatusDone, []);
    (StatusCancelled, [StatusPending]) ].

Definition validTransitions : gmap string (gmap string bool) :=
  list_to_map (prod_map id targetSet <$> transitionRows).

(** A missing source status is rejected; a missing target reads as the
    zero value [false]. *)
Definition ValidTransition (from to : string) : bool :=
  match validTransitions !! from with
  | None => false
  | Some targets => default false (targets !! to)
  end.

(** *** Control commands *)

Record ControlCommand := mkCommand {
  Op : string;
  TaskID : string;
  RequestedAt : Z
}.

(** *** Task definitions: defaults and validation *)

Definition isIDByte (c : ascii) : bool :=
  let n := N_of_ascii c in
  (((97 <=? n) && (n <=? 122)) || ((48 <=? n) && (n <=? 57)) || (n =? 45))%N.

Fixpoint allBytes (p : ascii -> bool) (s : string) : bool :=
  match s with
  | EmptyString => true
  | String c r => p c && allBytes p r
  end.

(** [taskIDRe.MatchString]: the pattern [^[a-z0-9-]+$]. *)
Definition taskIDRe_MatchString (s : string) : bool :=
  negb (String.eqb s "") && allBytes isIDByte s.

Definition IsValidID (id : string) : bool :=
  (0 <? GoStrings.len id) && (GoStrings.len id <=? 64)
  && taskIDRe_MatchString id.

Definition isDash (c : ascii) : bool := Ascii.eqb c "-"%char.

Definition isNewline (c : ascii) : bool :=
  let n := N_of_ascii c in ((n =? 10) || (n =? 13))%N.

(** [truncate(s, n)]: the first [n] bytes, cut back to the last space
    when that space lies beyond the middle. *)
Definition truncate (s : string) (n : Z) : string :=
  let s := GoStrings.TrimSpace s in
  let s := GoStrings.Map (fun c => if isNewline c then " "%char else c) s in
  if GoStrings.len s <=? n then s
  else
    let truncated := GoStrings.prefixTo n s in
    let idx := GoStrings.LastIndex truncated " " in
    if n / 2 <? idx then GoStrings.prefixTo idx truncated else truncated.

Definition isAlnumLower (c : ascii) : bool :=
  let n := N_of_ascii c in
  (((97 <=? n) && (n <=? 122)) || ((48 <=? n) && (n <=? 57)))%N.

(** The loop of [Slugify]: [acc] is the builder's content in reverse. *)
Fixpoint slugLoop (s : string) (acc : list ascii) (prevDash : bool)
  : list ascii :=
  match s with
  | EmptyString => acc
  | String r rest =>
      if isAlnumLower r then slugLoop rest (r :: acc) false
      else if negb prevDash && negb (bool_decide (acc = []))
      then slugLoop rest ("-"%char :: acc) true
      else slugLoop rest acc prevDash
  end.

Definition Slugify (s : string) : string :=
  let s := GoStrings.ToLower s in
  let b := string_of_list_ascii (rev (slugLoop s [] false)) in
  let result := GoStrings.TrimRightFunc isDash b in
  if 64 <? GoStrings.len result
  then GoStrings.TrimRightFunc isDash (GoStrings.prefixTo 64 result)
  else result.

Definition hexDigit (n : N) : ascii :=
  if (n <? 10)%N then ascii_of_N (48 + n) else ascii_of_N (87 + n).

(** [hex.EncodeToString]. *)
Fixpoint hexEncode (bs : list N) : string :=
  match bs with
  | [] => EmptyString
  | b :: r =>
      String (hexDigit (b / 16)%N) (String (hexDigit (b mod 16)%N) (hexEncode r))
  end.

(** [GenerateID]; [rnd] is the two bytes read from [crypto/rand]. *)
Definition GenerateID (title : string) (rnd : N * N) : string :=
  let slug := Slugify title in
  let slug := if String.eqb slug "" then "task" else slug in
  let suffix := hexEncode [rnd.1; rnd.2] in
  let maxSlug := 64 - 5 in
  let slug :=
    if maxSlug <? GoStrings.len slug
    then GoStrings.TrimRightFunc isDash (GoStrings.prefixTo maxSlug slug)
    else slug in
  slug +:+ "-" +:+ suffix.

Definition setTitle (t : Task) (v : string) : Task :=
  mkTask (ID t) v (Priority t) (CreatedAt t) (WorkingDir t)
    (SkipPermissions t) (Prompt t) (ContextFiles t) (Model t)
    (MaxRetries t) (EstimatedTokens t) (Flags t) (Source t).
Definition setID (t : Task) (v : string) : Task :=
  mkTask v (Title t) (Priority t) (CreatedAt t) (WorkingDir t)
    (SkipPermissions t) (Prompt t) (ContextFiles t) (Model t)
    (MaxRetries t) (EstimatedTokens t) (Flags t) (Source t).
Definition setPriority (t : Task) (v : Z) : Task :=
  mkTask (ID t) (Title t) v (CreatedAt t) (WorkingDir t)
    (SkipPermissions t) (Prompt t) (ContextFiles t) (Model t)
    (MaxRetries t) (EstimatedTokens t) (Flags t) (Source t).
Definition setCreatedAt (t : Task) (v : Z) : Task :=
  mkTask (ID t) (Title t) (Priority t) v (WorkingDir t)
    (SkipPermissions t) (Prompt t) (ContextFiles t) (Model t)
    (MaxRetries t) (EstimatedTokens t) (Flags t) (Source t).
Definition setMaxRetries (t : Task) (v : Z) : Task :=
  mkTask (ID t) (Title t) (Priority t) (CreatedAt t) (WorkingDir t)
    (SkipPermissions t) (Prompt t) (ContextFiles t) (Model t)
    v (EstimatedTokens t) (Flags t) (Source t).
Definition setSource (t : Task) (v : string) : Task :=
  mkTask (ID t) (Title t) (Priority t) (CreatedAt t) (WorkingDir t)
    (SkipPermissions t) (Prompt t) (ContextFiles t) (Model t)
    (MaxRetries t) (EstimatedTokens t) (Flags t) v.

(** [applyDefaults]: derived title and id, then the defaults for the
    zero values of [priority] and [max_retries]. *)
Definition applyDefaults (t : Task) (rnd : N * N) : result Task :=
  let t :=
    if String.eqb (Title t) "" && negb (String.eqb (Prompt t) "")
    then setTitle t (truncate (Prompt t) 60) else t in
  t ← (if String.eqb (ID t) ""
       then if String.eqb (Title t) ""
            then Err "task has no id, title, or prompt for ID generation"
            else Ok (setID t (GenerateID (Title t) rnd))
       else Ok t);
  let t := if Priority t =? 0 then setPriority t 10 else t in
  let t := if MaxRetries t =? 0 then setMaxRetries t 5 else t in
  Ok t.

(** [filepath.IsAbs] on a Unix host. *)
Definition IsAbs (path : string) : bool := GoStrings.HasPrefix path "/".

Definition validateTask (t : Task) : result unit :=
  let label :=
    if String.eqb (GoStrings.TrimSpace (ID t)) "" then "<unknown>" else ID t in
  let hd := "Task '" +:+ label +:+ "' (" +:+ Source t +:+ "): " in
  if String.eqb (GoStrings.TrimSpace (ID t)) ""
  then Err (hd +:+ "missing required field 'id'")
  else if 64 <? GoStrings.len (ID t)
  then Err (hd +:+ "id must be <= 64 characters")
  else if negb (taskIDRe_MatchString (ID t))
  then Err (hd +:+ "id must match [a-z0-9-]")
  else if String.eqb (GoStrings.TrimSpace (Prompt t)) ""
  then Err (hd +:+ "missing required field 'prompt'")
  else if String.eqb (GoStrings.TrimSpace (WorkingDir t)) ""
  then Err (hd +:+ "missing required field 'working_dir'")
  else if negb (IsAbs (WorkingDir t))
  then Err ("Task '" +:+ label +:+ "': working_dir must be absolute (got '"
            +:+ WorkingDir t
            +:+ "'). Use 'add --dir' which resolves automatically.")
  else Ok tt.

(** *** Task files

    A task file is read as a stream of YAML documents.  The embedding
    starts from the parsed documents: a document is blank, rejected by
    the YAML decoder, or a mapping whose known fields are present or
    absent. *)

Record TaskYAML := mkYAML {
  y_id : option string;
  y_title : option string;
  y_priority : option Z;
  y_created_at : option Z;
  y_working_dir : option string;
  y_skip_permissions : option bool;
  y_prompt : option string;
  y_context_files : list string;
  y_model : option string;
  y_max_retries : option Z;
  y_estimated_tokens : option Z;
  y_flags : list string
}.

Inductive yamlDoc :=
| YEmpty
| YBad (msg : string)
| YTask (y : TaskYAML).

(** [yaml.Unmarshal(doc, &t)] into a zero [Task]: an absent field keeps
    the zero value of its type. *)
Definition yamlUnmarshal (y : TaskYAML) : Task :=
  mkTask (default "" (y_id y)) (default "" (y_title y))
    (default 0 (y_priority y)) (default zeroTime (y_created_at y))
    (default "" (y_working_dir y)) (default false (y_skip_permissions y))
    (default "" (y_prompt y)) (y_context_files y) (default "" (y_model y))
    (default 0 (y_max_retries y)) (default 0 (y_estimated_tokens y))
    (y_flags y) "".

(** The loop of [ParseMultiDocYAML] from document index [i] on; [n] is
    [len(docs)] and [rnd i] the random bytes drawn for document [i]. *)
Fixpoint parseDocs (docs : list yamlDoc) (i : nat) (n : nat)
    (source : string) (rnd : nat -> N * N) : result (list Task) :=
  match docs with
  | [] => Ok []
  | d :: rest =>
      let docNo := pretty (Z.of_nat i + 1) in
      match d with
      | YEmpty => parseDocs rest (S i) n source rnd
      | YBad msg => Err ("document " +:+ docNo +:+ ": " +:+ msg)
      | YTask y =>
          let t := yamlUnmarshal y in
          let t :=
            setSource t
              (if (1 <? n)%nat then source +:+ "#doc" +:+ docNo else source) in
          t ← wrapErr ("document " +:+ docNo) (applyDefaults t (rnd i));
          _ ← wrapErr ("document " +:+ docNo) (validateTask t);
          tasks ← parseDocs rest (S i) n source rnd;
          Ok (t :: tasks)
      end
  end.

Definition ParseMultiDocYAML (docs : list yamlDoc) (source : string)
    (rnd : nat -> N * N) : result (list Task) :=
  parseDocs docs 0 (length docs) source rnd.

(** A task file as the loader finds it: its path and its documents. *)
Record SourceFile := mkFile {
  path : string;
  docs : list yamlDoc;
  fileRnd : nat -> N * N
}.

(** [loadTaskSourceGroup]: the YAML files of the task directory in
    directory order, then the companion files [tasks.yaml] and
    [tasks.yml] beside it; [files] lists those that exist, in that
    order. *)
Fixpoint loadTaskSourceGroup (files : list SourceFile) : result (list Task) :=
  match files with
  | [] => Ok []
  | f :: rest =>
      ts ← wrapErr ("parse " +:+ path f)
             (ParseMultiDocYAML (docs f) (path f) (fileRnd f));
      more ← loadTaskSourceGroup rest;
      Ok (ts ++ more)
  end.

(** *** Init records *)

(** The content of [<id>.init.json]: a record, or bytes that the JSON
    decoder rejects. *)
Inductive initFile :=
| InitRecord (i : TaskInit)
| InitCorrupt (msg : string).

(** [EnsureInit]: create-once; an existing record is canonical. *)
Definition EnsureInit (stateDir : gmap string initFile) (task : Task)
    (now : Z) : result (bool * Task) * gmap string initFile :=
  let task :=
    if CreatedAt task =? zeroTime then setCreatedAt task now else task in
  match stateDir !! ID task with
  | None =>
      (Ok (true, task),
       <[ID task := InitRecord (mkInit (ID task) (CreatedAt task))]> stateDir)
  | Some (InitRecord existing) =>
      (Ok (false, setCreatedAt task (iCreatedAt existing)), stateDir)
  | Some (InitCorrupt msg) =>
      (Err ("parse init file " +:+ ID task +:+ ".init.json: " +:+ msg),
       stateDir)
  end.

(** The canonicalisation loop of [LoadTasksAndInit]; [clock i] is the
    time read for the task at index [i]. *)
Fixpoint ensureAll (stateDir : gmap string initFile) (tasks : list Task)
    (i : nat) (clock : nat -> Z) (initCount : Z)
  : result (list Task * Z) * gmap string initFile :=
  match tasks with
  | [] => (Ok ([], initCount), stateDir)
  | t :: rest =>
      match EnsureInit stateDir t (clock i) with
      | (Err e, sd) =>
          (Err ("initialize task " +:+ dquote +:+ ID t +:+ dquote +:+ ": " +:+ e), sd)
      | (Ok (created, t'), sd) =>
          match ensureAll sd rest (S i) clock
                  (if created then initCount + 1 else initCount) with
          | (Ok (ts, n), sd') => (Ok (t' :: ts, n), sd')
          | (Err e, sd') => (Err e, sd')
          end
      end
  end.

(** The duplicate scan: [seen] maps an id to the source that holds it. *)
Fixpoint findDuplicate (tasks : list Task) (seen : gmap string string)
  : result unit :=
  match tasks with
  | [] => Ok tt
  | t :: rest =>
      match seen !! ID t with
      | Some prev =>
          Err ("Duplicate task ID '" +:+ ID t +:+ "' found in " +:+ prev
               +:+ " and " +:+ Source t +:+ ". Remove one.")
      | None => findDuplicate rest (<[ID t := Source t]> seen)
      end
  end.

(** The comparison handed to [sort.Slice]. *)
Definition taskLess (a b : Task) : bool :=
  if negb (Priority a =? Priority b) then Priority a <? Priority b
  else if negb (CreatedAt a =? CreatedAt b) then CreatedAt a <? CreatedAt b
  else String.ltb (ID a) (ID b).

(** [sort.Slice]: the library promises a permutation of its input in
    which no element is [less] than an earlier one.  It is embedded as
    an insertion sort; [sortSlice_unique] below shows that on inputs
    whose elements [less] orders totally, every list that meets the
    library's promise is the one computed here. *)
Fixpoint insertBy {A} (less : A -> A -> bool) (x : A) (l : list A) : list A :=
  match l with
  | [] => [x]
  | y :: r => if less y x then y :: insertBy less x r else x :: l
  end.

Fixpoint sortSlice {A} (less : A -> A -> bool) (l : list A) : list A :=
  match l with
  | [] => []
  | x :: r => insertBy less x (sortSlice less r)
  end.

(** The first phase of [LoadTasksAndInit]: the records of the global
    source group, then those of the project source group; [projectFiles]
    is [None] when [projectDir] is empty. *)
Definition loadAllSources
    (globalDir : string) (globalFiles : list SourceFile)
    (projectDir : string) (projectFiles : option (list SourceFile))
  : result (list Task) :=
  tasks ← wrapErr ("load global tasks from " +:+ globalDir)
            (loadTaskSourceGroup globalFiles);
  match projectFiles with
  | None => Ok tasks
  | Some files =>
      more ← wrapErr ("load project tasks from " +:+ projectDir)
               (loadTaskSourceGroup files);
      Ok (tasks ++ more)
  end.

(** [LoadTasksAndInit]; [stateDir] is [None] when the state directory
    argument is empty.  The second component is the state directory as
    the call leaves it. *)
Definition LoadTasksAndInit
    (globalDir : string) (globalFiles : list SourceFile)
    (projectDir : string) (projectFiles : option (list SourceFile))
    (stateDir : option (gmap string initFile)) (clock : nat -> Z)
  : result (list Task * Z) * option (gmap string initFile) :=
  match loadAllSources globalDir globalFiles projectDir projectFiles with
  | Err e => (Err e, stateDir)
  | Ok allTasks =>
      let '(canon, sd) :=
        match stateDir with
        | None => (Ok (allTasks, 0), None)
        | Some sd =>
            let '(r, sd') := ensureAll sd allTasks 0 clock 0 in
            (r, Some sd')
        end in
      match canon with
      | Err e => (Err e, sd)
      | Ok (allTasks, initCount) =>
          match findDuplicate allTasks ∅ with
          | Err e => (Err e, sd)
          | Ok _ => (Ok (sortSlice taskLess allTasks, initCount), sd)
          end
      end
  end.

End queue.

(** ** Package [fileutil]: temp file names *)

Module fileutil.

(** [TempFileName]: [<path>.tmp.<pid>.<random>]; [pid] is the process
    id and [rnd] the four bytes read from [crypto/rand]. *)
Definition TempFileName (path : string) (pid : Z) (rnd : list N) : string :=
  path +:+ ".tmp." +:+ pretty pid +:+ "." +:+ queue.hexEncode rnd.

(** [extractPID]: the process id in a temp file name, 0 when there is
    none. *)
Definition extractPID (name : string) : Z :=
  let idx := GoStrings.Index name ".tmp." in
  if idx <? 0 then 0
  else
    let rest := GoStrings.suffixFrom (idx + 5) name in
    match GoStrings.SplitN rest "." 2 with
    | [] => 0
    | p :: _ => default 0 (strconv.Atoi p)
    end.

End fileutil.



(** ** Go's [regexp] package: the fragment the program's patterns use

    Patterns are matched leftmost-first, as [regexp] documents: the match
    starts at the earliest offset at which one exists, and among the matches
    at that offset the one a backtracking search meets first is taken
    (alternatives left to right, greedy repetition longest first, lazy
    repetition shortest first). *)

Module regexp.

Inductive re :=
| Eps
| Chr (p : ascii -> bool)
| Cat (a b : re)
| Alt (a b : re)
| Opt (a : re)
| Rep (p : ascii -> bool) (greedy : bool)
| Grp (n : nat) (a : re)
| Eot.

(** The text consumed between the suffixes [s] and [s']. *)
Definition consumed (s s' : string) : string :=
  String.substring 0 (String.length s - String.length s') s.

Section matcher.
Context {R : Type}.

Fixpoint repGreedy (p : ascii -> bool) (s : string)
    (k : string -> option R) : option R :=
  match s with
  | String c r =>
      if p c
      then match repGreedy p r k with
           | Some x => Some x
           | None => k s
           end
      else k s
  | EmptyString => k s
  end.

Fixpoint repLazy (p : ascii -> bool) (s : string)
    (k : string -> option R) : option R :=
  match k s with
  | Some x => Some x
  | None =>
      match s with
      | String c r => if p c then repLazy p r k else None
      | EmptyString => None
      end
  end.

Fixpoint run (r : re) (s : string) (caps : gmap nat string)
    (k : string -> gmap nat string -> option R) : option R :=
  match r with
  | Eps => k s caps
  | Chr p =>
      match s with
      | String c s' => if p c then k s' caps else None
      | EmptyString => None
      end
  | Cat a b => run a s caps (fun s' caps' => run b s' caps' k)
  | Alt a b =>
      match run a s caps k with
      | Some x => Some x
      | None => run b s caps k
      end
  | Opt a =>
      match run a s caps k with
      | Some x => Some x
      | None => k s caps
      end
  | Rep p true => repGreedy p s (fun s' => k s' caps)
  | Rep p false => repLazy p s (fun s' => k s' caps)
  | Grp n a => run a s caps (fun s' caps' => k s' (<[n := consumed s s']> caps'))
  | Eot =>
      match s with
      | EmptyString => k s caps
      | String _ _ => None
      end
  end.
End matcher.

(** [FindStringSubmatch]: group 0 is the whole match; a group that took
    no part in the match reads as the empty string. *)
Fixpoint FindStringSubmatch (r : re) (s : string) : option (gmap nat string) :=
  match run r s ∅ (fun s' caps => Some (<[0%nat := consumed s s']> caps)) with
  | Some caps => Some caps
  | None =>
      match s with
      | EmptyString => None
      | String _ rest => FindStringSubmatch r rest
      end
  end.

Definition group (m : gmap nat string) (n : nat) : string :=
  default "" (m !! n).

(** *** Pattern syntax *)

Definition byte (c : ascii) : re := Chr (Ascii.eqb c).
Definition byteFold (c : ascii) : re :=
  Chr (fun x => Ascii.eqb (GoStrings.lowerByte x) (GoStrings.lowerByte c)).

(** A literal, and a literal under the flag [(?i)]. *)
Fixpoint lit (s : string) : re :=
  match s with
  | EmptyString => Eps
  | String c EmptyString => byte c
  | String c r => Cat (byte c) (lit r)
  end.
Fixpoint litFold (s : string) : re :=
  match s with
  | EmptyString => Eps
  | String c EmptyString => byteFold c
  | String c r => Cat (byteFold c) (litFold r)
  end.

Definition isDigit (c : ascii) : bool :=
  let n := N_of_ascii c in ((48 <=? n) && (n <=? 57))%N.
(** [\s]: tab, line feed, form feed, carriage return, space. *)
Definition isReSpace (c : ascii) : bool :=
  let n := N_of_ascii c in
  ((n =? 9) || (n =? 10) || (n =? 12) || (n =? 13) || (n =? 32))%N.
(** [.]: any byte but the line feed. *)
Definition isDot (c : ascii) : bool := negb (N_of_ascii c =? 10)%N.
(** [[A-Za-z_]]. *)
Definition isWordAlpha (c : ascii) : bool :=
  let n := N_of_ascii c in
  (((65 <=? n) && (n <=? 90)) || ((97 <=? n) && (n <=? 122)) || (n =? 95))%N.

Definition plus (p : ascii -> bool) : re := Cat (Chr p) (Rep p true).
Definition star (p : ascii -> bool) : re := Rep p true.
Definition plusLazy (p : ascii -> bool) : re := Cat (Chr p) (Rep p false).
(** [\d{1,2}]. *)
Definition digits12 : re := Cat (Chr isDigit) (Opt (Chr isDigit)).
(** [\d{2}]. *)
Definition digits2 : re := Cat (Chr isDigit) (Chr isDigit).

Fixpoint seq (l : list re) : re :=
  match l with
  | [] => Eps
  | [r] => r
  | r :: rest => Cat r (seq rest)
  end.
Fixpoint alts (l : list re) : re :=
  match l with
  | [] => Eps
  | [r] => r
  | r :: rest => Alt r (alts rest)
  end.

End regexp.

(** ** Go's [time] package: instants, civil dates and locations *)

Module gotime.

Definition Second : Z := 1000000000.
Definition Minute : Z := 60 * Second.
Definition Hour : Z := 60 * Minute.

(** A location: the offset east of UTC (seconds) in force before the
    first transition, and the transitions, earliest first, each with the
    Unix second at which it takes effect and the offset from then on. *)
Record Location := mkLocation {
  initialOffset : Z;
  transitions : list (Z * Z)
}.

Definition UTC : Location := mkLocation 0 [].
Definition FixedZone (offset : Z) : Location := mkLocation offset [].

(** [lookup]: the offset in force at Unix second [sec], and the bounds
    [start <= sec < end] of the period it is in force ([None]: unbounded). *)
Fixpoint lookupFrom (off : Z) (start : option Z) (trs : list (Z * Z))
    (sec : Z) : Z * option Z * option Z :=
  match trs with
  | [] => (off, start, None)
  | (when, off') :: rest =>
      if sec <? when then (off, start, Some when)
      else lookupFrom off' (Some when) rest sec
  end.

Definition lookup (l : Location) (sec : Z) : Z * option Z * option Z :=
  lookupFrom (initialOffset l) None (transitions l) sec.

(** Days from 1970-01-01 to the given day of the proleptic Gregorian
    calendar; [m] in 1..12, any [d]. *)
Definition daysFromCivil (y m d : Z) : Z :=
  let y := if m <=? 2 then y - 1 else y in
  let era := y / 400 in
  let yoe := y - era * 400 in
  let doy := (153 * (if 2 <? m then m - 3 else m + 9) + 2) / 5 + d - 1 in
  let doe := yoe * 365 + yoe / 4 - yoe / 100 + doy in
  era * 146097 + doe - 719468.

(** Year, month and day of the day [z] days after 1970-01-01. *)
Definition civilFromDays (z : Z) : Z * Z * Z :=
  let z := z + 719468 in
  let era := z / 146097 in
  let doe := z - era * 146097 in
  let yoe := (doe - doe / 1460 + doe / 36524 - doe / 146096) / 365 in
  let y := yoe + era * 400 in
  let doy := doe - (365 * yoe + yoe / 4 - yoe / 100) in
  let mp := (5 * doy + 2) / 153 in
  let d := doy - (153 * mp + 2) / 5 + 1 in
  let m := if mp <? 10 then mp + 3 else mp - 9 in
  (if m <=? 2 then y + 1 else y, m, d).

(** [t.In(loc).Date()]: the civil date of the instant [t] in [loc]. *)
Definition dateIn (loc : Location) (t : Z) : Z * Z * Z :=
  let sec := t / Second in
  let '(off, _, _) := lookup loc sec in
  civilFromDays ((sec + off) / 86400).

(** [time.Date(year, month, day, hour, min, 0, 0, loc)]: out-of-range
    fields are normalised by carrying; the offset is the one in force at
    the wall-clock reading taken as UTC, corrected when the instant it
    gives falls outside that period. *)
Definition Date (year month day hour min : Z) (loc : Location) : Z :=
  let m0 := month - 1 in
  let year := year + m0 / 12 in
  let m0 := m0 mod 12 in
  let unix :=
    daysFromCivil year (m0 + 1) day * 86400 + hour * 3600 + min * 60 in
  let '(off, start, stop) := lookup loc unix in
  let unix :=
    if off =? 0 then unix
    else
      let utc := unix - off in
      let inside :=
        match start with Some a => a <=? utc | None => true end
        && match stop with Some b => utc <? b | None => true end in
      if inside then unix - off
      else let '(off', _, _) := lookup loc utc in unix - off' in
  unix * Second.

End gotime.

(** ** Package [timeparse] *)

Module timeparse.
Import regexp gotime.

(** What [ParseResetTime] reads from its host: the time-zone database
    ([time.LoadLocation]), the local zone and the clock. *)
Record Host := mkHost {
  LoadLocation : string -> option Location;
  Local : Location;
  Now : Z
}.

Inductive timeError :=
| Invalid12hrHour (h : Z)
| Invalid24hrTime (h min : Z)
| NoTimePattern.

Inductive parseError :=
| EmptyInput
| BadTime (e : timeError)
| InThePast (result : Z).

(** [strconv.Atoi] on a string of decimal digits. *)
Fixpoint atoiFrom (acc : Z) (s : string) : option Z :=
  match s with
  | EmptyString => Some acc
  | String c r =>
      if isDigit c
      then atoiFrom (10 * acc + (Z.of_N (N_of_ascii c) - 48)) r
      else None
  end.
Definition Atoi (s : string) : option Z :=
  match s with
  | EmptyString => None
  | _ => atoiFrom 0 s
  end.

(** [strings.Replace(s, old, "", 1)]. *)
Fixpoint removeFirst (s old : string) : string :=
  if GoStrings.HasPrefix s old
  then String.substring (String.length old)
         (String.length s - String.length old) s
  else match s with
       | EmptyString => EmptyString
       | String c r => String c (removeFirst r old)
       end.

(** [\(([A-Za-z_]+/[A-Za-z_]+)\)] *)
Definition reTimezone : re :=
  seq [ byte "("%char;
        Grp 1 (seq [plus isWordAlpha; byte "/"%char; plus isWordAlpha]);
        byte ")"%char ].

Definition extractTimezone (h : Host) (s : string) : option Location * string :=
  match FindStringSubmatch reTimezone s with
  | None => (None, s)
  | Some m =>
      match LoadLocation h (group m 1) with
      | None => (None, s)
      | Some loc => (Some loc, GoStrings.TrimSpace (removeFirst s (group m 0)))
      end
  end.

Definition monthNames : gmap string Z :=
  list_to_map
    [ ("jan", 1); ("january", 1); ("feb", 2); ("february", 2);
      ("mar", 3); ("march", 3); ("apr", 4); ("april", 4); ("may", 5);
      ("jun", 6); ("june", 6); ("jul", 7); ("july", 7);
      ("aug", 8); ("august", 8); ("sep", 9); ("september", 9);
      ("oct", 10); ("october", 10); ("nov", 11); ("november", 11);
      ("dec", 12); ("december", 12) ].

Definition monthAlt (short rest : string) : re :=
  Cat (litFold short) (Opt (litFold rest)).

(** [(?i)(jan(?:uary)?|...|dec(?:ember)?)\s+(\d{1,2})] *)
Definition reDate : re :=
  seq [ Grp 1 (alts [ monthAlt "jan" "uary"; monthAlt "feb" "ruary";
                      monthAlt "mar" "ch"; monthAlt "apr" "il";
                      litFold "may"; monthAlt "jun" "e"; monthAlt "jul" "y";
                      monthAlt "aug" "ust"; monthAlt "sep" "tember";
                      monthAlt "oct" "ober"; monthAlt "nov" "ember";
                      monthAlt "dec" "ember" ]);
        plus isReSpace;
        Grp 2 digits12 ].

(** [extractDate]: month and day, when a month+day pattern is present. *)
Definition extractDate (s : string) : option (Z * Z) :=
  match FindStringSubmatch reDate s with
  | None => None
  | Some m =>
      match monthNames !! GoStrings.ToLower (group m 1) with
      | None => None
      | Some month =>
          match Atoi (group m 2) with
          | None => None
          | Some day => Some (month, day)
          end
      end
  end.

(** [(?i)(\d{1,2})(?::(\d{2}))?\s*(am|pm)] *)
Definition reTime12 : re :=
  seq [ Grp 1 digits12;
        Opt (Cat (byte ":"%char) (Grp 2 digits2));
        star isReSpace;
        Grp 3 (Alt (litFold "am") (litFold "pm")) ].

(** [(\d{1,2}):(\d{2})] *)
Definition reTime24 : re :=
  seq [ Grp 1 digits12; byte ":"%char; Grp 2 digits2 ].

(** [extractTime]: hour and minute on the 24-hour clock. *)
Definition extractTime (s : string) : timeError + Z * Z :=
  match FindStringSubmatch reTime12 s with
  | Some m =>
      let h := default 0 (Atoi (group m 1)) in
      let min :=
        if String.eqb (group m 2) "" then 0
        else default 0 (Atoi (group m 2)) in
      let ampm := GoStrings.ToLower (group m 3) in
      if (h <? 1) || (12 <? h) then inl (Invalid12hrHour h)
      else
        let h :=
          if String.eqb ampm "am"
          then if h =? 12 then 0 else h
          else if negb (h =? 12) then h + 12 else h in
        inr (h, min)
  | None =>
      match FindStringSubmatch reTime24 s with
      | Some m =>
          let h := default 0 (Atoi (group m 1)) in
          let min := default 0 (Atoi (group m 2)) in
          if (h <? 0) || (23 <? h) || (min <? 0) || (59 <? min)
          then inl (Invalid24hrTime h min)
          else inr (h, min)
      | None => inl NoTimePattern
      end
  end.

(** The instant [ParseResetTime] computes before looking at the clock:
    the parsed time on the parsed date, or on today's date in [loc]. *)
Definition candidate (loc : Location) (now : Z) (date : option (Z * Z))
    (hour minute : Z) : Z :=
  let '(year, month, day) :=
    match date with
    | Some (dateMonth, dateDay) => ((dateIn loc now).1.1, dateMonth, dateDay)
    | None => dateIn loc now
    end in
  Date year month day hour minute loc.

Definition ParseResetTime (h : Host) (s : string) : parseError + Z :=
  if String.eqb s "" then inl EmptyInput
  else
    let '(loc, s) := extractTimezone h s in
    let loc := default (Local h) loc in
    let date := extractDate s in
    match extractTime s with
    | inl e => inl (BadTime e)
    | inr (hour, minute) =>
        let now := Now h in
        let result := candidate loc now date hour minute in
        if result <? now
        then match date with
             | Some _ => inl (InThePast result)
             | None => inr (result + 24 * Hour)
             end
        else inr result
    end.

End timeparse.

(** ** Package [detector] *)

Module detector.
Import regexp.

Inductive DetectionResult :=
| Unknown
| Completed
| RateLimited
| Failed.

Record RateLimitResult := mkResult {
  Result : DetectionResult;
  ResetTime : option Z;
  Reason : string
}.

(** The detector's configuration; its reset-time pattern is fixed. *)
Record Detector := mkDetector {
  patterns : list string;
  rateLimitExitCode : Z
}.

(** [(?i)(?:will\s+)?reset\s+(?:at\s+)?(.+?)(?:\.|$)] *)
Definition resetTimeRegex : re :=
  seq [ Opt (Cat (litFold "will") (plus isReSpace));
        litFold "reset";
        plus isReSpace;
        Opt (Cat (litFold "at") (plus isReSpace));
        Grp 1 (plusLazy isDot);
        Alt (byte "."%char) Eot ].

Definition NewDetector (patterns : list string) (rateLimitExitCode : Z)
  : Detector := mkDetector patterns rateLimitExitCode.

(** [matchPatterns]: the first configured pattern that occurs in [text],
    both lower-cased. *)
Fixpoint matchIn (lower : string) (ps : list string) : option string :=
  match ps with
  | [] => None
  | p :: rest =>
      if GoStrings.Contains lower (GoStrings.ToLower p) then Some p
      else matchIn lower rest
  end.

Definition matchPatterns (d : Detector) (text : string) : option string :=
  matchIn (GoStrings.ToLower text) (patterns d).

Definition extractResetTime (h : timeparse.Host) (text : string) : option Z :=
  match FindStringSubmatch resetTimeRegex text with
  | None => None
  | Some matches =>
      let timeStr := GoStrings.TrimSpace (group matches 1) in
      if String.eqb timeStr "" then None
      else match timeparse.ParseResetTime h timeStr with
           | inl _ => None
           | inr t => Some t
           end
  end.

Definition Detect (h : timeparse.Host) (d : Detector) (exitCode : Z)
    (stdout stderr : string) : RateLimitResult :=
  if exitCode =? 0 then mkResult Completed None "exit code 0"
  else if (0 <=? rateLimitExitCode d) && (exitCode =? rateLimitExitCode d)
  then mkResult RateLimited
         (extractResetTime h (stderr +:+ " " +:+ stdout))
         "exit code matches rate limit code"
  else
    match matchPatterns d stderr with
    | Some pattern =>
        mkResult RateLimited
          (extractResetTime h (stderr +:+ " " +:+ stdout))
          ("stderr matched pattern: " +:+ pattern)
    | None =>
        match matchPatterns d stdout with
        | Some pattern =>
            mkResult RateLimited (extractResetTime h stdout)
              ("stdout matched pattern: " +:+ pattern)
        | None =>
            mkResult Failed None
              "non-zero exit code with no rate limit indicators"
        end
    end.

End detector.

(** ** Package [compat]: the CLI adapters *)

Module compat.

Record CompatEntry := mkEntry {
  MinVersion : string;
  MaxVersion : string;
  StreamJSON : bool;
  ResumeFlag : bool;
  ExitCodeRateLimit : Z
}.

Definition defaultCompat : list CompatEntry :=
  [ mkEntry "2.0.0" "2.99.99" true true 75;
    mkEntry "1.0.0" "1.99.99" false false (-1) ].

(** The two implementations of the [CLIAdapter] interface. *)
Inductive CLIAdapter :=
| knownAdapter (entry : CompatEntry)
| safeAdapter.

Definition NewAdapter (entry : option CompatEntry) : CLIAdapter :=
  match entry with
  | None => safeAdapter
  | Some e => knownAdapter e
  end.

Definition SupportsStreamJSON (a : CLIAdapter) : bool :=
  match a with
  | knownAdapter e => StreamJSON e
  | safeAdapter => true
  end.

Definition SupportsResume (a : CLIAdapter) : bool :=
  match a with
  | knownAdapter e => ResumeFlag e
  | safeAdapter => true
  end.

Definition RateLimitExitCode (a : CLIAdapter) : Z :=
  match a with
  | knownAdapter e => ExitCodeRateLimit e
  | safeAdapter => 75
  end.

Definition BuildArgs (a : CLIAdapter) (prompt model sessionID : string)
    (skipPerms : bool) (extraFlags : list string) : list string :=
  match a with
  | knownAdapter entry =>
      let args := ["--print"] in
      let args :=
        if StreamJSON entry
        then args ++ ["--verbose"; "--output-format"; "stream-json"]
        else args in
      let args :=
        if ResumeFlag entry && negb (String.eqb sessionID "")
        then args ++ ["--resume"; sessionID] else args in
      let args :=
        if negb (String.eqb model "") then args ++ ["--model"; model]
        else args in
      let args :=
        if skipPerms then args ++ ["--dangerously-skip-permissions"]
        else args in
      let args := args ++ extraFlags in
      args ++ ["--"; prompt]
  | safeAdapter =>
      let args := ["--print"] in
      let args := args ++ ["--verbose"; "--output-format"; "stream-json"] in
      let args :=
        if negb (String.eqb sessionID "")
        then args ++ ["--resume"; sessionID] else args in
      let args :=
        if negb (String.eqb model "") then args ++ ["--model"; model]
        else args in
      let args :=
        if skipPerms then args ++ ["--dangerously-skip-permissions"]
        else args in
      let args := args ++ extraFlags in
      args ++ ["--"; prompt]
  end%list.

(** [parseSemverParts]: major, minor and patch; a part that is missing
    or is not a number reads as 0. *)
Definition parseSemverParts (v : string) : Z * Z * Z :=
  let v := GoStrings.TrimPrefix v "v" in
  let v :=
    let idx := GoStrings.Index v "-" in
    if 0 <=? idx then GoStrings.prefixTo idx v else v in
  let v :=
    let idx := GoStrings.Index v "+" in
    if 0 <=? idx then GoStrings.prefixTo idx v else v in
  let fields := GoStrings.SplitN v "." 4 in
  let part (i : nat) : Z :=
    match fields !! i with
    | Some f => default 0 (strconv.Atoi f)
    | None => 0
    end in
  (part 0%nat, part 1%nat, part 2%nat).

(** [CompareSemver]: the parts compared in order. *)
Definition CompareSemver (a b : string) : Z :=
  let '(a0, a1, a2) := parseSemverParts a in
  let '(b0, b1, b2) := parseSemverParts b in
  if a0 <? b0 then -1 else if b0 <? a0 then 1
  else if a1 <? b1 then -1 else if b1 <? a1 then 1
  else if a2 <? b2 then -1 else if b2 <? a2 then 1
  else 0.

(** The loop of [LookupCompat] over the table. *)
Fixpoint lookupIn (entries : list CompatEntry) (version : string)
  : option CompatEntry :=
  match entries with
  | [] => None
  | entry :: rest =>
      if (0 <=? CompareSemver version (MinVersion entry))
         && (CompareSemver version (MaxVersion entry) <=? 0)
      then Some entry
      else lookupIn rest version
  end.

(** [LookupCompat]: the first entry of the table whose range holds the
    version, [None] for an unknown version; its error is always nil. *)
Definition LookupCompat (version : string) : option CompatEntry :=
  lookupIn defaultCompat version.

End compat.

(** ** Package [config]: the matcher lists *)

Module matchers.

Record MatchersConfig := mkMatchers {
  RateLimitPatterns : list string;
  PromptPatterns : list string;
  ExcludeRateLimitPatterns : list string;
  ExcludePromptPatterns : list string
}.

(** [toSet]: every item maps to [true]. *)
Definition toSet (items : list string) : gmap string bool :=
  foldl (fun s item => <[item := true]> s) ∅ items.

(** [filterExcluded]: the patterns, in order, that the set does not
    hold. *)
Fixpoint filterExcluded (patterns : list string) (exclude : gmap string bool)
  : list string :=
  match patterns with
  | [] => []
  | p :: rest =>
      if default false (exclude !! p) then filterExcluded rest exclude
      else p :: filterExcluded rest exclude
  end.

(** The loop of [appendUnique]. *)
Fixpoint appendUniqueFrom (existing : gmap string bool)
    (base additions : list string) : list string :=
  match additions with
  | [] => base
  | a :: rest =>
      if default false (existing !! a)
      then appendUniqueFrom existing base rest
      else appendUniqueFrom (<[a := true]> existing) (base ++ [a]) rest
  end.

Definition appendUnique (base additions : list string) : list string :=
  appendUniqueFrom (toSet base) base additions.

(** [merge]: the defaults without the excluded ones, then the user's
    additions; the exclude lists of the result are empty. *)
Definition merge (base user : MatchersConfig) : MatchersConfig :=
  let excludeRL := toSet (ExcludeRateLimitPatterns user) in
  let excludePR := toSet (ExcludePromptPatterns user) in
  let rl := filterExcluded (RateLimitPatterns base) excludeRL in
  let pr := filterExcluded (PromptPatterns base) excludePR in
  mkMatchers (appendUnique rl (RateLimitPatterns user))
    (appendUnique pr (PromptPatterns user)) [] [].

End matchers.


(** ** Package [resume] *)

Module resume.

Inductive ResumeStrategy :=
| NativeResume
| RePrompt.

Definition DetermineStrategy (hasSessionID supportsResume : bool)
  : ResumeStrategy :=
  if supportsResume && hasSessionID then NativeResume else RePrompt.

Definition nl : string := String (ascii_of_nat 10) EmptyString.

(** [contextLines[len(contextLines)-20:]] when there are more than 20. *)
Definition lastN (n : nat) (l : list string) : list string :=
  if (n <? length l)%nat then drop (length l - n) l else l.

Definition BuildResumePrompt (attempt : Z) (lastMessages : list string)
    (originalPrompt : string) : string :=
  let lastOutput := GoStrings.Join (lastN 20 lastMessages) nl in
  "[RESUMED — attempt " +:+ pretty attempt +:+ ". Previous session expired."
  +:+ nl +:+ "Last output before interruption: " +:+ lastOutput +:+ "."
  +:+ nl +:+ "Continue from where you left off. Do not redo completed work.]"
  +:+ nl +:+ nl +:+ "Original task:" +:+ nl +:+ originalPrompt.

End resume.

(** ** [float64] arithmetic

    A finite [float64] is the rational number it denotes.  Every operation
    returns the exact result rounded to the nearest value with a 53-bit
    significand, ties to the even significand (IEEE 754 binary64, the
    arithmetic of Go's [float64]); results here stay far below the
    overflow threshold, except for [math.Pow], which is given its
    infinite result. *)

Module float64.
Open Scope Q_scope.

(** [2^z] for any integer [z]. *)
Definition pow2 (z : Z) : Q := Qpower 2 z.

(** For [x > 0]: the [e] with [2^e <= x < 2^(e+1)]. *)
Definition ilog2 (x : Q) : Z :=
  let e := (Z.log2 (Qnum x) - Z.log2 (Zpos (Qden x)))%Z in
  if Qle_bool (pow2 e) x then e else (e - 1)%Z.

(** Rounding to the nearest integer, ties to even. *)
Definition rne (q : Q) : Z :=
  let f := Qfloor q in
  match Qcompare (q - inject_Z f)%Q (1 # 2)%Q with
  | Lt => f
  | Gt => (f + 1)%Z
  | Eq => if Z.even f then f else (f + 1)%Z
  end.

(** The exponent of the unit in the last place of [x <> 0]. *)
Definition ulpExp (x : Q) : Z := Z.max (ilog2 (Qabs x) - 52) (-1074).

Definition round (x : Q) : Q :=
  match Qcompare x 0%Q with
  | Eq => 0%Q
  | _ => Qred (inject_Z (rne (x * pow2 (- ulpExp x))) * pow2 (ulpExp x))
  end.

Definition add (x y : Q) : Q := round (x + y).
Definition sub (x y : Q) : Q := round (x - y).
Definition mul (x y : Q) : Q := round (x * y).

(** A constant of the program text, converted to [float64]. *)
Definition const (x : Q) : Q := round x.

(** The conversion of a [float64] to [int64]: the fraction is dropped. *)
Definition toInt (x : Q) : Z := Z.quot (Qnum x) (Zpos (Qden x)).

(** A [float64] that may be the positive infinity. *)
Inductive ext :=
| Fin (x : Q)
| PInf.

(** [math.Pow(2, float64(k))] for an integer [k]: exact between the
    underflow and overflow thresholds. *)
Definition Pow2 (k : Z) : ext :=
  if (1024 <=? k)%Z then PInf
  else if (k <? -1074)%Z then Fin 0
  else Fin (pow2 k).

(** [x * y] for a finite positive [x]. *)
Definition mulExt (x : Q) (y : ext) : ext :=
  match y with
  | PInf => PInf
  | Fin y => if Qle_bool (pow2 1024) (mul x y) then PInf else Fin (mul x y)
  end.

(** [if y > cap { y = cap }]. *)
Definition capAt (cap : Q) (y : ext) : Q :=
  match y with
  | PInf => cap
  | Fin y => if Qle_bool y cap then y else cap
  end.

End float64.

(** ** Package [runner] *)

Module runner.
Import queue.

Definition ExitOK : Z := 0.
Definition ExitFailed : Z := 1.
Definition ExitFatal : Z := 2.
Definition ExitSignal : Z := 130.

(** [exponentialBackoff]; [u] is the value drawn from [rand.Float64],
    a [float64] in the half-open interval from 0 to 1. *)
Definition exponentialBackoff (attempt : Z) (u : Q) : Z :=
  let baseMinutes := 5%Q in
  let capMinutes := 300%Q in
  let jitterPct := float64.const (20 # 100) in
  let minutes :=
    float64.mulExt baseMinutes (float64.Pow2 (wrap64 (attempt - 1))) in
  let minutes := float64.capAt capMinutes minutes in
  let jitter :=
    float64.mul (float64.mul minutes jitterPct)
      (float64.sub (float64.mul 2 u) 1) in
  let minutes := float64.add minutes jitter in
  let minutes := if Qle_bool 1 minutes then minutes else 1%Q in
  float64.toInt (float64.mul minutes (inject_Z gotime.Minute)).

(** *** In-place updates of a [TaskState] *)

Definition setStatus (s : TaskState) (v : string) : TaskState :=
  mkState (sID s) v (Attempt s) (StartedAt s) (EndedAt s)
    (LastRateLimitedAt s) (ResumeAt s) (PromptHash s) (GitCommit s)
    (SessionID s) (LastNDJSONMessages s).
Definition setAttempt (s : TaskState) (v : Z) : TaskState :=
  mkState (sID s) (Status s) v (StartedAt s) (EndedAt s)
    (LastRateLimitedAt s) (ResumeAt s) (PromptHash s) (GitCommit s)
    (SessionID s) (LastNDJSONMessages s).
Definition setStartedAt (s : TaskState) (v : option Z) : TaskState :=
  mkState (sID s) (Status s) (Attempt s) v (EndedAt s)
    (LastRateLimitedAt s) (ResumeAt s) (PromptHash s) (GitCommit s)
    (SessionID s) (LastNDJSONMessages s).
Definition setEndedAt (s : TaskState) (v : option Z) : TaskState :=
  mkState (sID s) (Status s) (Attempt s) (StartedAt s) v
    (LastRateLimitedAt s) (ResumeAt s) (PromptHash s) (GitCommit s)
    (SessionID s) (LastNDJSONMessages s).
Definition setLastRateLimitedAt (s : TaskState) (v : option Z) : TaskState :=
  mkState (sID s) (Status s) (Attempt s) (StartedAt s) (EndedAt s)
    v (ResumeAt s) (PromptHash s) (GitCommit s)
    (SessionID s) (LastNDJSONMessages s).
Definition setResumeAt (s : TaskState) (v : option Z) : TaskState :=
  mkState (sID s) (Status s) (Attempt s) (StartedAt s) (EndedAt s)
    (LastRateLimitedAt s) v (PromptHash s) (GitCommit s)
    (SessionID s) (LastNDJSONMessages s).
Definition setPromptHash (s : TaskState) (v : string) : TaskState :=
  mkState (sID s) (Status s) (Attempt s) (StartedAt s) (EndedAt s)
    (LastRateLimitedAt s) (ResumeAt s) v (GitCommit s)
    (SessionID s) (LastNDJSONMessages s).
Definition setGitCommit (s : TaskState) (v : string) : TaskState :=
  mkState (sID s) (Status s) (Attempt s) (StartedAt s) (EndedAt s)
    (LastRateLimitedAt s) (ResumeAt s) (PromptHash s) v
    (SessionID s) (LastNDJSONMessages s).
Definition setSessionID (s : TaskState) (v : string) : TaskState :=
  mkState (sID s) (Status s) (Attempt s) (StartedAt s) (EndedAt s)
    (LastRateLimitedAt s) (ResumeAt s) (PromptHash s) (GitCommit s)
    v (LastNDJSONMessages s).
Definition setLastNDJSONMessages (s : TaskState) (v : list string)
  : TaskState :=
  mkState (sID s) (Status s) (Attempt s) (StartedAt s) (EndedAt s)
    (LastRateLimitedAt s) (ResumeAt s) (PromptHash s) (GitCommit s)
    (SessionID s) v.

(** *** The state directory *)

(** The content of [<id>.state.json]. *)
Inductive stateFile :=
| StateRecord (s : TaskState)
| StateCorrupt (msg : string).

Definition LoadState (stateDir : gmap string stateFile) (taskID : string)
  : result (option TaskState) :=
  match stateDir !! taskID with
  | None => Ok None
  | Some (StateRecord s) => Ok (Some s)
  | Some (StateCorrupt msg) =>
      Err ("parse state file " +:+ taskID +:+ ".state.json: " +:+ msg)
  end.

Definition SaveState (stateDir : gmap string stateFile) (state : TaskState)
  : gmap string stateFile :=
  <[sID state := StateRecord state]> stateDir.

(** The state used for a task that has no state file. *)
Definition implicitPending (taskID : string) : TaskState :=
  mkState taskID StatusPending 0 None None None None "" "" "" [].

(** *** Control commands *)

(** The body of the [switch cmd.Op] of [processControlCommands]:
    [None] for an unknown operation (nothing is saved). *)
Definition applyCommand (op : string) (st : TaskState) : option TaskState :=
  if String.eqb op "retry" then
    Some
      (if String.eqb (Status st) StatusFailed
          || String.eqb (Status st) StatusCancelled
       then if ValidTransition (Status st) StatusPending
            then setResumeAt (setAttempt (setStatus st StatusPending) 0) None
            else st
       else st)
  else if String.eqb op "cancel" then
    Some
      (if ValidTransition (Status st) StatusCancelled
       then setStatus st StatusCancelled
       else st)
  else None.

Fixpoint applyCommands (commands : list ControlCommand)
    (stateDir : gmap string stateFile) : gmap string stateFile :=
  match commands with
  | [] => stateDir
  | cmd :: rest =>
      match LoadState stateDir (TaskID cmd) with
      | Err _ => applyCommands rest stateDir
      | Ok o =>
          let st := default (implicitPending (TaskID cmd)) o in
          match applyCommand (Op cmd) st with
          | None => applyCommands rest stateDir
          | Some st' => applyCommands rest (SaveState stateDir st')
          end
      end
  end.

(** [processControlCommands]: the commands read from the log are applied
    in order and the log is cleared. *)
Definition processControlCommands (commands : list ControlCommand)
    (stateDir : gmap string stateFile)
  : list ControlCommand * gmap string stateFile :=
  match commands with
  | [] => ([], stateDir)
  | _ => ([], applyCommands commands stateDir)
  end.

(** The direct path of [runRetry], taken when no runner holds the lock. *)
Definition runRetryDirect (stateDir : gmap string stateFile)
    (taskID : string) : result (gmap string stateFile) :=
  match wrapErr ("load state for " +:+ taskID) (LoadState stateDir taskID) with
  | Err e => Err e
  | Ok None => Err ("no state found for task " +:+ taskID)
  | Ok (Some st) =>
      if negb (String.eqb (Status st) StatusFailed)
         && negb (String.eqb (Status st) StatusCancelled)
      then Err ("Task '" +:+ taskID +:+ "' is " +:+ Status st
                +:+ ", only failed/cancelled tasks can be retried")
      else
        Ok (SaveState stateDir
              (setResumeAt (setAttempt (setStatus st StatusPending) 0) None))
  end.

(** The direct path of [runCancel]. *)
Definition runCancelDirect (stateDir : gmap string stateFile)
    (taskID : string) : result (gmap string stateFile) :=
  match wrapErr ("load state for " +:+ taskID) (LoadState stateDir taskID) with
  | Err e => Err e
  | Ok o =>
      let st := default (implicitPending taskID) o in
      if String.eqb (Status st) StatusDone then Ok stateDir
      else if String.eqb (Status st) StatusCancelled then Ok stateDir
      else if String.eqb (Status st) StatusRunning then Ok stateDir
      else if String.eqb (Status st) StatusPending
              || String.eqb (Status st) StatusWaiting
              || String.eqb (Status st) StatusFailed
      then
        if negb (ValidTransition (Status st) StatusCancelled)
        then Err ("cannot transition task " +:+ taskID +:+ " from "
                  +:+ Status st +:+ " to cancelled")
        else Ok (SaveState stateDir (setStatus st StatusCancelled))
      else Err ("task " +:+ taskID +:+ " has unexpected status "
                +:+ dquote +:+ Status st +:+ dquote)
  end.

(** *** Executing one task *)

Record Runner := mkRunner {
  ConfigSkipPermissions : bool;
  Adapter : compat.CLIAdapter;
  Detector : detector.Detector
}.

Inductive fileRead :=
| FileData (data : string)
| FileNotExist
| FileError (msg : string).

(** A line of the child's standard output decoded as a stream message:
    its [type], and the [session_id] of its decoding as a system message
    ([None] when that decoding fails). *)
Record NDJSONMessage := mkMessage {
  msgType : string;
  msgSessionID : option string
}.

(** How [cmd.Wait] ends. *)
Inductive waitResult :=
| WaitNil
| WaitExitError (code : Z)
| WaitOtherError.

Inductive spawnResult :=
| PipeError
| StartError
| Ran (stdoutLines : list string) (stderr : string) (wait : waitResult).

(** Everything one call of [executeTask] reads from outside the
    program, in the order it is read. *)
Record ExecEnv := mkExecEnv {
  nowEntry : Z;
  isDir : string -> bool;
  hashPrompt : string -> string;
  currentGitCommit : string -> string;
  preRunSaveFails : bool;
  filepathJoin : string -> string -> string;
  readFile : string -> fileRead;
  nowPromptError : Z;
  child : list string -> string -> spawnResult;
  nowStartError : Z;
  decodeNDJSON : string -> option NDJSONMessage;
  shuttingDown : bool;
  host : timeparse.Host;
  nowRateLimited : Z;
  nowBackoff : Z;
  jitter : Q;
  nowEnd : Z
}.

Definition maybeWrapResume (r : Runner) (prompt : string) (state : TaskState)
  : string :=
  if Attempt state <=? 1 then prompt
  else if negb (String.eqb (SessionID state) "")
          && compat.SupportsResume (Adapter r)
          && match resume.DetermineStrategy true
                     (compat.SupportsResume (Adapter r)) with
             | resume.NativeResume => true
             | resume.RePrompt => false
             end
  then prompt
  else resume.BuildResumePrompt (Attempt state) (LastNDJSONMessages state)
         prompt.

Fixpoint contextBlocks (e : ExecEnv) (task : Task) (refs : list string)
  : result string :=
  match refs with
  | [] => Ok ""
  | fileRef :: rest =>
      let resolvedPath :=
        if IsAbs fileRef then fileRef
        else filepathJoin e (WorkingDir task) fileRef in
      match readFile e resolvedPath with
      | FileNotExist =>
          Err ("Context file '" +:+ fileRef +:+ "' not found in "
               +:+ WorkingDir task)
      | FileError msg =>
          Err ("read context file '" +:+ fileRef +:+ "': " +:+ msg)
      | FileData data =>
          more ← contextBlocks e task rest;
          Ok ("[File: " +:+ fileRef +:+ "]" +:+ resume.nl +:+ data
              +:+ resume.nl +:+ resume.nl +:+ more)
      end
  end.

Definition buildPromptWithContext (r : Runner) (e : ExecEnv) (task : Task)
    (state : TaskState) : result string :=
  match ContextFiles task with
  | [] => Ok (maybeWrapResume r (Prompt task) state)
  | refs =>
      b ← contextBlocks e task refs;
      Ok (b +:+ maybeWrapResume r (Prompt task) state)
  end.

(** The scan of the child's standard output: the text gathered for the
    detector, the last lines kept for the resume context, and the session
    id announced by a system message. *)
Fixpoint scanLines (e : ExecEnv) (streamJSON : bool) (lines : list string)
    (stdoutBuf : string) (lastLines : list string) (sessionID : string)
  : string * list string * string :=
  match lines with
  | [] => (stdoutBuf, lastLines, sessionID)
  | line :: rest =>
      let stdoutBuf := stdoutBuf +:+ line +:+ resume.nl in
      let lastLines := resume.lastN 20 (lastLines ++ [line]) in
      let sessionID :=
        if streamJSON then
          match decodeNDJSON e line with
          | Some msg =>
              if String.eqb (msgType msg) "system" then
                match msgSessionID msg with
                | Some sid => if String.eqb sid "" then sessionID else sid
                | None => sessionID
                end
              else sessionID
          | None => sessionID
          end
        else sessionID in
      scanLines e streamJSON rest stdoutBuf lastLines sessionID
  end.

(** The transition on the detection result. *)
Definition applyOutcome (e : ExecEnv) (task : Task) (state : TaskState)
    (result : detector.RateLimitResult) : TaskState :=
  let backoffResume :=
    Some (nowBackoff e + exponentialBackoff (Attempt state) (jitter e)) in
  match detector.Result result with
  | detector.Completed => setStatus state StatusDone
  | detector.RateLimited =>
      let state :=
        setLastRateLimitedAt (setStatus state StatusWaiting)
          (Some (nowRateLimited e)) in
      match detector.ResetTime result with
      | Some t => setResumeAt state (Some t)
      | None => setResumeAt state backoffResume
      end
  | detector.Failed =>
      if Attempt state <? MaxRetries task
      then setResumeAt (setStatus state StatusWaiting) backoffResume
      else setStatus state StatusFailed
  | detector.Unknown =>
      if Attempt state <? 2
      then setResumeAt (setStatus state StatusWaiting) backoffResume
      else setStatus state StatusFailed
  end.

(** The pre-run setup: the state becomes [running] and a new attempt
    is counted. *)
Definition preRun (e : ExecEnv) (task : Task) (state : TaskState)
  : TaskState :=
  let state := setStatus state StatusRunning in
  let state := setAttempt state (wrap64 (Attempt state + 1)) in
  let state := setStartedAt state (Some (nowEntry e)) in
  let state := setEndedAt state None in
  let state := setPromptHash state (hashPrompt e (Prompt task)) in
  setGitCommit state (currentGitCommit e (WorkingDir task)).

(** The session id handed to the adapter: set for a native resume. *)
Definition resumeSessionID (r : Runner) (state : TaskState) : string :=
  if negb (String.eqb (SessionID state) "")
     && compat.SupportsResume (Adapter r)
  then match resume.DetermineStrategy true
               (compat.SupportsResume (Adapter r)) with
       | resume.NativeResume => SessionID state
       | resume.RePrompt => ""
       end
  else "".

(** The arguments of the child process. *)
Definition childArgs (r : Runner) (task : Task) (state : TaskState)
    (prompt : string) : list string :=
  compat.BuildArgs (Adapter r) prompt (Model task) (resumeSessionID r state)
    (ConfigSkipPermissions r || SkipPermissions task) (Flags task).

(** The exit code read off [cmd.Wait]. *)
Definition exitCodeOf (wait : waitResult) : Z :=
  match wait with
  | WaitNil => 0
  | WaitExitError code => code
  | WaitOtherError => 1
  end.

(** The restore on shutdown: the interrupted attempt is not counted. *)
Definition shutdownRestore (state : TaskState) : TaskState :=
  if String.eqb (Status state) StatusRunning
  then setEndedAt
         (setAttempt (setStatus state StatusPending)
            (wrap64 (Attempt state - 1)))
         None
  else state.

(** [executeTask]: the exit code, the state as the call leaves it, and
    the states handed to [SaveState], in order. *)
Definition executeTask (r : Runner) (e : ExecEnv) (task : Task)
    (state : TaskState) : Z * TaskState * list TaskState :=
  let now := nowEntry e in
  if negb (IsAbs (WorkingDir task)) || negb (isDir e (WorkingDir task))
  then
    let state := setEndedAt (setStatus state StatusFailed) (Some now) in
    (ExitFailed, state, [state])
  else
    let state := preRun e task state in
    if preRunSaveFails e then (ExitFatal, state, [])
    else
      let saved := state in
      match buildPromptWithContext r e task state with
      | Err _ =>
          let state :=
            setEndedAt (setStatus state StatusFailed)
              (Some (nowPromptError e)) in
          (ExitFailed, state, [saved; state])
      | Ok prompt =>
          match child e (childArgs r task state prompt) (WorkingDir task) with
          | PipeError =>
              let state := setStatus state StatusFailed in
              (ExitFailed, state, [saved; state])
          | StartError =>
              let state :=
                setEndedAt (setStatus state StatusFailed)
                  (Some (nowStartError e)) in
              (ExitFailed, state, [saved; state])
          | Ran lines stderrStr wait =>
              let '(stdoutStr, lastLines, sid) :=
                scanLines e (compat.SupportsStreamJSON (Adapter r)) lines
                  "" [] (SessionID state) in
              let state := setSessionID state sid in
              let exitCode := exitCodeOf wait in
              let state := setLastNDJSONMessages state lastLines in
              if shuttingDown e then
                let state := shutdownRestore state in
                (ExitSignal, state, [saved; state])
              else
                let result :=
                  detector.Detect (host e) (Detector r) exitCode stdoutStr
                    stderrStr in
                let state := applyOutcome e task state result in
                let state := setEndedAt state (Some (nowEnd e)) in
                (ExitOK, state, [saved; state])
          end
      end.

(** *** One pass of the main loop *)

(** Loading the states of the loaded tasks; a [running] record is stale
    and goes back to [pending] (crash recovery). *)
Definition crashRecover (st : TaskState) : TaskState :=
  if String.eqb (Status st) StatusRunning
  then setStatus st StatusPending else st.

Fixpoint loadStates (tasks : list Task) (states : gmap string TaskState)
    (stateDir : gmap string stateFile)
  : gmap string TaskState * gmap string stateFile :=
  match tasks with
  | [] => (states, stateDir)
  | t :: rest =>
      let '(st, stateDir) :=
        match LoadState stateDir (ID t) with
        | Ok (Some st) =>
            if String.eqb (Status st) StatusRunning
            then (crashRecover st, SaveState stateDir (crashRecover st))
            else (st, stateDir)
        | _ => (implicitPending (ID t), stateDir)
        end in
      loadStates rest (<[ID t := st]> states) stateDir
  end.

(** The status of a task in the map of loaded states. *)
Definition stateOf (states : gmap string TaskState) (t : Task) : TaskState :=
  default (implicitPending (ID t)) (states !! ID t).

Definition isActionable (now : Z) (st : TaskState) : bool :=
  String.eqb (Status st) StatusPending
  || (String.eqb (Status st) StatusWaiting
      && negb match ResumeAt st with
              | Some t => now <? t
              | None => false
              end).

Definition isWaitingFuture (now : Z) (st : TaskState) : bool :=
  String.eqb (Status st) StatusWaiting
  && match ResumeAt st with
     | Some t => now <? t
     | None => false
     end.

Definition actionable (now : Z) (tasks : list Task)
    (states : gmap string TaskState) : list Task :=
  filter (fun t => isActionable now (stateOf states t) = true) tasks.

Definition waitingFuture (now : Z) (tasks : list Task)
    (states : gmap string TaskState) : list Task :=
  filter (fun t => isWaitingFuture now (stateOf states t) = true) tasks.

(** What one pass of the loop in [Run] does next. *)
Inductive passResult :=
| Return (code : Z)
| Executed (task : Task) (code : Z) (st : TaskState)
| Sleep
| Break.

(** The durable state the loop works on. *)
Record Disk := mkDisk {
  controlLog : list ControlCommand;
  stateDir : gmap string stateFile;
  initDir : gmap string initFile
}.

(** What one pass reads from outside. *)
Record PassEnv := mkPassEnv {
  shuttingDownAtStart : bool;
  globalDir : string;
  globalFiles : list SourceFile;
  projectDir : string;
  projectFiles : option (list SourceFile);
  initClock : nat -> Z;
  nowFilter : Z;
  exec : ExecEnv
}.

Definition saveAll (stateDir : gmap string stateFile)
    (writes : list TaskState) : gmap string stateFile :=
  foldl SaveState stateDir writes.

Definition runPass (r : Runner) (e : PassEnv) (d : Disk)
  : passResult * Disk :=
  if shuttingDownAtStart e then (Return ExitSignal, d)
  else
    let '(log, sd) := processControlCommands (controlLog d) (stateDir d) in
    match LoadTasksAndInit (globalDir e) (globalFiles e) (projectDir e)
            (projectFiles e) (Some (initDir d)) (initClock e) with
    | (Err _, inits) =>
        (Return ExitFatal, mkDisk log sd (default (initDir d) inits))
    | (Ok (tasks, _), inits) =>
        let inits := default (initDir d) inits in
        match tasks with
        | [] => (Return ExitOK, mkDisk log sd inits)
        | _ =>
            let '(states, sd) := loadStates tasks ∅ sd in
            match actionable (nowFilter e) tasks states with
            | task :: _ =>
                let '(code, st, writes) :=
                  executeTask r (exec e) task (stateOf states task) in
                (Executed task code st, mkDisk log (saveAll sd writes) inits)
            | [] =>
                match waitingFuture (nowFilter e) tasks states with
                | _ :: _ => (Sleep, mkDisk log sd inits)
                | [] => (Break, mkDisk log sd inits)
                end
            end
        end
    end.

(** The loop of [findEarliestResume]. *)
Fixpoint findEarliestFrom (earliest : option Z) (tasks : list Task)
    (states : gmap string TaskState) : option Z :=
  match tasks with
  | [] => earliest
  | t :: rest =>
      match states !! ID t with
      | None => findEarliestFrom earliest rest states
      | Some st =>
          match ResumeAt st with
          | None => findEarliestFrom earliest rest states
          | Some resumeAt =>
              let earliest :=
                match earliest with
                | None => Some resumeAt
                | Some e => if resumeAt <? e then Some resumeAt else Some e
                end in
              findEarliestFrom earliest rest states
          end
      end
  end.

(** [findEarliestResume]: the earliest [resume_at] among the states of
    the given tasks, [None] when no state has one. *)
Definition findEarliestResume (tasks : list Task)
    (states : gmap string TaskState) : option Z :=
  findEarliestFrom None tasks states.

End runner.

(** ** Package [cmd]: how a run is wired *)

Module cmd.
End cmd.



(** ** Sample inputs *)

Module sample.
Import queue runner.

(** 2026-11-01 00:00:00 UTC, in seconds. *)
Definition midnight : Z := 1793491200.

Definition hostUTC (now : Z) : timeparse.Host :=
  timeparse.mkHost (fun _ => None) gotime.UTC now.

(** New York on the day daylight saving time ends, 2026-11-01: four hours
    west of UTC until 06:00 UTC, five hours from then on. *)
Definition newYork : gotime.Location :=
  gotime.mkLocation (-14400) [(midnight + 6 * 3600, -18000)].

(** 23:30 Eastern Standard Time on 2026-11-01. *)
Definition lateEvening : Z :=
  (midnight + 86400 + 4 * 3600 + 1800) * gotime.Second.

Definition hostNewYork : timeparse.Host :=
  timeparse.mkHost (fun _ => None) newYork lateEvening.

Definition task : Task :=
  mkTask "fix-login" "Fix login" 10 (midnight * gotime.Second) "/srv/app"
    false "Fix the login bug" [] "" 5 0 []
    "/home/u/.claude-autopilot/tasks/fix-login.yaml".

Definition theRunner : Runner :=
  mkRunner false (compat.NewAdapter (Some (compat.mkEntry "2.0.0" "2.99.99" true true 75)))
    (detector.NewDetector ["rate limit"; "usage limit"] 75).

(** A child that prints two lines and fails with a rate-limit message
    naming a reset time. *)
Definition rateLimitedChild (args : list string) (dir : string) : spawnResult :=
  Ran ["Working on it"; "Stopping"]
    "Error: Rate limit reached. Your limit will reset at 6:30 PM."
    (WaitExitError 1).

Definition env (child : list string -> string -> spawnResult)
    (shuttingDown : bool) : ExecEnv :=
  mkExecEnv ((midnight + 3600) * gotime.Second) (fun _ => true)
    (fun _ => "9f86d081884c7d65") (fun _ => "") false
    (fun a b => a +:+ "/" +:+ b) (fun _ => FileNotExist)
    ((midnight + 3601) * gotime.Second) child
    ((midnight + 3602) * gotime.Second) (fun _ => None) shuttingDown
    (hostUTC ((midnight + 3660) * gotime.Second))
    ((midnight + 3660) * gotime.Second) ((midnight + 3661) * gotime.Second)
    (1 # 2) ((midnight + 3662) * gotime.Second).

Definition runningState : TaskState :=
  mkState "fix-login" StatusRunning 1 (Some (midnight * gotime.Second)) None
    None None "9f86d081884c7d65" "" "sess-1" ["Working on it"].

Definition failedState : TaskState :=
  mkState "fix-login" StatusFailed 5 (Some (midnight * gotime.Second))
    (Some ((midnight + 60) * gotime.Second)) None
    (Some ((midnight + 900) * gotime.Second)) "9f86d081884c7d65" "" "sess-1"
    ["Working on it"].

(** A task document with the given id, title, priority, creation time and
    prompt, and the working directory [/tmp]. *)
Definition doc (id title : string) (priority created : option Z)
    (prompt : string) : yamlDoc :=
  YTask (mkYAML (Some id) (Some title) priority created (Some "/tmp") None
           (Some prompt) [] None None None []).

Definition noRandom (i : nat) : N * N := (0%N, 0%N).

(** Two task files, in the global and the project directory, whose tasks
    share the id [dup-id]. *)
Definition globalDup : list SourceFile :=
  [ mkFile "/home/u/.claude-autopilot/tasks/a.yaml"
      [doc "dup-id" "Global Task" None None "prompt"] noRandom ].
Definition projectDup : list SourceFile :=
  [ mkFile "/work/proj/.autopilot/tasks/b.yaml"
      [doc "dup-id" "Project Task" None None "prompt"] noRandom ].

(** One multi-document file with three tasks out of order. *)
Definition threeTasks : list SourceFile :=
  [ mkFile "/home/u/.claude-autopilot/tasks/tasks.yaml"
      [ doc "high-pri" "High Priority" (Some 5) None "prompt high";
        doc "a-task" "A Task" (Some 1) (Some (midnight * gotime.Second))
          "prompt a";
        doc "z-task" "Z Task" (Some 1)
          (Some ((midnight - 3600) * gotime.Second)) "prompt z" ]
      noRandom ].

(** The same three tasks, listed in another order and with other titles
    and prompts. *)
Definition threeTasksAgain : list SourceFile :=
  [ mkFile "/home/u/.claude-autopilot/tasks/tasks.yaml"
      [ doc "z-task" "Zeta" (Some 1)
          (Some ((midnight - 3600) * gotime.Second)) "another prompt";
        doc "high-pri" "Urgent" (Some 5) None "prompt";
        doc "a-task" "Alpha" (Some 1) (Some (midnight * gotime.Second))
          "prompt" ]
      noRandom ].

(** A document that sets both [priority] and [max_retries] to zero. *)
Definition zeroDoc : TaskYAML :=
  mkYAML (Some "zeroes") (Some "Zeroes") (Some 0) None (Some "/tmp") None
    (Some "prompt") [] None (Some 0) None [].

Definition passEnv (globalFiles : list SourceFile)
    (projectFiles : option (list SourceFile)) : PassEnv :=
  mkPassEnv false "/home/u/.claude-autopilot/tasks" globalFiles
    "/work/proj/.autopilot/tasks" projectFiles
    (fun _ => (midnight + 3600) * gotime.Second)
    ((midnight + 3600) * gotime.Second) (env rateLimitedChild false).

Definition emptyDisk : Disk := mkDisk [] ∅ ∅.

Definition doneState (id : string) : TaskState :=
  mkState id StatusDone 1 (Some (midnight * gotime.Second))
    (Some ((midnight + 60) * gotime.Second)) None None
    "9f86d081884c7d65" "" "sess-1" ["All done"].

Definition drainedDisk : Disk :=
  mkDisk []
    (saveAll ∅ [doneState "z-task"; doneState "a-task"; doneState "high-pri"])
    ∅.

Definition zDoneDisk : Disk :=
  mkDisk [mkCommand "retry" "z-task" 0; mkCommand "cancel" "a-task" 0]
    (saveAll ∅ [doneState "z-task"]) ∅.

End sample.

(** * Properties *)

Import queue runner.

(** ** The transition table *)

(** The pairs of the table of the specification. *)
Definition transitionTable : list (string * string) :=
  [ (StatusPending, StatusRunning); (StatusPending, StatusCancelled);
    (StatusRunning, StatusDone); (StatusRunning, StatusFailed);
    (StatusRunning, StatusWaiting); (StatusRunning, StatusCancelled);
    (StatusWaiting, StatusRunning); (StatusWaiting, StatusCancelled);
    (StatusFailed, StatusPending); (StatusFailed, StatusCancelled);
    (StatusCancelled, StatusPending) ].

(** A sequence of statuses, each reached from the one before along a pair
    of the table. *)
Fixpoint followsTable (from : string) (path : list string) : bool :=
  match path with
  | [] => true
  | to :: rest => ValidTransition from to && followsTable to rest
  end.

(** The state a retry leaves: [pending], no attempts, no resume time. *)
Definition retryReset (st : TaskState) : TaskState :=
  mkState (sID st) StatusPending 0 (StartedAt st) (EndedAt st)
    (LastRateLimitedAt st) None (PromptHash st) (GitCommit st)
    (SessionID st) (LastNDJSONMessages st).

Definition ciOccurs (text p : string) : Prop :=
  exists pre post,
    GoStrings.ToLower text = pre +:+ GoStrings.ToLower p +:+ post.

Definition adjacent (x y : string) (l : list string) : Prop :=
  exists pre post, l = pre ++ x :: y :: post.

Definition ownArgs (a : compat.CLIAdapter) (model sessionID : string)
    (skipPerms : bool) : list string :=
  (if compat.SupportsStreamJSON a
   then ["--verbose"; "--output-format"; "stream-json"] else [])
  ++ (if compat.SupportsResume a && negb (String.eqb sessionID "")
      then ["--resume"; sessionID] else [])
  ++ (if negb (String.eqb model "") then ["--model"; model] else [])
  ++ (if skipPerms then ["--dangerously-skip-permissions"] else []).

Definition defaulted (t : Task) : Prop := Priority t <> 0 /\ MaxRetries t <> 0.

(** [t'] is [t] with another creation time: what canonicalisation from
    the init records may change. *)
Definition sameButCreatedAt (t t' : Task) : Prop :=
  t' = setCreatedAt t (CreatedAt t').

(** The message of the duplicate scan for the records [t1] and [t2]. *)
Definition duplicateMessage (t1 t2 : Task) : string :=
  "Duplicate task ID '" +:+ ID t2 +:+ "' found in " +:+ Source t1
  +:+ " and " +:+ Source t2 +:+ ". Remove one.".

(** [t2] is the first record whose id an earlier record, [t1], holds. *)
Definition firstDuplicate (tasks : list Task) (t1 t2 : Task) : Prop :=
  exists pre mid post,
    tasks = pre ++ t1 :: mid ++ t2 :: post
    /\ ID t1 = ID t2
    /\ NoDup (ID <$> (pre ++ t1 :: mid)).

Definition sortKey (t : Task) : Z * Z * string :=
  (Priority t, CreatedAt t, ID t).

(** The strict lexicographic order on (priority, created_at, id); ids
    compare byte by byte. *)
Definition keyLt (k1 k2 : Z * Z * string) : Prop :=
  k1.1.1 < k2.1.1
  \/ (k1.1.1 = k2.1.1
      /\ (k1.1.2 < k2.1.2
          \/ (k1.1.2 = k2.1.2 /\ String_as_OT.lt k1.2 k2.2))).

(** Materialising the init records of [all] succeeds (trivially so when
    no state directory is given). *)
Definition initOK (sd : option (gmap string initFile)) (all : list Task)
    (clock : nat -> Z) : Prop :=
  match sd with
  | None => True
  | Some d => exists x, (ensureAll d all 0 clock 0).1 = Ok x
  end.

(** The minutes of the specification before jitter: 5, doubled per
    attempt, at most 300. *)
Definition baseMinutes (attempt : Z) : Z := Z.min (5 * 2 ^ (attempt - 1)) 300.

(** The steps of [exponentialBackoff] after the cap. *)
Definition withJitter (minutes u : Q) : Z :=
  let jitter :=
    float64.mul (float64.mul minutes (float64.const (20 # 100)))
      (float64.sub (float64.mul 2 u) 1) in
  let minutes := float64.add minutes jitter in
  let minutes := if Qle_bool 1 minutes then minutes else 1%Q in
  float64.toInt (float64.mul minutes (inject_Z gotime.Minute)).

(** The comparisons of rounded constants that the bound for [m] minutes
    rests on. *)
Definition jitterFacts (m : Z) : bool :=
  let a := float64.mul (inject_Z m) (float64.const (20 # 100)) in
  let lo := inject_Z (4 * m / 5) in
  let hi := inject_Z (6 * m / 5) in
  Qle_bool 0 (float64.round 0) && Qle_bool (float64.round 2) 2
  && Qle_bool (- (1)) (float64.round (- (1)))
  && Qle_bool (float64.round 1) 1
  && Qle_bool 0 a
  && Qle_bool (- a) (float64.round (- a)) && Qle_bool (float64.round a) a
  && Qle_bool lo (float64.round (inject_Z m - a))
  && Qle_bool (float64.round (inject_Z m + a)) hi
  && Qle_bool 1 lo
  && Qle_bool (inject_Z (48000000000 * m))
       (float64.round (lo * inject_Z gotime.Minute))
  && Qle_bool (float64.round (hi * inject_Z gotime.Minute))
       (inject_Z (72000000000 * m))
  && (0 <=? m).

(** ** Vocabulary of the further properties *)

(** The last byte of a string. *)
Fixpoint lastByte (s : string) : option ascii :=
  match s with
  | EmptyString => None
  | String c EmptyString => Some c
  | String _ r => lastByte r
  end.

Definition dash : ascii := "-"%char.

(** The builder of [Slugify], as [slugLoop] holds it (in reverse): only
    id bytes, no dash written first, no dash written after a dash. *)
Definition slugAcc (acc : list ascii) : Prop :=
  Forall (fun c => isIDByte c = true) acc
  /\ (forall l c, acc = l ++ [c] -> isAlnumLower c = true)
  /\ (forall l1 l2, acc <> l1 ++ dash :: dash :: l2).

(** The shape of a slug. *)
Definition slugShape (s : string) : Prop :=
  allBytes isIDByte s = true
  /\ GoStrings.HasPrefix s "-" = false
  /\ GoStrings.Contains s "--" = false.

(** What [validateTask] lets through. *)
Definition validTask (t : Task) : Prop :=
  IsValidID (ID t) = true
  /\ GoStrings.TrimSpace (Prompt t) <> ""
  /\ GoStrings.TrimSpace (WorkingDir t) <> ""
  /\ IsAbs (WorkingDir t) = true.

(** The ways [executeTask] can end, and the one a call takes. *)
Inductive execPath :=
| BadWorkingDir
| SaveFailed
| PromptFailed
| SpawnFailed
| Interrupted
| Classified.

Definition pathOf (r : Runner) (e : ExecEnv) (task : Task) (st : TaskState)
  : execPath :=
  if negb (IsAbs (WorkingDir task)) || negb (isDir e (WorkingDir task))
  then BadWorkingDir
  else if preRunSaveFails e then SaveFailed
  else match buildPromptWithContext r e task (preRun e task st) with
       | Err _ => PromptFailed
       | Ok prompt =>
           match child e (childArgs r task (preRun e task st) prompt)
                   (WorkingDir task) with
           | Ran _ _ _ => if shuttingDown e then Interrupted else Classified
           | _ => SpawnFailed
           end
       end.

(** Every record of the state directory is stored under its own id. *)
Definition namedByID (sd : gmap string stateFile) : Prop :=
  forall k s, sd !! k = Some (StateRecord s) -> sID s = k.


(** The comparison of [CompareSemver] on parsed parts. *)
Definition cmpParts (a b : Z * Z * Z) : Z :=
  if a.1.1 <? b.1.1 then -1 else if b.1.1 <? a.1.1 then 1
  else if a.1.2 <? b.1.2 then -1 else if b.1.2 <? a.1.2 then 1
  else if a.2 <? b.2 then -1 else if b.2 <? a.2 then 1
  else 0.

(** The bytes of [v] before the first byte [c]. *)
Fixpoint before (c : ascii) (v : string) : string :=
  match v with
  | EmptyString => EmptyString
  | String x r => if Ascii.eqb x c then EmptyString else String x (before c r)
  end.

(** The two rows of the compatibility table. *)
Definition entry2x : compat.CompatEntry :=
  compat.mkEntry "2.0.0" "2.99.99" true true 75.

Definition entry1x : compat.CompatEntry :=
  compat.mkEntry "1.0.0" "1.99.99" false false (-1).

(** [f] holds at the [n] integers from [z] on. *)
Fixpoint allFrom (f : Z -> bool) (n : nat) (z : Z) : bool :=
  match n with
  | O => true
  | S n' => f z && allFrom f n' (z + 1)
  end.

(** The year of the era and the shifted month of the day [doe] of a
    400-year era, as [civilFromDays] computes them. *)
Definition yoeOf (doe : Z) : Z :=
  (doe - doe / 1460 + doe / 36524 - doe / 146096) / 365.

Definition mpOf (doe : Z) : Z :=
  let yoe := yoeOf doe in
  let doy := doe - (365 * yoe + yoe / 4 - yoe / 100) in
  (5 * doy + 2) / 153.

Definition eraDayOK (doe : Z) : bool :=
  (0 <=? yoeOf doe) && (yoeOf doe <=? 399)
  && (0 <=? mpOf doe) && (mpOf doe <=? 11).


(** The resume time of a task, when its state has one. *)
Definition resumeOf (states : gmap string TaskState) (t : Task) : option Z :=
  st ← states !! ID t; ResumeAt st.

Lemma targetSet_lookup l t :
  default false (targetSet l !! t) = bool_decide (t ∈ l).
Proof.
  unfold targetSet. induction l as [|x l IH]; [done|].
  rewrite fmap_cons, list_to_map_cons, lookup_insert.
  destruct (decide (x = t)) as [->|Hne]; simpl.
  - symmetry. apply bool_decide_eq_true. left.
  - rewrite IH. apply bool_decide_ext. rewrite elem_of_cons. naive_solver.
Qed.

Lemma lookup_rows (rows : list (string * list string)) from to :
  NoDup rows.*1 ->
  match (list_to_map (prod_map id targetSet <$> rows)
           : gmap string (gmap string bool)) !! from with
  | None => false
  | Some targets => default false (targets !! to)
  end = true <-> exists l, (from, l) ∈ rows /\ to ∈ l.
Proof.
  intros Hnd. destruct (_ !! from) as [targets|] eqn:E.
  - apply elem_of_list_to_map in E.
    2:{ rewrite <- list_fmap_compose.
        erewrite list_fmap_ext; [exact Hnd|]. by intros ? [] ?. }
    apply list_elem_of_fmap in E as ([f l] & [= -> ->] & Hin). simpl.
    rewrite targetSet_lookup, bool_decide_eq_true. split; [eauto|].
    intros (l' & Hin' & Hto).
    assert (l' = l) as ->; [|done].
    clear Hto. induction rows as [|[a b] rows IH]; [by apply elem_of_nil in Hin|].
    apply NoDup_cons in Hnd as [Hna Hnd].
    apply elem_of_cons in Hin as [Hin|Hin]; apply elem_of_cons in Hin' as [Hin'|Hin'].
    + congruence.
    + injection Hin as -> ->. destruct Hna. apply list_elem_of_fmap. by exists (a, l').
    + injection Hin' as -> ->. destruct Hna. apply list_elem_of_fmap. by exists (a, l).
    + eauto.
  - split; [done|]. intros (l & Hin & _).
    apply not_elem_of_list_to_map in E. destruct E.
    rewrite <- list_fmap_compose. apply list_elem_of_fmap. by exists (from, l).
Qed.

Lemma ValidTransition_table from to :
  ValidTransition from to = true <-> (from, to) ∈ transitionTable.
Proof.
  split.
  - unfold ValidTransition, validTransitions. rewrite lookup_rows.
    2:{ apply (bool_decide_unpack _). vm_compute. exact I. }
    intros (l & Hin & Hto).
    assert (Forall (fun r => Forall (fun t => (r.1, t) ∈ transitionTable) r.2)
              transitionRows) as Hall.
    { repeat constructor; apply (bool_decide_unpack _); vm_compute; exact I. }
    rewrite Forall_forall in Hall. specialize (Hall _ Hin).
    rewrite Forall_forall in Hall. exact (Hall _ Hto).
  - assert (Forall (fun p => ValidTransition p.1 p.2 = true) transitionTable)
      as Hall by (repeat constructor).
    rewrite Forall_forall in Hall. intros Hin. exact (Hall _ Hin).
Qed.

Lemma applyOutcome_table e task s res :
  let backoff := nowBackoff e + exponentialBackoff (Attempt s) (jitter e) in
  let s' := applyOutcome e task s res in
  match detector.Result res with
  | detector.Completed => Status s' = StatusDone
  | detector.RateLimited =>
      Status s' = StatusWaiting /\
      ResumeAt s' = Some (default backoff (detector.ResetTime res))
  | detector.Failed =>
      if Attempt s <? MaxRetries task
      then Status s' = StatusWaiting /\ ResumeAt s' = Some backoff
      else Status s' = StatusFailed
  | detector.Unknown =>
      if Attempt s <? 2
      then Status s' = StatusWaiting /\ ResumeAt s' = Some backoff
      else Status s' = StatusFailed
  end.
Proof.
  unfold applyOutcome. 
  destruct (detector.Result res).
  - destruct (_ <? 2); done.
  - done.
  - destruct (detector.ResetTime res); done.
  - destruct (_ <? MaxRetries task); done.
Qed.

Lemma executeTask_ran r e task st prompt lines stderrStr wait :
  IsAbs (WorkingDir task) = true ->
  isDir e (WorkingDir task) = true ->
  preRunSaveFails e = false ->
  buildPromptWithContext r e task (preRun e task st) = Ok prompt ->
  child e (childArgs r task (preRun e task st) prompt) (WorkingDir task)
    = Ran lines stderrStr wait ->
  let scan :=
    scanLines e (compat.SupportsStreamJSON (Adapter r)) lines "" []
      (SessionID (preRun e task st)) in
  let s :=
    setLastNDJSONMessages (setSessionID (preRun e task st) scan.2) scan.1.2 in
  executeTask r e task st =
    if shuttingDown e
    then (ExitSignal, shutdownRestore s, [preRun e task st; shutdownRestore s])
    else
      let s' :=
        setEndedAt
          (applyOutcome e task s
             (detector.Detect (host e) (Detector r) (exitCodeOf wait)
                scan.1.1 stderrStr))
          (Some (nowEnd e)) in
      (ExitOK, s', [preRun e task st; s']).
Proof.
  intros Habs Hdir Hsave Hprompt Hchild. cbv zeta.
  unfold executeTask. rewrite Habs, Hdir, Hsave, Hprompt, Hchild.
  destruct (scanLines _ _ _ _ _ _) as [[stdoutStr lastLines] sid].
  reflexivity.
Qed.

Lemma preRun_SessionID e task st : SessionID (preRun e task st) = SessionID st.
Proof. reflexivity. Qed.
Lemma preRun_Attempt e task st : Attempt (preRun e task st) = wrap64 (Attempt st + 1).
Proof. reflexivity. Qed.
Lemma preRun_Status e task st : Status (preRun e task st) = StatusRunning.
Proof. reflexivity. Qed.

(** C2: when the child has run and no shutdown is pending, [executeTask]
    leaves (and saves last) the state the outcome table prescribes for the
    detector's result and the attempt just counted. *)
Theorem outcome_handling r e task st prompt lines stderrStr wait :
  IsAbs (WorkingDir task) = true ->
  isDir e (WorkingDir task) = true ->
  preRunSaveFails e = false ->
  buildPromptWithContext r e task (preRun e task st) = Ok prompt ->
  child e (childArgs r task (preRun e task st) prompt) (WorkingDir task)
    = Ran lines stderrStr wait ->
  shuttingDown e = false ->
  let attempt := wrap64 (Attempt st + 1) in
  let stdoutStr :=
    (scanLines e (compat.SupportsStreamJSON (Adapter r)) lines "" []
       (SessionID st)).1.1 in
  let res :=
    detector.Detect (host e) (Detector r) (exitCodeOf wait) stdoutStr
      stderrStr in
  let backoff := nowBackoff e + exponentialBackoff attempt (jitter e) in
  let st' := (executeTask r e task st).1.2 in
  last (executeTask r e task st).2 = Some st' /\
  match detector.Result res with
  | detector.Completed => Status st' = StatusDone
  | detector.RateLimited =>
      Status st' = StatusWaiting /\
      ResumeAt st' = Some (default backoff (detector.ResetTime res))
  | detector.Failed =>
      if attempt <? MaxRetries task
      then Status st' = StatusWaiting /\ ResumeAt st' = Some backoff
      else Status st' = StatusFailed
  | detector.Unknown =>
      if attempt <? 2
      then Status st' = StatusWaiting /\ ResumeAt st' = Some backoff
      else Status st' = StatusFailed
  end.
Proof.
  intros Habs Hdir Hsave Hprompt Hchild Hdown. intros attempt stdoutStr res backoff.
  rewrite (executeTask_ran r e task st prompt lines stderrStr wait) by assumption.
  rewrite Hdown, preRun_SessionID. cbv zeta.
  split; [reflexivity|].
  set (s := setLastNDJSONMessages _ _).
  pose proof (applyOutcome_table e task s res) as H. cbv zeta in H.
  subst res stdoutStr backoff attempt.
  destruct (detector.Result _).
  - destruct (_ <? 2); [destruct H; split|]; assumption.
  - exact H.
  - destruct H; split; assumption.
  - destruct (_ <? MaxRetries task); [destruct H; split|]; assumption.
Qed.

Lemma applyCommand_follows_table op st st' :
  applyCommand op st = Some st' ->
  ValidTransition (Status st) (Status st') = true \/ st' = st.
Proof.
  unfold applyCommand. intros H.
  destruct (String.eqb op "retry").
  - injection H as <-.
    destruct (_ || _); [|by right].
    destruct (ValidTransition _ StatusPending) eqn:E; [by left|by right].
  - destruct (String.eqb op "cancel"); [|done].
    injection H as <-.
    destruct (ValidTransition _ StatusCancelled) eqn:E; [by left|by right].
Qed.

Lemma isActionable_status now st :
  isActionable now st = true ->
  Status st = StatusPending \/ Status st = StatusWaiting.
Proof.
  unfold isActionable. intros H. apply orb_true_iff in H as [H|H].
  - left. by apply String.eqb_eq.
  - right. apply andb_true_iff in H as [H _]. by apply String.eqb_eq.
Qed.

Lemma applyOutcome_from_running e task s res :
  ValidTransition StatusRunning (Status (applyOutcome e task s res)) = true.
Proof.
  unfold applyOutcome.
  destruct (detector.Result res); [destruct (_ <? 2)| |destruct (detector.ResetTime res)|destruct (_ <? MaxRetries task)]; reflexivity.
Qed.

Lemma executeTask_follows_table r e task st now :
  IsAbs (WorkingDir task) = true ->
  isDir e (WorkingDir task) = true ->
  isActionable now st = true ->
  shuttingDown e = false ->
  followsTable (Status st) (Status <$> (executeTask r e task st).2) = true.
Proof.
  intros Habs Hdir Hact Hdown.
  assert (ValidTransition (Status st) StatusRunning = true) as Hpre.
  { apply isActionable_status in Hact as [->| ->]; reflexivity. }
  destruct (preRunSaveFails e) eqn:Hsave.
  { unfold executeTask. rewrite Habs, Hdir, Hsave. reflexivity. }
  destruct (buildPromptWithContext r e task (preRun e task st)) as [prompt|msg] eqn:Hprompt.
  2:{ unfold executeTask. rewrite Habs, Hdir, Hsave, Hprompt. simpl.
      rewrite Hpre. reflexivity. }
  destruct (child e (childArgs r task (preRun e task st) prompt) (WorkingDir task))
    as [| |lines stderrStr wait] eqn:Hchild.
  1,2: unfold executeTask; rewrite Habs, Hdir, Hsave, Hprompt, Hchild; simpl;
       rewrite Hpre; reflexivity.
  rewrite (executeTask_ran r e task st prompt lines stderrStr wait) by assumption.
  rewrite Hdown. cbv zeta. cbn [snd fmap list_fmap followsTable].
  rewrite preRun_Status, Hpre.
  change (Status (setEndedAt ?s _)) with (Status s).
  rewrite applyOutcome_from_running. reflexivity.
Qed.

Lemma executeTask_shutdown r e task st prompt lines stderrStr wait :
  IsAbs (WorkingDir task) = true ->
  isDir e (WorkingDir task) = true ->
  preRunSaveFails e = false ->
  buildPromptWithContext r e task (preRun e task st) = Ok prompt ->
  child e (childArgs r task (preRun e task st) prompt) (WorkingDir task)
    = Ran lines stderrStr wait ->
  shuttingDown e = true ->
  Status <$> (executeTask r e task st).2 = [StatusRunning; StatusPending]
  /\ Attempt (executeTask r e task st).1.2 = wrap64 (wrap64 (Attempt st + 1) - 1).
Proof.
  intros Habs Hdir Hsave Hprompt Hchild Hdown.
  rewrite (executeTask_ran r e task st prompt lines stderrStr wait) by assumption.
  rewrite Hdown. cbv zeta. split; reflexivity.
Qed.

Lemma crashRecover_running st :
  Status st = StatusRunning ->
  crashRecover st = setStatus st StatusPending.
Proof. unfold crashRecover. intros ->. reflexivity. Qed.


(** C2, witness: a first attempt whose child reports a rate limit that
    resets at 6:30 PM ends [waiting] until that time. *)
Lemma outcome_handling_witness :
  Status (executeTask sample.theRunner (sample.env sample.rateLimitedChild false)
            sample.task (implicitPending "fix-login")).1.2 = StatusWaiting
  /\ ResumeAt (executeTask sample.theRunner (sample.env sample.rateLimitedChild false)
            sample.task (implicitPending "fix-login")).1.2
     = Some ((sample.midnight + 18 * 3600 + 30 * 60) * gotime.Second).
Proof.
  pose proof (outcome_handling sample.theRunner
                (sample.env sample.rateLimitedChild false) sample.task
                (implicitPending "fix-login") "Fix the login bug"
                ["Working on it"; "Stopping"]
                "Error: Rate limit reached. Your limit will reset at 6:30 PM."
                (WaitExitError 1)
                ltac:(vm_compute; reflexivity) ltac:(vm_compute; reflexivity)
                ltac:(vm_compute; reflexivity) ltac:(vm_compute; reflexivity)
                ltac:(vm_compute; reflexivity) ltac:(vm_compute; reflexivity))
    as [_ H].
  vm_compute in H. vm_compute. exact H.
Defined.

(** C8: a retry command resets a [failed] or [cancelled] state to
    [pending] with no attempts and no resume time, keeping every other
    field (session id and last messages among them), and leaves a state of
    any other status as it is; the direct [retry] path applies the same
    reset and refuses the other statuses. *)
Theorem retry_command_frame st :
  let eligible :=
    bool_decide (Status st = StatusFailed \/ Status st = StatusCancelled) in
  applyCommand "retry" st = Some (if eligible then retryReset st else st)
  /\ forall (stateDir : gmap string stateFile) taskID requestedAt,
       stateDir !! taskID = Some (StateRecord st) ->
       applyCommands [mkCommand "retry" taskID requestedAt] stateDir
         = SaveState stateDir (if eligible then retryReset st else st)
       /\ match runRetryDirect stateDir taskID with
          | Ok stateDir' =>
              eligible = true /\ stateDir' = SaveState stateDir (retryReset st)
          | Err _ => eligible = false
          end.
Proof.
  cbv zeta.
  assert (applyCommand "retry" st =
          Some (if bool_decide (Status st = StatusFailed \/ Status st = StatusCancelled)
                then retryReset st else st)) as Happ.
  { unfold applyCommand. change (String.eqb "retry" "retry") with true. cbv iota.
    destruct (String.eqb_spec (Status st) StatusFailed) as [Hf|Hf].
    - rewrite bool_decide_eq_true_2 by (by left). rewrite Hf. reflexivity.
    - destruct (String.eqb_spec (Status st) StatusCancelled) as [Hc|Hc].
      + rewrite bool_decide_eq_true_2 by (by right). rewrite Hc. reflexivity.
      + rewrite bool_decide_eq_false_2 by tauto. reflexivity. }
  split; [exact Happ|].
  intros stateDir taskID requestedAt Hfile. split.
  - cbn [applyCommands TaskID Op]. unfold LoadState. rewrite Hfile.
    cbn [default from_option id]. rewrite Happ. reflexivity.
  - unfold runRetryDirect, LoadState. rewrite Hfile. cbn [wrapErr].
    destruct (String.eqb_spec (Status st) StatusFailed) as [Hf|Hf].
    + rewrite bool_decide_eq_true_2 by (by left). cbn [negb andb]. done.
    + destruct (String.eqb_spec (Status st) StatusCancelled) as [Hc|Hc].
      * rewrite bool_decide_eq_true_2 by (by right). cbn [negb andb]. done.
      * rewrite bool_decide_eq_false_2 by tauto. cbn [negb andb]. done.
Qed.

(** C1, counterexample: crash recovery moves a [running] state to
    [pending], a pair the table does not hold, and changes the state. *)
Lemma crash_recovery_outside_table :
  ~ (forall st,
       ValidTransition (Status st) (Status (crashRecover st)) = true
       \/ crashRecover st = st).
Proof.
  intros H. destruct (H sample.runningState) as [E|E]; vm_compute in E; discriminate E.
Qed.

(** C1, amended: [ValidTransition] accepts exactly the pairs of the table;
    a control command changes the status along a pair of the table or
    leaves the state unchanged; the states [executeTask] saves for an
    actionable task with a valid working directory, run to the end without
    shutdown, follow the table; the restore on shutdown and crash recovery
    move [running] to [pending], which the table does not hold. *)
Theorem status_mutations_amended :
  (forall from to,
     ValidTransition from to = true <-> (from, to) ∈ transitionTable)
  /\ (forall op st st',
        applyCommand op st = Some st' ->
        ValidTransition (Status st) (Status st') = true \/ st' = st)
  /\ (forall r e task st now,
        IsAbs (WorkingDir task) = true ->
        isDir e (WorkingDir task) = true ->
        isActionable now st = true ->
        shuttingDown e = false ->
        followsTable (Status st) (Status <$> (executeTask r e task st).2) = true)
  /\ (forall r e task st prompt lines stderrStr wait,
        IsAbs (WorkingDir task) = true ->
        isDir e (WorkingDir task) = true ->
        preRunSaveFails e = false ->
        buildPromptWithContext r e task (preRun e task st) = Ok prompt ->
        child e (childArgs r task (preRun e task st) prompt) (WorkingDir task)
          = Ran lines stderrStr wait ->
        shuttingDown e = true ->
        Status <$> (executeTask r e task st).2 = [StatusRunning; StatusPending])
  /\ (forall st,
        Status st = StatusRunning ->
        Status (crashRecover st) = StatusPending)
  /\ ValidTransition StatusRunning StatusPending = false.
Proof.
  split; [exact ValidTransition_table|].
  split; [exact applyCommand_follows_table|].
  split; [exact executeTask_follows_table|].
  split.
  { intros r e task st prompt lines stderrStr wait H1 H2 H3 H4 H5 H6.
    exact (proj1 (executeTask_shutdown r e task st prompt lines stderrStr wait
                    H1 H2 H3 H4 H5 H6)). }
  split; [|reflexivity].
  intros st H. rewrite (crashRecover_running st H). reflexivity.
Qed.

Lemma HasPrefix_spec s p :
  GoStrings.HasPrefix s p = true <-> exists post, s = p +:+ post.
Proof.
  revert s. induction p as [|b p IH]; intros s; simpl.
  - destruct s; (split; [intros _; by eexists|done]).
  - destruct s as [|a s]; simpl.
    + split; [done|]. intros [post H]. discriminate H.
    + rewrite andb_true_iff, IH. split.
      * intros [Hab [post ->]]. apply Ascii.eqb_eq in Hab as ->. by exists post.
      * intros [post H]. injection H as -> ->. split; [apply Ascii.eqb_refl|by exists post].
Qed.

Lemma Contains_spec s sub :
  GoStrings.Contains s sub = true <-> exists pre post, s = pre +:+ sub +:+ post.
Proof.
  induction s as [|a s IH]; cbn [GoStrings.Contains].
  - rewrite orb_false_r, HasPrefix_spec. split.
    + intros [post H]. by exists "", post.
    + intros (pre & post & H). destruct pre; [by exists post|discriminate H].
  - rewrite orb_true_iff, HasPrefix_spec, IH. split.
    + intros [[post H]|(pre & post & ->)].
      * by exists "", post.
      * by exists (String a pre), post.
    + intros (pre & post & H). destruct pre as [|c pre].
      * left. by exists post.
      * right. injection H as -> ->. by exists pre, post.
Qed.

Lemma ciOccurs_Contains text p :
  ciOccurs text p <->
  GoStrings.Contains (GoStrings.ToLower text) (GoStrings.ToLower p) = true.
Proof. unfold ciOccurs. by rewrite Contains_spec. Qed.

Global Instance ciOccurs_dec text p : Decision (ciOccurs text p).
Proof.
  destruct (GoStrings.Contains (GoStrings.ToLower text) (GoStrings.ToLower p)) eqn:E.
  - left. by apply ciOccurs_Contains.
  - right. rewrite ciOccurs_Contains, E. discriminate.
Defined.



Example Detect_exit0_dominates :
  detector.Result
    (detector.Detect (sample.hostUTC 0) (detector.NewDetector ["rate limit"] 75)
       0 "Rate Limit reached" "rate limit") = detector.Completed.
Proof. vm_compute. reflexivity. Qed.
Example Detect_stderr_pattern :
  detector.Detect (sample.hostUTC ((sample.midnight+3600)*gotime.Second)) (detector.NewDetector ["rate limit"] 75)
       1 "ok" "Error: Rate Limit reached; will reset at 6pm."
  = detector.mkResult detector.RateLimited (Some ((sample.midnight+18*3600)*gotime.Second)) "stderr matched pattern: rate limit".
Proof. vm_compute. reflexivity. Qed.

Lemma adjacent_cons x y a l :
  adjacent x y (a :: l) <-> (a = x /\ head l = Some y) \/ adjacent x y l.
Proof.
  split.
  - intros ([|b pre] & post & H); simplify_eq/=; [by left|].
    right. by exists pre, post.
  - intros [[-> H]|(pre & post & ->)].
    + destruct l as [|b l]; simplify_eq/=. by exists [], l.
    + by exists (a :: pre), post.
Qed.

Lemma adjacent_nil x y : ~ adjacent x y [].
Proof. intros ([|] & ? & H); discriminate H. Qed.

Lemma adjacent_not_in x y l : x ∉ l -> ~ adjacent x y l.
Proof.
  intros Hx (pre & post & ->). apply Hx.
  rewrite elem_of_app, elem_of_cons. tauto.
Qed.

Lemma adjacent_front x y l z : x ∉ l -> ~ adjacent x y (l ++ [z]).
Proof.
  induction l as [|a l IH]; intros Hx; simpl.
  - rewrite adjacent_cons. intros [[_ H]|H]; [discriminate H|by apply adjacent_nil in H].
  - rewrite adjacent_cons. apply not_elem_of_cons in Hx as [Hne Hx].
    intros [[-> _]|H]; [done|]. by apply IH.
Qed.

Lemma BuildArgs_split a prompt model sessionID skipPerms extraFlags :
  compat.BuildArgs a prompt model sessionID skipPerms extraFlags =
  "--print" :: ownArgs a model sessionID skipPerms ++ extraFlags ++ ["--"; prompt].
Proof.
  unfold ownArgs.
  destruct a as [[mn mx sj rf rc]|]; simpl;
    repeat match goal with |- context [if ?b then _ else _] => destruct b end;
    simpl; rewrite <- ?app_assoc; reflexivity.
Qed.

Lemma ownArgs_resume a model sessionID skipPerms :
  compat.SupportsResume a = true -> sessionID <> "" ->
  exists pre post,
    ownArgs a model sessionID skipPerms = pre ++ "--resume" :: sessionID :: post.
Proof.
  intros Hr Hs. unfold ownArgs. rewrite Hr.
  apply String.eqb_neq in Hs. rewrite Hs. cbn [negb andb].
  eexists _, _. cbn [app]. reflexivity.
Qed.

Lemma ownArgs_no_resume a model sessionID skipPerms :
  ~ (compat.SupportsResume a = true /\ sessionID <> "") ->
  model <> "--resume" ->
  "--resume" ∉ ownArgs a model sessionID skipPerms.
Proof.
  intros Hno Hm. unfold ownArgs.
  assert (compat.SupportsResume a && negb (String.eqb sessionID "") = false) as ->.
  { destruct (compat.SupportsResume a); [|done].
    destruct (String.eqb_spec sessionID ""); [done|]. destruct Hno. done. }
  rewrite !elem_of_app.
  destruct (compat.SupportsStreamJSON a), (negb (String.eqb model "")), skipPerms;
    rewrite ?elem_of_cons, ?elem_of_nil; intros H;
    repeat (destruct H as [H|H]); try done; try discriminate H; by subst.
Qed.

Lemma ownArgs_skip a model sessionID skipPerms :
  model <> "--dangerously-skip-permissions" ->
  sessionID <> "--dangerously-skip-permissions" ->
  "--dangerously-skip-permissions" ∈ ownArgs a model sessionID skipPerms
  <-> skipPerms = true.
Proof.
  intros Hm Hs. unfold ownArgs. rewrite !elem_of_app.
  destruct (compat.SupportsStreamJSON a),
    (compat.SupportsResume a && negb (String.eqb sessionID "")),
    (negb (String.eqb model "")), skipPerms;
    rewrite ?elem_of_cons, ?elem_of_nil; split; try done; try tauto; intros H;
    repeat (destruct H as [H|H]); try done; try discriminate H; by subst.
Qed.

(** C9, amended: the argument list begins with [--print], ends with [--]
    and the prompt, and lists between them the adapter's own flags and
    then the extra flags unchanged.  When neither the model nor an extra
    flag is [--resume], the list holds [--resume] followed by the session
    id exactly when the adapter supports resume and the session id is not
    empty.  When none of the model, the session id, the prompt and the
    extra flags is [--dangerously-skip-permissions], the list holds that
    flag exactly when skip-permissions is enabled. *)
Theorem BuildArgs_shape a prompt model sessionID skipPerms extraFlags :
  let args := compat.BuildArgs a prompt model sessionID skipPerms extraFlags in
  head args = Some "--print"
  /\ (exists flags, args = flags ++ ["--"; prompt])
  /\ (exists own, args = "--print" :: own ++ extraFlags ++ ["--"; prompt])
  /\ (model <> "--resume" -> "--resume" ∉ extraFlags ->
      (adjacent "--resume" sessionID args
       <-> compat.SupportsResume a = true /\ sessionID <> ""))
  /\ ("--dangerously-skip-permissions" ∉ model :: sessionID :: prompt :: extraFlags ->
      ("--dangerously-skip-permissions" ∈ args <-> skipPerms = true)).
Proof.
  cbv zeta. rewrite BuildArgs_split.
  split; [reflexivity|].
  split.
  { exists ("--print" :: ownArgs a model sessionID skipPerms ++ extraFlags).
    cbn [app]. by rewrite <- app_assoc. }
  split; [by eexists|].
  split.
  - intros Hm Hx. split.
    + intros Hadj.
      destruct (decide (compat.SupportsResume a = true /\ sessionID <> ""))
        as [Hyes|Hno]; [exact Hyes|].
      exfalso. revert Hadj.
      change ("--print" :: ownArgs a model sessionID skipPerms ++ extraFlags ++ ["--"; prompt])
        with (("--print" :: ownArgs a model sessionID skipPerms) ++ extraFlags ++ ["--"] ++ [prompt]).
      rewrite !app_assoc. apply adjacent_front.
      rewrite !elem_of_app, elem_of_cons, !elem_of_cons, elem_of_nil.
      pose proof (ownArgs_no_resume a model sessionID skipPerms Hno Hm).
      intros [[[H1|H1]|H1]|[H1|H1]]; try done; discriminate H1.
    + intros [Hr Hs].
      destruct (ownArgs_resume a model sessionID skipPerms Hr Hs) as (pre & post & ->).
      exists ("--print" :: pre), (post ++ extraFlags ++ ["--"; prompt]).
      cbn [app]. by rewrite <- app_assoc.
  - intros Hnot.
    apply not_elem_of_cons in Hnot as [Hm Hnot].
    apply not_elem_of_cons in Hnot as [Hs Hnot].
    apply not_elem_of_cons in Hnot as [Hp Hx].
    rewrite <- (ownArgs_skip a model sessionID skipPerms) by done.
    rewrite elem_of_cons, !elem_of_app, !elem_of_cons, elem_of_nil.
    split; [|tauto].
    intros [H|[H|[H|[H|[H|H]]]]]; try done; discriminate H.
Qed.

(** C9, counterexample: an extra flag [--dangerously-skip-permissions] is
    passed through, so the list holds the flag although skip-permissions
    is disabled. *)
Lemma BuildArgs_extra_flag_counterexample :
  ~ (forall a prompt model sessionID skipPerms extraFlags,
       "--dangerously-skip-permissions"
         ∈ compat.BuildArgs a prompt model sessionID skipPerms extraFlags
       <-> skipPerms = true).
Proof.
  intros H.
  specialize (H compat.safeAdapter "do X" "" "" false ["--dangerously-skip-permissions"]).
  assert (false = true) as E; [|discriminate E].
  apply H. cbn. rewrite !elem_of_cons. tauto.
Qed.

(** The last two steps of [applyDefaults]: a zero priority becomes 10 and
    a zero retry budget becomes 5. *)
Lemma defaults_tail t2 :
  let t3 := if Priority t2 =? 0 then setPriority t2 10 else t2 in
  let t4 := if MaxRetries t3 =? 0 then setMaxRetries t3 5 else t3 in
  Priority t4 = (if Priority t2 =? 0 then 10 else Priority t2)
  /\ MaxRetries t4 = (if MaxRetries t2 =? 0 then 5 else MaxRetries t2).
Proof.
  cbv zeta. destruct (Priority t2 =? 0) eqn:Hp.
  - change (MaxRetries (setPriority t2 10)) with (MaxRetries t2).
    destruct (MaxRetries t2 =? 0); done.
  - destruct (MaxRetries t2 =? 0); rewrite ?Hp; done.
Qed.

Lemma applyDefaults_fields t rnd t' :
  applyDefaults t rnd = Ok t' ->
  Priority t' = (if Priority t =? 0 then 10 else Priority t)
  /\ MaxRetries t' = (if MaxRetries t =? 0 then 5 else MaxRetries t).
Proof.
  unfold applyDefaults.
  set (t1 := if _ && _ then _ else t).
  assert (Priority t1 = Priority t /\ MaxRetries t1 = MaxRetries t) as [Hp Hm].
  { subst t1. destruct (_ && _); done. }
  destruct (String.eqb (ID t1) "") eqn:Hid.
  - destruct (String.eqb (Title t1) ""); [done|].
    cbn [mbind result_bind]. intros [= <-].
    rewrite <- Hp, <- Hm. apply (defaults_tail (setID t1 _)).
  - cbn [mbind result_bind]. intros [= <-].
    rewrite <- Hp, <- Hm. apply defaults_tail.
Qed.

Lemma applyDefaults_defaulted t rnd t' :
  applyDefaults t rnd = Ok t' -> defaulted t'.
Proof.
  intros H. apply applyDefaults_fields in H as [Hp Hm]. unfold defaulted.
  rewrite Hp, Hm.
  destruct (Z.eqb_spec (Priority t) 0), (Z.eqb_spec (MaxRetries t) 0); lia.
Qed.

Lemma wrapErr_Ok {A} prefix (r : result A) a :
  wrapErr prefix r = Ok a -> r = Ok a.
Proof. destruct r; [done|discriminate]. Qed.

Lemma parseDocs_defaulted docs i n source rnd tasks :
  parseDocs docs i n source rnd = Ok tasks -> Forall defaulted tasks.
Proof.
  revert i tasks. induction docs as [|d docs IH]; intros i tasks; cbn [parseDocs].
  - intros [= <-]. constructor.
  - destruct d as [|msg|y]; [apply IH|discriminate|].
    destruct (wrapErr _ (applyDefaults _ _)) as [t|] eqn:Hd; [|discriminate].
    cbn [mbind result_bind].
    destruct (wrapErr _ (validateTask t)) as [[]|]; [|discriminate].
    cbn [mbind result_bind].
    destruct (parseDocs docs (S i) n source rnd) as [ts|] eqn:Hrest; [|discriminate].
    cbn [mbind result_bind]. intros [= <-].
    constructor; [|by eapply IH].
    apply wrapErr_Ok in Hd. by eapply applyDefaults_defaulted.
Qed.

Lemma loadTaskSourceGroup_defaulted files tasks :
  loadTaskSourceGroup files = Ok tasks -> Forall defaulted tasks.
Proof.
  revert tasks. induction files as [|f files IH]; intros tasks; cbn [loadTaskSourceGroup].
  - intros [= <-]. constructor.
  - destruct (wrapErr _ (ParseMultiDocYAML _ _ _)) as [ts|] eqn:Hp; [|discriminate].
    cbn [mbind result_bind].
    destruct (loadTaskSourceGroup files) as [more|]; [|discriminate].
    cbn [mbind result_bind]. intros [= <-].
    apply Forall_app. split; [|by apply IH].
    apply wrapErr_Ok in Hp. by eapply parseDocs_defaulted.
Qed.

Lemma loadAllSources_defaulted gd gf pd pf tasks :
  loadAllSources gd gf pd pf = Ok tasks -> Forall defaulted tasks.
Proof.
  unfold loadAllSources.
  destruct (wrapErr _ (loadTaskSourceGroup gf)) as [ts|] eqn:Hg; [|discriminate].
  cbn [mbind result_bind]. apply wrapErr_Ok, loadTaskSourceGroup_defaulted in Hg.
  destruct pf as [files|]; [|by intros [= <-]].
  destruct (wrapErr _ (loadTaskSourceGroup files)) as [more|] eqn:Hp; [|discriminate].
  cbn [mbind result_bind]. intros [= <-].
  apply wrapErr_Ok, loadTaskSourceGroup_defaulted in Hp.
  apply Forall_app. done.
Qed.

Lemma EnsureInit_same sd t now created t' sd' :
  EnsureInit sd t now = (Ok (created, t'), sd') -> sameButCreatedAt t t'.
Proof.
  unfold EnsureInit, sameButCreatedAt.
  set (t1 := if _ =? _ then _ else t).
  assert (t1 = setCreatedAt t (CreatedAt t1)) as H1.
  { subst t1. destruct (_ =? _); [done|by destruct t]. }
  assert (ID t1 = ID t) as Hid by (subst t1; by destruct (_ =? _)).
  destruct (sd !! ID t1) as [[existing|msg]|]; intros [= <- <- <-].
  - rewrite H1. reflexivity.
  - exact H1.
Qed.

Lemma ensureAll_same sd tasks i clock n tasks' n' sd' :
  ensureAll sd tasks i clock n = (Ok (tasks', n'), sd') ->
  Forall2 sameButCreatedAt tasks tasks'.
Proof.
  revert sd i n tasks' n' sd'.
  induction tasks as [|t tasks IH]; intros sd i n tasks' n' sd'; cbn [ensureAll].
  - intros [= <- <- <-]. constructor.
  - destruct (EnsureInit sd t (clock i)) as [[[created t']|e] sd1] eqn:He; [|discriminate].
    destruct (ensureAll sd1 tasks (S i) clock _) as [[[ts m]|e] sd2] eqn:Hr; [|discriminate].
    intros [= <- <- <-]. constructor; [by eapply EnsureInit_same|by eapply IH].
Qed.

Lemma sameButCreatedAt_fields l l' :
  Forall2 sameButCreatedAt l l' ->
  ID <$> l' = ID <$> l /\ Source <$> l' = Source <$> l
  /\ (Forall defaulted l -> Forall defaulted l').
Proof.
  induction 1 as [|t t' l l' Ht Hl (IH1 & IH2 & IH3)]; [done|].
  rewrite !fmap_cons, IH1, IH2. unfold sameButCreatedAt in Ht.
  rewrite Ht. split; [done|]. split; [done|].
  rewrite !Forall_cons. intros [Hd Hl']. split; [exact Hd|by apply IH3].
Qed.

Lemma findDuplicate_gen prior tasks (seen : gmap string string) :
  NoDup (ID <$> prior) ->
  (forall id src,
     seen !! id = Some src <-> exists t, t ∈ prior /\ ID t = id /\ Source t = src) ->
  match findDuplicate tasks seen with
  | Ok _ => NoDup (ID <$> (prior ++ tasks))
  | Err msg =>
      exists t1 t2,
        firstDuplicate (prior ++ tasks) t1 t2 /\ msg = duplicateMessage t1 t2
  end.
Proof.
  revert prior seen. induction tasks as [|t tasks IH]; intros prior seen Hnd Hseen.
  - cbn [findDuplicate]. by rewrite app_nil_r.
  - cbn [findDuplicate]. destruct (seen !! ID t) as [prev|] eqn:Hlk.
    + apply Hseen in Hlk as (t1 & Hin & Hid & Hsrc).
      apply list_elem_of_split in Hin as (pre & mid & ->).
      exists t1, t. split; [|by rewrite <- Hsrc].
      exists pre, mid, tasks. split; [by rewrite <- app_assoc|]. done.
    + specialize (IH (prior ++ [t]) (<[ID t := Source t]> seen)).
      rewrite <- app_assoc in IH. apply IH.
      * rewrite fmap_app. apply NoDup_app. split; [done|]. split.
        -- intros id Hin Hin'. apply list_elem_of_fmap in Hin as (t1 & -> & Hin).
           apply list_elem_of_fmap in Hin' as (t' & Hid & Hin').
           apply list_elem_of_singleton in Hin' as ->.
           assert (seen !! ID t = Some (Source t1)) as E.
           { apply Hseen. exists t1. by rewrite Hid. }
           congruence.
        -- apply NoDup_singleton.
      * intros id src. rewrite lookup_insert. split.
        -- destruct (decide (ID t = id)) as [<-|Hne].
           ++ intros [= <-]. exists t. rewrite elem_of_app, list_elem_of_singleton. tauto.
           ++ intros H. apply Hseen in H as (t1 & Hin & Hid & Hsrc).
              exists t1. rewrite elem_of_app. tauto.
        -- intros (t1 & Hin & Hid & Hsrc).
           apply elem_of_app in Hin as [Hin|Hin].
           ++ destruct (decide (ID t = id)) as [<-|Hne].
              ** assert (seen !! ID t = Some src) as E by (apply Hseen; eauto).
                 congruence.
              ** apply Hseen. eauto.
           ++ apply list_elem_of_singleton in Hin as ->.
              rewrite Hid, Hsrc. by rewrite decide_True.
Qed.

Lemma findDuplicate_spec tasks :
  match findDuplicate tasks ∅ with
  | Ok _ => NoDup (ID <$> tasks)
  | Err msg =>
      exists t1 t2, firstDuplicate tasks t1 t2 /\ msg = duplicateMessage t1 t2
  end.
Proof.
  apply (findDuplicate_gen [] tasks ∅); [constructor|].
  intros id src. rewrite lookup_empty. split; [done|].
  intros (t & Hin & _). by apply elem_of_nil in Hin.
Qed.

Lemma firstDuplicate_not_NoDup tasks t1 t2 :
  firstDuplicate tasks t1 t2 -> ~ NoDup (ID <$> tasks).
Proof.
  intros (pre & mid & post & -> & Hid & _) Hnd.
  rewrite fmap_app, fmap_cons, fmap_app, fmap_cons in Hnd.
  apply NoDup_app in Hnd as (_ & _ & Hnd).
  apply NoDup_cons in Hnd as [Hnot _]. apply Hnot.
  rewrite elem_of_app, elem_of_cons. rewrite Hid. tauto.
Qed.

Lemma ltb_lt s1 s2 : String.ltb s1 s2 = true <-> String_as_OT.lt s1 s2.
Proof.
  rewrite <- String_as_OT.cmp_lt. unfold String.ltb, String_as_OT.cmp.
  destruct (String.compare s1 s2); split; congruence.
Qed.

Lemma string_lt_irrefl s : ~ String_as_OT.lt s s.
Proof. intros H. by apply String_as_OT.lt_not_eq in H. Qed.

Lemma string_lt_total s1 s2 :
  s1 <> s2 -> String_as_OT.lt s1 s2 \/ String_as_OT.lt s2 s1.
Proof.
  intros Hne. destruct (String_as_OT.compare s1 s2) as [H|H|H]; [by left|done|by right].
Qed.

Lemma taskLess_spec a b :
  taskLess a b = true <-> keyLt (sortKey a) (sortKey b).
Proof.
  unfold taskLess, keyLt, sortKey. cbn [fst snd].
  destruct (Z.eqb_spec (Priority a) (Priority b)) as [Hp|Hp]; cbn [negb].
  - destruct (Z.eqb_spec (CreatedAt a) (CreatedAt b)) as [Hc|Hc]; cbn [negb].
    + rewrite ltb_lt. split; [tauto|]. intros [H|[_ [H|[_ H]]]]; [lia|lia|done].
    + rewrite Z.ltb_lt. split; [tauto|]. intros [H|[_ [H|[H _]]]]; [lia|done|done].
  - rewrite Z.ltb_lt. split; [tauto|]. intros [H|[H _]]; [done|done].
Qed.

Global Instance keyLt_trans : Transitive keyLt.
Proof.
  intros x y z. unfold keyLt.
  intros [H1|[E1 [H1|[F1 H1]]]] [H2|[E2 [H2|[F2 H2]]]]; try (left; lia);
    try (right; split; [lia|left; lia]).
  right. split; [lia|]. right. split; [lia|].
  by eapply String_as_OT.lt_trans.
Qed.

Lemma keyLt_irrefl k : ~ keyLt k k.
Proof.
  unfold keyLt. intros [H|[_ [H|[_ H]]]]; [lia|lia|by apply string_lt_irrefl in H].
Qed.

Lemma keyLt_asym k1 k2 : keyLt k1 k2 -> ~ keyLt k2 k1.
Proof. intros H1 H2. apply (keyLt_irrefl k1). by transitivity k2. Qed.

Lemma keyLt_total k1 k2 : k1.2 <> k2.2 -> keyLt k1 k2 \/ keyLt k2 k1.
Proof.
  intros Hne. unfold keyLt.
  destruct (Z.lt_trichotomy k1.1.1 k2.1.1) as [H|[H|H]];
    [by left; left| |by right; left].
  destruct (Z.lt_trichotomy k1.1.2 k2.1.2) as [H'|[H'|H']];
    [by left; right; split; [|left]| |by right; right; split; [|left]].
  destruct (string_lt_total _ _ Hne); [left|right]; right; (split; [done|]);
    right; done.
Qed.

(** [sortSlice] permutes its input and, for a comparison that decides a
    transitive relation, returns a sorted list. *)
Section sortSlice.
Context {A : Type} (less : A -> A -> bool).

Lemma insertBy_Permutation x l : insertBy less x l ≡ₚ x :: l.
Proof.
  induction l as [|y l IH]; cbn [insertBy]; [done|].
  destruct (less y x); [|done].
  rewrite IH. apply Permutation_swap.
Qed.

Lemma sortSlice_Permutation l : sortSlice less l ≡ₚ l.
Proof.
  induction l as [|x l IH]; cbn [sortSlice]; [done|].
  by rewrite insertBy_Permutation, IH.
Qed.

Context (R : relation A) `{!Transitive R}.
Context (less_R : forall a b, less a b = true <-> R a b).

Lemma insertBy_sorted x l :
  (forall y, y ∈ l -> R x y \/ R y x) ->
  StronglySorted R l -> StronglySorted R (insertBy less x l).
Proof.
  induction l as [|y l IH]; intros Htot Hs; cbn [insertBy].
  - repeat constructor.
  - apply StronglySorted_cons in Hs as [Hy Hs].
    destruct (less y x) eqn:Hyx.
    + apply StronglySorted_cons. split.
      * rewrite insertBy_Permutation. constructor; [by apply less_R|done].
      * apply IH; [|done]. intros z Hz. apply Htot. by right.
    + assert (R x y) as Hxy.
      { destruct (Htot y) as [H|H]; [by left|done|].
        apply less_R in H. congruence. }
      apply StronglySorted_cons. split.
      * constructor; [done|]. eapply Forall_impl; [exact Hy|].
        intros z Hz. by transitivity y.
      * by apply StronglySorted_cons.
Qed.

Lemma sortSlice_sorted l :
  (forall i j x y, l !! i = Some x -> l !! j = Some y -> i <> j -> R x y \/ R y x) ->
  StronglySorted R (sortSlice less l).
Proof.
  induction l as [|x l IH]; intros Htot; cbn [sortSlice]; [constructor|].
  apply insertBy_sorted.
  - intros y Hy. rewrite sortSlice_Permutation in Hy.
    apply list_elem_of_lookup in Hy as [j Hj].
    apply (Htot 0%nat (S j)); done.
  - apply IH. intros i j a b Hi Hj Hne.
    apply (Htot (S i) (S j)); [done|done|lia].
Qed.
End sortSlice.

Lemma sortSlice_tasks_sorted tasks :
  NoDup (ID <$> tasks) ->
  StronglySorted keyLt (sortKey <$> sortSlice taskLess tasks).
Proof.
  intros Hnd.
  apply (StronglySorted_fmap _ (fun a b => keyLt (sortKey a) (sortKey b))); [done|].
  apply (sortSlice_sorted taskLess).
  - intros x y z. apply keyLt_trans.
  - apply taskLess_spec.
  - intros i j x y Hi Hj Hne. apply keyLt_total. cbn [sortKey snd].
    intros Heq. apply Hne.
    eapply NoDup_lookup; [exact Hnd| |].
    + rewrite list_lookup_fmap, Hi. reflexivity.
    + rewrite list_lookup_fmap, Hj. cbn. by rewrite Heq.
Qed.

(** Any list that meets the promise of sort.Slice is the one computed. *)
Lemma sortSlice_unique tasks sorted :
  NoDup (ID <$> tasks) ->
  sorted ≡ₚ tasks ->
  (forall i j x y, sorted !! i = Some x -> sorted !! j = Some y -> (i < j)%nat ->
        taskLess y x = false) ->
  sorted = sortSlice taskLess tasks.
Proof.
  intros Hnd Hperm Hprom.
  assert (NoDup (ID <$> sorted)) as Hnd' by (by rewrite Hperm).
  assert (StronglySorted (fun a b => keyLt (sortKey a) (sortKey b)) sorted) as Hs.
  { clear Hperm. induction sorted as [|x l IH]; [constructor|].
    apply StronglySorted_cons. split.
    - apply Forall_forall. intros y Hy. apply list_elem_of_lookup in Hy as [j Hj].
      pose proof (Hprom 0%nat (S j) x y eq_refl Hj ltac:(lia)) as Hno.
      rewrite fmap_cons in Hnd'. apply NoDup_cons in Hnd' as [Hx _].
      destruct (keyLt_total (sortKey x) (sortKey y)) as [H|H]; [|done|].
      + cbn [sortKey snd]. intros Heq. apply Hx. rewrite Heq.
        apply list_elem_of_fmap. exists y. split; [done|].
        by eapply list_elem_of_lookup_2.
      + apply taskLess_spec in H. congruence.
    - apply IH.
      + intros i j a b Hi Hj Hlt. apply (Hprom (S i) (S j)); [done|done|lia].
      + rewrite fmap_cons in Hnd'. by apply NoDup_cons in Hnd' as [_ ?]. }
  apply (StronglySorted_unique_strong (fun a b => keyLt (sortKey a) (sortKey b))).
  - intros x y _ _ H1 H2. by apply keyLt_asym in H1.
  - done.
  - apply (sortSlice_sorted taskLess).
    + intros x y z. apply keyLt_trans.
    + apply taskLess_spec.
    + intros i j x y Hi Hj Hne. apply keyLt_total. cbn [sortKey snd].
      intros Heq. apply Hne.
      eapply NoDup_lookup; [exact Hnd| |].
      * rewrite list_lookup_fmap, Hi. reflexivity.
      * rewrite list_lookup_fmap, Hj. cbn. by rewrite Heq.
  - by rewrite sortSlice_Permutation.
Qed.

Lemma LoadTasksAndInit_Ok gd gf pd pf sd clock tasks n :
  (LoadTasksAndInit gd gf pd pf sd clock).1 = Ok (tasks, n) ->
  exists all canon,
    loadAllSources gd gf pd pf = Ok all
    /\ Forall2 sameButCreatedAt all canon
    /\ NoDup (ID <$> canon)
    /\ tasks = sortSlice taskLess canon.
Proof.
  unfold LoadTasksAndInit.
  destruct (loadAllSources gd gf pd pf) as [all|] eqn:Hall; [|discriminate].
  destruct sd as [d|].
  - destruct (ensureAll d all 0 clock 0) as [[[canon m]|e] sd'] eqn:He; [|discriminate].
    pose proof (findDuplicate_spec canon) as Hdup.
    destruct (findDuplicate canon ∅); [|discriminate].
    cbn [fst]. intros [= <- <-]. exists all, canon.
    split; [done|]. split; [by eapply ensureAll_same|done].
  - cbv beta iota zeta.
    pose proof (findDuplicate_spec all) as Hdup.
    destruct (findDuplicate all ∅); [|discriminate].
    cbn [fst]. intros H. inversion H; subst. exists all, all.
    split; [done|]. split; [|done].
    apply Forall2_same_length_lookup. split; [done|].
    intros i x y Hx Hy. assert (x = y) as -> by congruence. by destruct y.
Qed.

Lemma firstDuplicate_transfer all canon t1' t2' :
  Forall2 sameButCreatedAt all canon ->
  firstDuplicate canon t1' t2' ->
  exists t1 t2,
    firstDuplicate all t1 t2 /\ duplicateMessage t1 t2 = duplicateMessage t1' t2'.
Proof.
  intros HF (pre' & mid' & post' & -> & Hid & Hnd).
  apply Forall2_app_inv_r in HF as (pre & rest & Hpre & HF & ->).
  apply Forall2_cons_inv_r in HF as (t1 & rest1 & Ht1 & HF & ->).
  apply Forall2_app_inv_r in HF as (mid & rest2 & Hmid & HF & ->).
  apply Forall2_cons_inv_r in HF as (t2 & post & Ht2 & HF & ->).
  exists t1, t2.
  assert (ID t1' = ID t1 /\ Source t1' = Source t1) as [Hi1 Hs1]
    by (rewrite Ht1; done).
  assert (ID t2' = ID t2 /\ Source t2' = Source t2) as [Hi2 Hs2]
    by (rewrite Ht2; done).
  split.
  - exists pre, mid, post. split; [done|]. split; [congruence|].
    assert (Forall2 sameButCreatedAt (pre ++ t1 :: mid) (pre' ++ t1' :: mid')) as HF'.
    { apply Forall2_app; [done|]. by constructor. }
    apply sameButCreatedAt_fields in HF' as [<- _]. done.
  - unfold duplicateMessage. by rewrite Hi2, Hs1, Hs2.
Qed.

(** C6, amended: when two loaded records share an id, [LoadTasksAndInit]
    returns an error and no task list, and a pass of the runner exits
    with the fatal code before selecting any task.  When materialising the
    init records succeeds, the message is [Duplicate task ID '<id>' found
    in <a> and <b>. Remove one.], where [<b>] is the source of the first
    record that repeats an id and [<a>] the source of the earlier record
    that holds it. *)
Theorem duplicate_ids_rejected r e d all :
  loadAllSources (globalDir e) (globalFiles e) (projectDir e) (projectFiles e)
    = Ok all ->
  ~ NoDup (ID <$> all) ->
  (forall sd,
     exists msg,
       (LoadTasksAndInit (globalDir e) (globalFiles e) (projectDir e)
          (projectFiles e) sd (initClock e)).1 = Err msg
       /\ (initOK sd all (initClock e) ->
           exists t1 t2,
             firstDuplicate all t1 t2 /\ msg = duplicateMessage t1 t2))
  /\ (shuttingDownAtStart e = false -> (runPass r e d).1 = Return ExitFatal).
Proof.
  intros Hall Hdup.
  assert (forall sd, exists msg,
       (LoadTasksAndInit (globalDir e) (globalFiles e) (projectDir e)
          (projectFiles e) sd (initClock e)).1 = Err msg
       /\ (initOK sd all (initClock e) ->
           exists t1 t2,
             firstDuplicate all t1 t2 /\ msg = duplicateMessage t1 t2)) as Hload.
  { intros sd. unfold LoadTasksAndInit. rewrite Hall.
    destruct sd as [dir|].
    - destruct (ensureAll dir all 0 (initClock e) 0) as [[[canon m]|err] sd'] eqn:He.
      + pose proof (findDuplicate_spec canon) as Hspec.
        pose proof (ensureAll_same _ _ _ _ _ _ _ _ He) as HF.
        destruct (findDuplicate canon ∅) as [u|msg].
        * destruct Hdup. apply sameButCreatedAt_fields in HF as [<- _]. done.
        * exists msg. split; [done|]. intros _.
          destruct Hspec as (t1' & t2' & Hfirst & ->).
          destruct (firstDuplicate_transfer all canon t1' t2' HF Hfirst)
            as (t1 & t2 & H1 & H2).
          exists t1, t2. done.
      + exists err. split; [done|]. cbn [initOK]. rewrite He. cbn [fst].
        intros [x Hx]. discriminate Hx.
    - cbv beta iota zeta.
      pose proof (findDuplicate_spec all) as Hspec.
      destruct (findDuplicate all ∅) as [u|msg]; [done|].
      exists msg. split; [done|]. intros _. exact Hspec. }
  split; [exact Hload|].
  intros Hdown. unfold runPass. rewrite Hdown.
  destruct (processControlCommands _ _) as [log sd].
  destruct (Hload (Some (initDir d))) as (msg & Hmsg & _).
  destruct (LoadTasksAndInit _ _ _ _ _ _) as [[[tasks n]|err] inits];
    [discriminate Hmsg|reflexivity].
Qed.

(** C7: the list a successful [LoadTasksAndInit] returns is strictly
    sorted in the lexicographic order on (priority, created_at, id), and
    two successful loads whose tasks carry the same triples return them in
    the same order, whatever their other fields, sources and clocks are. *)
Theorem load_order_lexicographic
    gd gf pd pf sd clock tasks n gd' gf' pd' pf' sd' clock' tasks' n' :
  (LoadTasksAndInit gd gf pd pf sd clock).1 = Ok (tasks, n) ->
  (LoadTasksAndInit gd' gf' pd' pf' sd' clock').1 = Ok (tasks', n') ->
  StronglySorted keyLt (sortKey <$> tasks)
  /\ (sortKey <$> tasks ≡ₚ sortKey <$> tasks' ->
      sortKey <$> tasks = sortKey <$> tasks' /\ ID <$> tasks = ID <$> tasks').
Proof.
  intros H1 H2.
  apply LoadTasksAndInit_Ok in H1 as (all1 & canon1 & _ & _ & Hnd1 & ->).
  apply LoadTasksAndInit_Ok in H2 as (all2 & canon2 & _ & _ & Hnd2 & ->).
  pose proof (sortSlice_tasks_sorted canon1 Hnd1) as Hs1.
  pose proof (sortSlice_tasks_sorted canon2 Hnd2) as Hs2.
  split; [exact Hs1|]. intros Hperm.
  assert (sortKey <$> sortSlice taskLess canon1
          = sortKey <$> sortSlice taskLess canon2) as Heq.
  { apply (StronglySorted_unique_strong keyLt); [|done..].
    intros x y _ _ Hxy Hyx. by apply keyLt_asym in Hxy. }
  split; [exact Heq|].
  apply (f_equal (fmap snd)) in Heq.
  by rewrite <- !list_fmap_compose in Heq.
Qed.

(** C10: a document that sets [priority] to 0 (or omits it) loads with
    priority 10 and sorts as such; one that sets [max_retries] to 0 (or
    omits it) loads with the budget 5, so that a failed attempt is retried
    while fewer than 5 attempts were made; and no task of a successful
    load has priority 0 or retry budget 0. *)
Theorem explicit_zero_defaulted y source rnd t :
  ParseMultiDocYAML [YTask y] source rnd = Ok [t] ->
  (y_priority y = Some 0 \/ y_priority y = None ->
   Priority t = 10 /\ (sortKey t).1.1 = 10)
  /\ (y_max_retries y = Some 0 \/ y_max_retries y = None ->
      MaxRetries t = 5
      /\ forall e s res,
           detector.Result res = detector.Failed ->
           Status (applyOutcome e t s res)
           = if Attempt s <? 5 then StatusWaiting else StatusFailed)
  /\ (forall gd gf pd pf sd clock tasks n,
        (LoadTasksAndInit gd gf pd pf sd clock).1 = Ok (tasks, n) ->
        Forall (fun t => Priority t <> 0 /\ MaxRetries t <> 0) tasks).
Proof.
  unfold ParseMultiDocYAML. cbn [parseDocs length].
  destruct (wrapErr _ (applyDefaults _ _)) as [t1|] eqn:Hd; [|discriminate].
  cbn [mbind result_bind].
  destruct (wrapErr _ (validateTask t1)) as [[]|]; [|discriminate].
  cbn [mbind result_bind]. intros [= <-].
  apply wrapErr_Ok, applyDefaults_fields in Hd as [Hp Hm].
  change (Priority (setSource ?a ?b)) with (Priority a) in Hp.
  change (MaxRetries (setSource ?a ?b)) with (MaxRetries a) in Hm.
  cbn [yamlUnmarshal Priority MaxRetries] in Hp, Hm.
  split; [|split].
  - intros Hy. assert (Priority t1 = 10) as H10.
    { rewrite Hp. destruct Hy as [-> | ->]; reflexivity. }
    split; [exact H10|exact H10].
  - intros Hy. assert (MaxRetries t1 = 5) as H5.
    { rewrite Hm. destruct Hy as [-> | ->]; reflexivity. }
    split; [exact H5|]. intros e s res Hres.
    unfold applyOutcome. rewrite Hres, H5.
    destruct (Attempt s <? 5); reflexivity.
  - intros gd gf pd pf sd clock tasks n Hload.
    apply LoadTasksAndInit_Ok in Hload as (all & canon & Hall & HF & _ & ->).
    apply loadAllSources_defaulted in Hall.
    apply sameButCreatedAt_fields in HF as (_ & _ & HF).
    specialize (HF Hall).
    rewrite Forall_forall in HF. apply Forall_forall. intros x Hx.
    apply HF. by rewrite sortSlice_Permutation in Hx.
Qed.

(** C6, witness: a global and a project file that both define [dup-id];
    the load reports the duplicate and the pass exits with the fatal
    code. *)
Lemma duplicate_ids_rejected_witness :
  (LoadTasksAndInit "/home/u/.claude-autopilot/tasks" sample.globalDup
     "/work/proj/.autopilot/tasks" (Some sample.projectDup) None
     (fun _ => (sample.midnight + 3600) * gotime.Second)).1
  = Err "Duplicate task ID 'dup-id' found in /home/u/.claude-autopilot/tasks/a.yaml and /work/proj/.autopilot/tasks/b.yaml. Remove one."
  /\ (runPass sample.theRunner
        (sample.passEnv sample.globalDup (Some sample.projectDup))
        sample.emptyDisk).1 = Return ExitFatal.
Proof.
  pose (e := sample.passEnv sample.globalDup (Some sample.projectDup)).
  assert (exists all, loadAllSources (globalDir e) (globalFiles e) (projectDir e)
             (projectFiles e) = Ok all /\ ~ NoDup (ID <$> all)) as (all & Hall & Hdup).
  { eexists. split; [vm_compute; reflexivity|].
    intros H. apply NoDup_cons in H as [H _]. apply H. left. }
  destruct (duplicate_ids_rejected sample.theRunner e sample.emptyDisk all Hall Hdup)
    as [Hload Hrun].
  split; [vm_compute; reflexivity|].
  apply Hrun. reflexivity.
Defined.

(** C6, counterexample: for the same two files the message is not the
    text that stops after the second source; it goes on with
    [. Remove one.] *)
Lemma duplicate_message_counterexample :
  (LoadTasksAndInit "/home/u/.claude-autopilot/tasks" sample.globalDup
     "/work/proj/.autopilot/tasks" (Some sample.projectDup) None
     (fun _ => (sample.midnight + 3600) * gotime.Second)).1
  <> Err ("Duplicate task ID '" +:+ "dup-id" +:+ "' found in "
          +:+ "/home/u/.claude-autopilot/tasks/a.yaml" +:+ " and "
          +:+ "/work/proj/.autopilot/tasks/b.yaml").
Proof.
  intros H. vm_compute in H. injection H as H.
  apply (f_equal String.length) in H. vm_compute in H. discriminate H.
Qed.

(** C7, witness: two files that list the same three (priority,
    created_at, id) triples in different orders and with different titles
    and prompts load in the same order. *)
Lemma load_order_lexicographic_witness :
  exists tasks n tasks' n',
    (LoadTasksAndInit "/g" sample.threeTasks "" None None (fun _ => 0)).1
    = Ok (tasks, n)
    /\ (LoadTasksAndInit "/g" sample.threeTasksAgain "" None None
          (fun _ => 0)).1 = Ok (tasks', n')
    /\ Title <$> tasks <> Title <$> tasks'
    /\ StronglySorted keyLt (sortKey <$> tasks)
    /\ ID <$> tasks = ID <$> tasks'.
Proof.
  do 4 eexists.
  split; [vm_compute; reflexivity|].
  split; [vm_compute; reflexivity|].
  split; [intros H; vm_compute in H; discriminate H|].
  match goal with
  | |- StronglySorted keyLt (sortKey <$> ?t) /\ ID <$> ?t = ID <$> ?t' =>
      destruct (load_order_lexicographic
                  "/g" sample.threeTasks "" None None (fun _ => 0) t 0
                  "/g" sample.threeTasksAgain "" None None (fun _ => 0) t' 0)
        as [Hs Heq]; [vm_compute; reflexivity..|]
  end.
  split; [exact Hs|].
  apply Heq. vm_compute. reflexivity.
Defined.

(** C10, witness: a document with [priority: 0] and [max_retries: 0]
    loads with priority 10 and retry budget 5. *)
Lemma explicit_zero_defaulted_witness :
  exists t,
    ParseMultiDocYAML [YTask sample.zeroDoc] "/g/zero.yaml" sample.noRandom
    = Ok [t]
    /\ Priority t = 10 /\ MaxRetries t = 5.
Proof.
  eexists. split; [vm_compute; reflexivity|].
  match goal with
  | |- Priority ?t = _ /\ _ =>
      destruct (explicit_zero_defaulted sample.zeroDoc "/g/zero.yaml"
                  sample.noRandom t ltac:(vm_compute; reflexivity))
        as (Hp & Hm & _)
  end.
  split; [apply Hp; by left|apply Hm; by left].
Defined.

(** ** Reset times in the past *)

(** What [ParseResetTime] does with a candidate before now: an explicit
    date is an error; a time alone is moved 24 hours on, which is less
    than 24 hours after now. *)
Lemma ParseResetTime_past h s loc s' hour minute :
  s <> "" ->
  timeparse.extractTimezone h s = (loc, s') ->
  timeparse.extractTime s' = inr (hour, minute) ->
  let result :=
    timeparse.candidate (default (timeparse.Local h) loc) (timeparse.Now h)
      (timeparse.extractDate s') hour minute in
  result < timeparse.Now h ->
  match timeparse.extractDate s' with
  | Some _ => timeparse.ParseResetTime h s = inl (timeparse.InThePast result)
  | None =>
      timeparse.ParseResetTime h s = inr (result + 24 * gotime.Hour)
      /\ result + 24 * gotime.Hour < timeparse.Now h + 24 * gotime.Hour
  end.
Proof.
  intros Hs Htz Ht result Hpast. unfold timeparse.ParseResetTime.
  apply String.eqb_neq in Hs. rewrite Hs, Htz, Ht. fold result.
  apply Z.ltb_lt in Hpast as Hb. rewrite Hb.
  destruct (timeparse.extractDate s'); [reflexivity|].
  split; [reflexivity|lia].
Qed.

Lemma ParseResetTime_past_witness :
  timeparse.ParseResetTime
    (sample.hostUTC ((sample.midnight + 12 * 3600) * gotime.Second))
    "resets Oct 30 at 9:15 AM"
  = inl (timeparse.InThePast ((sample.midnight - 2 * 86400 + 9 * 3600 + 900)
                              * gotime.Second))
  /\ timeparse.ParseResetTime
       (sample.hostUTC ((sample.midnight + 12 * 3600) * gotime.Second))
       "resets 9:15 AM"
     = inr ((sample.midnight + 86400 + 9 * 3600 + 900) * gotime.Second).
Proof.
  split.
  - apply (ParseResetTime_past
             (sample.hostUTC ((sample.midnight + 12 * 3600) * gotime.Second))
             "resets Oct 30 at 9:15 AM" None "resets Oct 30 at 9:15 AM" 9 15);
      [discriminate|vm_compute; reflexivity..].
  - apply (ParseResetTime_past
             (sample.hostUTC ((sample.midnight + 12 * 3600) * gotime.Second))
             "resets 9:15 AM" None "resets 9:15 AM" 9 15);
      [discriminate|vm_compute; reflexivity..].
Defined.

(** C4: the instant returned for a time-only string can lie in the past.
    In New York at 23:30 on 2026-11-01, the day daylight saving time ends,
    the string [12:00 AM] has the candidate 00:00 of that day, 24 hours
    and 30 minutes earlier; [ParseResetTime] returns the candidate plus 24
    hours, which is 23:00 of the same day, 30 minutes before now. *)
Theorem time_only_roll_forward_in_the_past :
  timeparse.ParseResetTime sample.hostNewYork "12:00 AM"
  = inr (timeparse.Now sample.hostNewYork - 30 * gotime.Minute).
Proof. vm_compute. reflexivity. Qed.

(** ** Further properties: task ids and loading *)


Lemma append_cons c (a b : string) : String c a +:+ b = String c (a +:+ b).
Proof. reflexivity. Qed.

Lemma append_nil_r (a : string) : a +:+ "" = a.
Proof. induction a as [|c a IH]; [done|]. by rewrite append_cons, IH. Qed.

Lemma append_assoc (a b c : string) : (a +:+ b) +:+ c = a +:+ (b +:+ c).
Proof. induction a as [|x a IH]; [done|]. by rewrite !append_cons, IH. Qed.

Lemma length_append (a b : string) :
  String.length (a +:+ b) = (String.length a + String.length b)%nat.
Proof.
  induction a as [|c a IH]; [done|]. rewrite append_cons. cbn. by rewrite IH.
Qed.

Lemma allBytes_app p (a b : string) :
  allBytes p (a +:+ b) = allBytes p a && allBytes p b.
Proof.
  induction a as [|c a IH]; [done|]. rewrite append_cons. cbn.
  by rewrite IH, andb_assoc.
Qed.

Lemma TrimRightFunc_prefix p s :
  exists t, s = GoStrings.TrimRightFunc p s +:+ t.
Proof.
  induction s as [|c s [t IH]]; [by exists ""|]. cbn.
  destruct (GoStrings.TrimRightFunc p s) as [|c' r] eqn:E.
  - destruct (p c).
    + by exists (String c s).
    + exists s. reflexivity.
  - exists t. rewrite append_cons. by rewrite <- IH.
Qed.

Lemma TrimRightFunc_last p s c :
  lastByte (GoStrings.TrimRightFunc p s) = Some c -> p c = false.
Proof.
  induction s as [|a s IH]; [discriminate|]. cbn.
  destruct (GoStrings.TrimRightFunc p s) as [|c' r] eqn:E.
  - destruct (p a) eqn:Ea; [discriminate|]. by intros [= <-].
  - cbn. cbn in IH. exact IH.
Qed.

Lemma substring_prefix n s :
  exists t, s = String.substring 0 n s +:+ t
            /\ (String.length (String.substring 0 n s) <= n)%nat.
Proof.
  revert s. induction n as [|n IH]; intros s.
  - exists s. destruct s; cbn; split; (done || lia).
  - destruct s as [|c s]; [exists ""; cbn; split; [done|lia]|].
    destruct (IH s) as (t & Ht & Hl). exists t. cbn.
    split; [by rewrite append_cons, <- Ht|lia].
Qed.

Lemma Contains_prefix (a b x : string) :
  GoStrings.Contains (a +:+ b) x = false -> GoStrings.Contains a x = false.
Proof.
  intros H. apply not_true_is_false. intros Ha.
  apply Contains_spec in Ha as (pre & post & ->).
  assert (GoStrings.Contains ((pre +:+ x +:+ post) +:+ b) x = true) as Hc.
  { apply Contains_spec. exists pre, (post +:+ b). by rewrite !append_assoc. }
  by rewrite H in Hc.
Qed.

Lemma HasPrefix_nil s : GoStrings.HasPrefix s "" = true.
Proof. by destruct s. Qed.

Lemma HasPrefix_prefix (a b : string) (x : ascii) :
  a <> "" -> GoStrings.HasPrefix (a +:+ b) (String x "") = false ->
  GoStrings.HasPrefix a (String x "") = false.
Proof.
  destruct a as [|c a]; [done|]. intros _. rewrite append_cons. cbn.
  by rewrite !HasPrefix_nil.
Qed.

Lemma lastByte_app (a : string) c : lastByte (a +:+ String c "") = Some c.
Proof.
  induction a as [|x a IH]; [done|]. rewrite append_cons.
  cbn. destruct (a +:+ String c "") eqn:E; [|done].
  destruct a; discriminate.
Qed.



Lemma isAlnumLower_isIDByte c : isAlnumLower c = true -> isIDByte c = true.
Proof. unfold isAlnumLower, isIDByte. intros ->. reflexivity. Qed.

Lemma isAlnumLower_not_dash c : isAlnumLower c = true -> c <> dash.
Proof. intros H ->. discriminate H. Qed.

Lemma slugLoop_inv s acc prevDash :
  slugAcc acc -> (prevDash = false -> head acc <> Some dash) ->
  slugAcc (slugLoop s acc prevDash).
Proof.
  revert acc prevDash. induction s as [|r rest IH]; intros acc prevDash Hacc Hprev;
    [done|].
  cbn [slugLoop]. destruct Hacc as (H1 & H2 & H3).
  destruct (isAlnumLower r) eqn:Er.
  - apply IH.
    + split; [|split].
      * constructor; [by apply isAlnumLower_isIDByte|done].
      * intros l c Heq. destruct l as [|x l].
        -- injection Heq as <- _. done.
        -- injection Heq as _ Heq. by eapply H2.
      * intros l1 l2 Heq. destruct l1 as [|x l1].
        -- injection Heq as -> _. discriminate Er.
        -- injection Heq as _ Heq. by eapply H3.
    + intros _. cbn. intros [= ->]. discriminate Er.
  - destruct (negb prevDash && negb (bool_decide (acc = []))) eqn:Ed.
    + apply andb_true_iff in Ed as [Ep Ea]. apply negb_true_iff in Ep, Ea.
      apply bool_decide_eq_false in Ea.
      apply IH; [|discriminate].
      split; [|split].
      * constructor; [reflexivity|done].
      * intros l c Heq. destruct l as [|x l].
        -- injection Heq as _ ->. done.
        -- injection Heq as _ Heq. by eapply H2.
      * intros l1 l2 Heq. destruct l1 as [|x l1].
        -- injection Heq as ->. by apply (Hprev Ep).
        -- injection Heq as _ Heq. by eapply H3.
    + apply IH; [done|exact Hprev].
Qed.

Lemma slugAcc_nil : slugAcc [].
Proof.
  split; [constructor|]. split.
  - intros l c H. by destruct l.
  - intros l1 l2 H. by destruct l1.
Qed.

Lemma string_of_list_ascii_app l1 l2 :
  string_of_list_ascii (l1 ++ l2)
  = string_of_list_ascii l1 +:+ string_of_list_ascii l2.
Proof. induction l1 as [|c l1 IH]; [done|]. cbn. by rewrite IH. Qed.

Lemma list_ascii_of_string_app (a b : string) :
  list_ascii_of_string (a +:+ b)
  = list_ascii_of_string a ++ list_ascii_of_string b.
Proof.
  induction a as [|c a IH]; [done|]. rewrite append_cons. cbn. by rewrite IH.
Qed.

Lemma allBytes_Forall p l :
  Forall (fun c => p c = true) l -> allBytes p (string_of_list_ascii l) = true.
Proof. induction 1 as [|c l Hc Hl IH]; [done|]. cbn. by rewrite Hc, IH. Qed.


Lemma slugLoop_shape s :
  slugShape (string_of_list_ascii (rev (slugLoop s [] false)))
  \/ string_of_list_ascii (rev (slugLoop s [] false)) = "".
Proof.
  pose proof (slugLoop_inv s [] false slugAcc_nil) as H.
  destruct H as (H1 & H2 & H3); [done|].
  set (acc := slugLoop s [] false) in *.
  left. split; [|split].
  - apply allBytes_Forall. apply Forall_forall. intros c Hc.
    rewrite Forall_forall in H1. apply H1.
    apply list_elem_of_In. apply in_rev. by apply list_elem_of_In.
  - destruct (rev acc) as [|c l] eqn:E; [done|]. cbn.
    assert (acc = rev l ++ [c]) as Hacc.
    { rewrite <- (rev_involutive acc), E. reflexivity. }
    apply H2 in Hacc. rewrite HasPrefix_nil, andb_true_r.
    apply Ascii.eqb_neq. by apply isAlnumLower_not_dash.
  - apply not_true_is_false. intros Hc.
    apply Contains_spec in Hc as (pre & post & Hc).
    apply (f_equal list_ascii_of_string) in Hc.
    rewrite list_ascii_of_string_of_list_ascii, !list_ascii_of_string_app in Hc.
    apply (f_equal (@rev ascii)) in Hc. rewrite rev_involutive in Hc.
    rewrite !rev_app_distr in Hc. cbn in Hc. rewrite <- !app_assoc in Hc.
    by apply H3 in Hc.
Qed.

Lemma slugShape_prefix (a b : string) : slugShape (a +:+ b) -> slugShape a.
Proof.
  intros (H1 & H2 & H3). rewrite allBytes_app in H1.
  apply andb_true_iff in H1 as [H1 _]. split; [done|]. split.
  - destruct a as [|c a]; [done|]. by apply (HasPrefix_prefix _ b).
  - by apply (Contains_prefix _ b).
Qed.

Lemma slugShape_trim s : slugShape s -> slugShape (GoStrings.TrimRightFunc isDash s).
Proof.
  intros H. destruct (TrimRightFunc_prefix isDash s) as [t Ht].
  rewrite Ht in H. by apply slugShape_prefix in H.
Qed.

Lemma slugShape_prefixTo n s : slugShape s -> slugShape (GoStrings.prefixTo n s).
Proof.
  intros H. unfold GoStrings.prefixTo.
  destruct (substring_prefix (Z.to_nat n) s) as (t & Ht & _).
  rewrite Ht in H. by apply slugShape_prefix in H.
Qed.

Lemma slugShape_nil : slugShape "".
Proof. by repeat split. Qed.

Lemma trim_no_dash s : lastByte (GoStrings.TrimRightFunc isDash s) <> Some dash.
Proof. intros H. by apply TrimRightFunc_last in H. Qed.

Lemma trim_length p s :
  (String.length (GoStrings.TrimRightFunc p s) <= String.length s)%nat.
Proof.
  destruct (TrimRightFunc_prefix p s) as [t Ht].
  rewrite Ht at 2. rewrite length_append. lia.
Qed.

Lemma prefixTo_trim_length n s :
  0 <= n ->
  GoStrings.len (GoStrings.TrimRightFunc isDash (GoStrings.prefixTo n s)) <= n.
Proof.
  intros Hn. unfold GoStrings.len, GoStrings.prefixTo.
  pose proof (trim_length isDash (String.substring 0 (Z.to_nat n) s)).
  destruct (substring_prefix (Z.to_nat n) s) as (t & _ & Hl). lia.
Qed.

Lemma Slugify_props s :
  let r := Slugify s in
  GoStrings.len r <= 64 /\ slugShape r /\ lastByte r <> Some dash.
Proof.
  cbv zeta. unfold Slugify.
  set (b := string_of_list_ascii (rev (slugLoop (GoStrings.ToLower s) [] false))).
  assert (slugShape b) as Hb.
  { destruct (slugLoop_shape (GoStrings.ToLower s)) as [H|H]; [exact H|].
    subst b. rewrite H. apply slugShape_nil. }
  destruct (Z.ltb_spec 64 (GoStrings.len (GoStrings.TrimRightFunc isDash b))).
  - split; [by apply prefixTo_trim_length|]. split; [|apply trim_no_dash].
    by apply slugShape_trim, slugShape_prefixTo, slugShape_trim.
  - split; [done|]. split; [by apply slugShape_trim|apply trim_no_dash].
Qed.

(** A slug has at most 64 bytes, all of them lower-case letters, digits
    or dashes; it neither begins nor ends with a dash and holds no two
    dashes in a row; a slug that is not empty is a valid task id. *)
Theorem Slugify_shape s :
  let r := Slugify s in
  GoStrings.len r <= 64
  /\ allBytes isIDByte r = true
  /\ GoStrings.HasPrefix r "-" = false
  /\ lastByte r <> Some "-"%char
  /\ GoStrings.Contains r "--" = false
  /\ (r <> "" -> IsValidID r = true).
Proof.
  cbv zeta. destruct (Slugify_props s) as (Hl & (H1 & H2 & H3) & H4).
  repeat (split; [done|]).
  intros Hne. unfold IsValidID, taskIDRe_MatchString. rewrite H1.
  apply String.eqb_neq in Hne as Hne'. rewrite Hne'.
  assert (0 < GoStrings.len (Slugify s)) as Hpos.
  { unfold GoStrings.len. destruct (Slugify s); [done|cbn; lia]. }
  apply Z.ltb_lt in Hpos. apply Z.leb_le in Hl. by rewrite Hpos, Hl.
Qed.

Lemma hexDigit_id n : (n < 16)%N -> isIDByte (hexDigit n) = true.
Proof.
  intros H.
  assert (n ∈ [0;1;2;3;4;5;6;7;8;9;10;11;12;13;14;15]%N) as Hin.
  { assert (n = N.of_nat (N.to_nat n)) as -> by lia.
    assert (N.to_nat n < 16)%nat as Hn by lia.
    revert Hn. generalize (N.to_nat n). intros k Hk.
    do 16 (destruct k as [|k]; [apply (bool_decide_unpack _); vm_compute; exact I|]).
    lia. }
  assert (Forall (fun n => isIDByte (hexDigit n) = true)
            [0;1;2;3;4;5;6;7;8;9;10;11;12;13;14;15]%N) as Hall
    by (repeat constructor).
  rewrite Forall_forall in Hall. by apply Hall.
Qed.

(** For every title and every two random bytes the generated id is a
    valid task id: a slug of 1 to 59 bytes that does not begin with a
    dash, then a dash and the four hexadecimal digits of the bytes. *)
Theorem GenerateID_valid title rnd :
  (rnd.1 < 256)%N -> (rnd.2 < 256)%N ->
  IsValidID (GenerateID title rnd) = true
  /\ exists slug,
       GenerateID title rnd = slug +:+ "-" +:+ hexEncode [rnd.1; rnd.2]
       /\ slug <> "" /\ GoStrings.len slug <= 59
       /\ GoStrings.HasPrefix slug "-" = false.
Proof.
  intros Hr1 Hr2. unfold GenerateID. cbv zeta.
  set (slug0 := if String.eqb (Slugify title) "" then "task" else Slugify title).
  assert (slugShape slug0 /\ slug0 <> "") as [Hs0 Hne0].
  { subst slug0. destruct (String.eqb_spec (Slugify title) "") as [E|E].
    - split; [by repeat split|done].
    - split; [|done]. by destruct (Slugify_props title) as (_ & H & _). }
  set (slug1 := if 64 - 5 <? GoStrings.len slug0
                then GoStrings.TrimRightFunc isDash (GoStrings.prefixTo (64 - 5) slug0)
                else slug0).
  assert (slugShape slug1 /\ GoStrings.len slug1 <= 59 /\ slug1 <> "")
    as ((Hb & Hp & Hc) & Hl & Hne).
  { subst slug1. destruct (Z.ltb_spec (64 - 5) (GoStrings.len slug0)) as [Hlt|Hge].
    - split; [by apply slugShape_trim, slugShape_prefixTo|].
      split; [by apply prefixTo_trim_length|].
      destruct Hs0 as (_ & Hp0 & _).
      destruct slug0 as [|c rest]; [done|].
      unfold GoStrings.prefixTo. change (Z.to_nat (64 - 5)) with (S 58).
      cbn [String.substring GoStrings.TrimRightFunc].
      cbn in Hp0. rewrite HasPrefix_nil, andb_true_r in Hp0.
      destruct (GoStrings.TrimRightFunc isDash (String.substring 0 58 rest));
        [|done].
      unfold isDash. by rewrite Hp0.
    - split; [done|]. split; [lia|done]. }
  split.
  - unfold IsValidID, taskIDRe_MatchString, GoStrings.len.
    assert (String.eqb (slug1 +:+ "-" +:+ hexEncode [rnd.1; rnd.2]) "" = false) as ->.
    { apply String.eqb_neq. intros H. apply (f_equal String.length) in H.
      rewrite !length_append in H. cbn in H. lia. }
    rewrite !length_append, !allBytes_app, Hb. cbn [hexEncode String.length allBytes].
    rewrite !hexDigit_id
      by (first [apply N.mod_lt; discriminate
                |apply N.Div0.div_lt_upper_bound; lia]).
    unfold GoStrings.len in Hl.
    cbn [negb andb]. rewrite andb_true_r.
    apply andb_true_iff. split; [apply Z.ltb_lt|apply Z.leb_le]; lia.
  - exists slug1. done.
Qed.


Lemma validateTask_Ok t : validateTask t = Ok tt -> validTask t.
Proof.
  unfold validateTask, validTask, IsValidID. cbv zeta.
  destruct (String.eqb_spec (GoStrings.TrimSpace (ID t)) ""); [discriminate|].
  destruct (Z.ltb_spec 64 (GoStrings.len (ID t))); [discriminate|].
  destruct (taskIDRe_MatchString (ID t)) eqn:Em; [|discriminate]. cbn [negb].
  destruct (String.eqb_spec (GoStrings.TrimSpace (Prompt t)) ""); [discriminate|].
  destruct (String.eqb_spec (GoStrings.TrimSpace (WorkingDir t)) "");
    [discriminate|].
  destruct (IsAbs (WorkingDir t)); [|discriminate]. intros _.
  split; [|done].
  assert (0 < GoStrings.len (ID t)) as Hpos.
  { unfold taskIDRe_MatchString in Em. unfold GoStrings.len.
    destruct (ID t); [discriminate Em|cbn; lia]. }
  apply Z.ltb_lt in Hpos. rewrite Hpos.
  assert (GoStrings.len (ID t) <=? 64 = true) as -> by (apply Z.leb_le; lia).
  reflexivity.
Qed.

Lemma parseDocs_validated docs i n source rnd tasks :
  parseDocs docs i n source rnd = Ok tasks -> Forall validTask tasks.
Proof.
  revert i tasks. induction docs as [|d docs IH]; intros i tasks; cbn [parseDocs].
  - intros [= <-]. constructor.
  - destruct d as [|msg|y]; [apply IH|discriminate|].
    destruct (wrapErr _ (applyDefaults _ _)) as [t|] eqn:Hd; [|discriminate].
    cbn [mbind result_bind].
    destruct (wrapErr _ (validateTask t)) as [[]|] eqn:Hv; [|discriminate].
    cbn [mbind result_bind].
    destruct (parseDocs docs (S i) n source rnd) as [ts|] eqn:Hrest; [|discriminate].
    cbn [mbind result_bind]. intros [= <-].
    constructor; [|by eapply IH].
    apply wrapErr_Ok in Hv. by apply validateTask_Ok.
Qed.

Lemma loadTaskSourceGroup_validated files tasks :
  loadTaskSourceGroup files = Ok tasks -> Forall validTask tasks.
Proof.
  revert tasks. induction files as [|f files IH]; intros tasks; cbn [loadTaskSourceGroup].
  - intros [= <-]. constructor.
  - destruct (wrapErr _ (ParseMultiDocYAML _ _ _)) as [ts|] eqn:Hp; [|discriminate].
    cbn [mbind result_bind].
    destruct (loadTaskSourceGroup files) as [more|]; [|discriminate].
    cbn [mbind result_bind]. intros [= <-].
    apply Forall_app. split; [|by apply IH].
    apply wrapErr_Ok in Hp. by eapply parseDocs_validated.
Qed.

Lemma loadAllSources_validated gd gf pd pf tasks :
  loadAllSources gd gf pd pf = Ok tasks -> Forall validTask tasks.
Proof.
  unfold loadAllSources.
  destruct (wrapErr _ (loadTaskSourceGroup gf)) as [ts|] eqn:Hg; [|discriminate].
  cbn [mbind result_bind]. apply wrapErr_Ok, loadTaskSourceGroup_validated in Hg.
  destruct pf as [files|]; [|by intros [= <-]].
  destruct (wrapErr _ (loadTaskSourceGroup files)) as [more|] eqn:Hp; [|discriminate].
  cbn [mbind result_bind]. intros [= <-].
  apply wrapErr_Ok, loadTaskSourceGroup_validated in Hp.
  apply Forall_app. done.
Qed.

Lemma sameButCreatedAt_valid l l' :
  Forall2 sameButCreatedAt l l' -> Forall validTask l -> Forall validTask l'.
Proof.
  induction 1 as [|t t' l l' Ht Hl IH]; [done|].
  rewrite !Forall_cons. intros [Hv Hl']. split; [|by apply IH].
  unfold sameButCreatedAt in Ht. rewrite Ht. exact Hv.
Qed.

(** The tasks of a successful load have pairwise distinct ids, and each
    has a valid id, a non-blank prompt and a non-blank, absolute working
    directory. *)
Theorem loaded_tasks_valid gd gf pd pf sd clock tasks n :
  (LoadTasksAndInit gd gf pd pf sd clock).1 = Ok (tasks, n) ->
  NoDup (ID <$> tasks)
  /\ Forall (fun t =>
               IsValidID (ID t) = true
               /\ GoStrings.TrimSpace (Prompt t) <> ""
               /\ GoStrings.TrimSpace (WorkingDir t) <> ""
               /\ IsAbs (WorkingDir t) = true) tasks.
Proof.
  intros H. apply LoadTasksAndInit_Ok in H as (all & canon & Hall & HF & Hnd & ->).
  split.
  - by rewrite sortSlice_Permutation.
  - apply loadAllSources_validated in Hall.
    apply (sameButCreatedAt_valid _ _ HF) in Hall.
    rewrite Forall_forall in Hall. apply Forall_forall. intros t Ht.
    apply Hall. by rewrite sortSlice_Permutation in Ht.
Qed.

(** A successful load returns the loaded records, all of them and no
    other, up to their creation times; without a state directory it
    returns them unchanged and counts no new init record. *)
Theorem load_keeps_every_record gd gf pd pf sd clock tasks n :
  (LoadTasksAndInit gd gf pd pf sd clock).1 = Ok (tasks, n) ->
  exists all,
    loadAllSources gd gf pd pf = Ok all
    /\ (fun t => setCreatedAt t 0) <$> tasks
       ≡ₚ (fun t => setCreatedAt t 0) <$> all
    /\ (sd = None -> n = 0 /\ tasks ≡ₚ all).
Proof.
  intros H.
  pose proof (LoadTasksAndInit_Ok _ _ _ _ _ _ _ _ H) as (all & canon & Hall & HF & Hnd & ->).
  exists all. split; [done|]. split.
  - rewrite sortSlice_Permutation.
    assert ((fun t => setCreatedAt t 0) <$> canon
            = (fun t => setCreatedAt t 0) <$> all) as ->; [|done].
    clear -HF. induction HF as [|t t' l l' Ht Hl IH]; [done|].
    rewrite !fmap_cons, IH. f_equal. unfold sameButCreatedAt in Ht.
    rewrite Ht. reflexivity.
  - intros ->. unfold LoadTasksAndInit in H. rewrite Hall in H.
    cbv beta iota zeta in H.
    destruct (findDuplicate all ∅); [|discriminate].
    cbn [fst] in H. injection H as H <-. split; [done|].
    rewrite <- H. apply sortSlice_Permutation.
Qed.

Lemma EnsureInit_record sd t now created t' sd' :
  EnsureInit sd t now = (Ok (created, t'), sd') ->
  sd ⊆ sd'
  /\ (exists rec, sd' !! ID t = Some (InitRecord rec)
                  /\ iCreatedAt rec = CreatedAt t')
  /\ Z.of_nat (size sd') = Z.of_nat (size sd) + (if created then 1 else 0).
Proof.
  unfold EnsureInit.
  set (t1 := if _ =? _ then _ else t).
  assert (ID t1 = ID t) as Hid by (subst t1; by destruct (_ =? _)).
  rewrite Hid.
  destruct (sd !! ID t) as [[existing|msg]|] eqn:E; intros [= <- <- <-].
  - split; [done|]. split; [|lia]. by exists existing.
  - split; [by apply insert_subseteq|]. split.
    + eexists. rewrite lookup_insert, decide_True by done. done.
    + rewrite map_size_insert_None by done. lia.
Qed.

Lemma EnsureInit_grows sd t now r sd' :
  EnsureInit sd t now = (r, sd') -> sd ⊆ sd'.
Proof.
  unfold EnsureInit.
  set (t1 := if _ =? _ then _ else t).
  destruct (sd !! ID t1) as [[existing|msg]|] eqn:E; intros [= <- <-]; [done..|].
  by apply insert_subseteq.
Qed.

Lemma ensureAll_grows sd tasks i clock n r sd' :
  ensureAll sd tasks i clock n = (r, sd') -> sd ⊆ sd'.
Proof.
  revert sd i n r sd'.
  induction tasks as [|t tasks IH]; intros sd i n r sd'; cbn [ensureAll].
  - by intros [= <- <-].
  - destruct (EnsureInit sd t (clock i)) as [[[created t']|e] sd1] eqn:He.
    + apply EnsureInit_grows in He.
      destruct (ensureAll sd1 tasks (S i) clock _) as [[[ts m]|e] sd2] eqn:Hr;
        intros [= <- <-]; apply IH in Hr; by etrans.
    + apply EnsureInit_grows in He. by intros [= <- <-].
Qed.

Lemma ensureAll_records sd tasks i clock n tasks' n' sd' :
  ensureAll sd tasks i clock n = (Ok (tasks', n'), sd') ->
  Forall (fun t' => exists rec, sd' !! ID t' = Some (InitRecord rec)
                                /\ iCreatedAt rec = CreatedAt t') tasks'
  /\ n' - n = Z.of_nat (size sd') - Z.of_nat (size sd).
Proof.
  revert sd i n tasks' n' sd'.
  induction tasks as [|t tasks IH]; intros sd i n tasks' n' sd'; cbn [ensureAll].
  - intros [= <- <- <-]. split; [constructor|lia].
  - destruct (EnsureInit sd t (clock i)) as [[[created t']|e] sd1] eqn:He; [|discriminate].
    destruct (ensureAll sd1 tasks (S i) clock _) as [[[ts m]|e] sd2] eqn:Hr; [|discriminate].
    intros [= <- <- <-].
    pose proof (EnsureInit_same _ _ _ _ _ _ He) as Hsame.
    apply EnsureInit_record in He as (_ & (rec & Hrec & Hc) & Hsize).
    pose proof (ensureAll_grows _ _ _ _ _ _ _ Hr) as Hsub.
    apply IH in Hr as [Hall Hn]. split.
    + constructor; [|done]. exists rec. split; [|done].
      unfold sameButCreatedAt in Hsame. rewrite Hsame. cbn.
      by eapply lookup_weaken.
    + destruct created; lia.
Qed.

Lemma ensureAll_again sd tasks i clock n canon n' sd1 :
  ensureAll sd tasks i clock n = (Ok (canon, n'), sd1) ->
  forall sd2 i' clock' m, sd1 ⊆ sd2 ->
    ensureAll sd2 tasks i' clock' m = (Ok (canon, m), sd2).
Proof.
  revert sd i n canon n' sd1.
  induction tasks as [|t tasks IH]; intros sd i n canon n' sd1; cbn [ensureAll].
  - by intros [= <- <- <-].
  - destruct (EnsureInit sd t (clock i)) as [[[created t']|e] sdA] eqn:He; [|discriminate].
    destruct (ensureAll sdA tasks (S i) clock _) as [[[ts k]|e] sdB] eqn:Hr; [|discriminate].
    intros [= <- <- <-] sd2 i' clock' m Hsub.
    pose proof (EnsureInit_same _ _ _ _ _ _ He) as Hsame.
    apply EnsureInit_record in He as (_ & (rec & Hrec & Hc) & _).
    pose proof (ensureAll_grows _ _ _ _ _ _ _ Hr) as HsubAB.
    assert (sd2 !! ID t = Some (InitRecord rec)) as Hrec2.
    { eapply lookup_weaken; [|exact Hsub]. by eapply lookup_weaken. }
    assert (EnsureInit sd2 t (clock' i') = (Ok (false, t'), sd2)) as ->.
    { unfold EnsureInit.
      set (t1 := if _ =? _ then _ else t).
      assert (ID t1 = ID t) as Hid by (subst t1; by destruct (_ =? _)).
      rewrite Hid, Hrec2. rewrite Hc. unfold sameButCreatedAt in Hsame.
      rewrite Hsame at 2. subst t1. by destruct (_ =? _). }
    rewrite (IH _ _ _ _ _ _ Hr sd2 (S i') clock' m Hsub). reflexivity.
Qed.

(** A load, successful or not, leaves every init record of the state
    directory as it found it: it only adds records. *)
Theorem init_records_only_added gd gf pd pf sd clock :
  exists sd',
    (LoadTasksAndInit gd gf pd pf (Some sd) clock).2 = Some sd' /\ sd ⊆ sd'.
Proof.
  unfold LoadTasksAndInit.
  destruct (loadAllSources gd gf pd pf) as [all|err]; [|by exists sd].
  destruct (ensureAll sd all 0 clock 0) as [[[canon m]|e] sd'] eqn:He.
  - apply ensureAll_grows in He. exists sd'.
    destruct (findDuplicate canon ∅); done.
  - apply ensureAll_grows in He. by exists sd'.
Qed.

(** After a successful load with a state directory, each task's creation
    time is the one of its init record and the count returned is the
    number of init records added; loading the same files again (with the
    same random bytes for generated ids) from the resulting directory
    returns the same list at any clock and adds nothing. *)
Theorem created_at_from_init_record gd gf pd pf sd clock tasks n :
  (LoadTasksAndInit gd gf pd pf (Some sd) clock).1 = Ok (tasks, n) ->
  exists sd',
    (LoadTasksAndInit gd gf pd pf (Some sd) clock).2 = Some sd'
    /\ Forall (fun t => exists rec, sd' !! ID t = Some (InitRecord rec)
                                    /\ iCreatedAt rec = CreatedAt t) tasks
    /\ n = Z.of_nat (size sd') - Z.of_nat (size sd)
    /\ forall clock',
         LoadTasksAndInit gd gf pd pf (Some sd') clock'
         = (Ok (tasks, 0), Some sd').
Proof.
  unfold LoadTasksAndInit.
  destruct (loadAllSources gd gf pd pf) as [all|err]; [|discriminate].
  destruct (ensureAll sd all 0 clock 0) as [[[canon m]|e] sd'] eqn:He;
    [|discriminate].
  destruct (findDuplicate canon ∅) eqn:Hd; [|discriminate].
  cbn [fst snd]. intros [= <- <-]. exists sd'. split; [done|].
  pose proof (ensureAll_records _ _ _ _ _ _ _ _ He) as [Hrec Hn].
  split.
  { rewrite Forall_forall in Hrec. apply Forall_forall. intros t Ht.
    apply Hrec. by rewrite sortSlice_Permutation in Ht. }
  split; [lia|].
  intros clock'.
  rewrite (ensureAll_again _ _ _ _ _ _ _ _ He sd' 0%nat clock' 0) by done.
  by rewrite Hd.
Qed.

(** An example slug. *)
Example Slugify_title :
  Slugify "  Fix: the LOGIN bug -- (urgent!)  " = "fix-the-login-bug-urgent".
Proof. vm_compute. reflexivity. Qed.

(** Witness: a title with capitals, blanks and punctuation. *)
Lemma GenerateID_valid_witness :
  GenerateID "Fix the Login Bug!" (171, 205)%N = "fix-the-login-bug-abcd"
  /\ IsValidID (GenerateID "Fix the Login Bug!" (171, 205)%N) = true.
Proof.
  split; [vm_compute; reflexivity|].
  apply (GenerateID_valid "Fix the Login Bug!" (171, 205)%N); cbn; lia.
Defined.

(** Witness: the file of three tasks. *)
Lemma loaded_tasks_valid_witness :
  exists tasks n,
    (LoadTasksAndInit "/g" sample.threeTasks "" None None (fun _ => 0)).1
    = Ok (tasks, n)
    /\ NoDup (ID <$> tasks)
    /\ Forall (fun t =>
                 IsValidID (ID t) = true
                 /\ GoStrings.TrimSpace (Prompt t) <> ""
                 /\ GoStrings.TrimSpace (WorkingDir t) <> ""
                 /\ IsAbs (WorkingDir t) = true) tasks.
Proof.
  eexists _, _. split; [vm_compute; reflexivity|].
  eapply (loaded_tasks_valid "/g" sample.threeTasks "" None None (fun _ => 0)).
  vm_compute. reflexivity.
Defined.

(** Witness: the file of three tasks loads as three tasks. *)
Lemma load_keeps_every_record_witness :
  exists tasks n all,
    (LoadTasksAndInit "/g" sample.threeTasks "" None None (fun _ => 0)).1
    = Ok (tasks, n)
    /\ loadAllSources "/g" sample.threeTasks "" None = Ok all
    /\ length tasks = 3%nat
    /\ tasks ≡ₚ all.
Proof.
  destruct (LoadTasksAndInit "/g" sample.threeTasks "" None None (fun _ => 0)).1
    as [[tasks n]|] eqn:H; [|vm_compute in H; discriminate H].
  destruct (load_keeps_every_record _ _ _ _ _ _ _ _ H) as (all & Hall & _ & Hnone).
  exists tasks, n, all. split; [done|]. split; [done|].
  split; [|by apply Hnone].
  vm_compute in H. by injection H as <- _.
Defined.

(** Witness: a first load of the three tasks creates three init records,
    a second load none. *)
Lemma created_at_from_init_record_witness :
  exists tasks sd',
    LoadTasksAndInit "/g" sample.threeTasks "" None (Some ∅)
      (fun _ => sample.midnight * gotime.Second) = (Ok (tasks, 3), Some sd')
    /\ Forall (fun t => exists rec, sd' !! ID t = Some (InitRecord rec)
                                    /\ iCreatedAt rec = CreatedAt t) tasks
    /\ forall clock',
         LoadTasksAndInit "/g" sample.threeTasks "" None (Some sd') clock'
         = (Ok (tasks, 0), Some sd').
Proof.
  destruct (LoadTasksAndInit "/g" sample.threeTasks "" None (Some ∅)
              (fun _ => sample.midnight * gotime.Second)) as [r o] eqn:H.
  assert (exists tasks, r = Ok (tasks, 3)) as [tasks ->].
  { vm_compute in H. injection H as <- _. by eexists. }
  assert ((LoadTasksAndInit "/g" sample.threeTasks "" None (Some ∅)
              (fun _ => sample.midnight * gotime.Second)).1 = Ok (tasks, 3)) as H1
    by (by rewrite H).
  destruct (created_at_from_init_record _ _ _ _ _ _ _ _ H1)
    as (sd' & Hsd & Hrec & _ & Hagain).
  rewrite H in Hsd. cbn [snd] in Hsd. subst o.
  by exists tasks, sd'.
Defined.


Lemma filter_head_sorted {A} (P : A -> Prop) `{!forall x, Decision (P x)}
    (R : relation A) (l : list A) x rest :
  StronglySorted R l ->
  filter P l = x :: rest ->
  x ∈ l /\ P x /\ forall y, y ∈ l -> P y -> y = x \/ R x y.
Proof.
  intros Hs Hf.
  assert (x ∈ filter P l) as Hx by (rewrite Hf; left).
  apply list_elem_of_filter in Hx as [HP Hx].
  split; [done|]. split; [done|].
  intros y Hy HPy.
  assert (y ∈ filter P l) as Hy' by (apply list_elem_of_filter; done).
  rewrite Hf in Hy'. apply elem_of_cons in Hy' as [->|Hy']; [by left|right].
  clear Hy HPy Hx HP.
  revert x rest Hf Hy'. induction Hs as [|a l Hs IH Hall]; intros x rest Hf Hy'.
  - discriminate Hf.
  - rewrite filter_cons in Hf. destruct (decide (P a)).
    + injection Hf as <- <-. apply list_elem_of_filter in Hy' as [_ Hy'].
      rewrite Forall_forall in Hall. by apply Hall.
    + by eapply IH.
Qed.

Lemma StronglySorted_fmap_inv {A B} (f : A -> B) (R : relation B) (l : list A) :
  StronglySorted R (f <$> l) -> StronglySorted (fun a b => R (f a) (f b)) l.
Proof.
  induction l as [|a l IH]; cbn; intros H; [constructor|].
  apply StronglySorted_inv in H as [H1 H2]. constructor; [by apply IH|].
  rewrite Forall_fmap in H2. exact H2.
Qed.

(** ** Further properties: the runner *)

(** A pass that got past the load with a non-empty task list. *)
Lemma runPass_loaded r e d tasks n inits :
  shuttingDownAtStart e = false ->
  LoadTasksAndInit (globalDir e) (globalFiles e) (projectDir e)
    (projectFiles e) (Some (initDir d)) (initClock e) = (Ok (tasks, n), inits) ->
  tasks <> [] ->
  runPass r e d =
    let '(log, sd) := processControlCommands (controlLog d) (stateDir d) in
    let inits := default (initDir d) inits in
    let '(states, sd) := loadStates tasks ∅ sd in
    match actionable (nowFilter e) tasks states with
    | task :: _ =>
        let '(code, st, writes) :=
          executeTask r (exec e) task (stateOf states task) in
        (Executed task code st, mkDisk log (saveAll sd writes) inits)
    | [] =>
        match waitingFuture (nowFilter e) tasks states with
        | _ :: _ => (Sleep, mkDisk log sd inits)
        | [] => (Break, mkDisk log sd inits)
        end
    end.
Proof.
  intros H1 H2 H3. unfold runPass. rewrite H1.
  destruct (processControlCommands _ _) as [log sd]. rewrite H2.
  destruct tasks; [done|reflexivity].
Qed.

Lemma runPass_not_loaded r e d res d' :
  runPass r e d = (res, d') ->
  (forall code, res <> Return code) ->
  shuttingDownAtStart e = false
  /\ exists tasks n inits,
       LoadTasksAndInit (globalDir e) (globalFiles e) (projectDir e)
         (projectFiles e) (Some (initDir d)) (initClock e)
       = (Ok (tasks, n), inits) /\ tasks <> [].
Proof.
  unfold runPass. intros H Hres.
  destruct (shuttingDownAtStart e).
  { injection H as <- _. by destruct (Hres ExitSignal). }
  split; [done|].
  destruct (processControlCommands _ _) as [log sd].
  destruct (LoadTasksAndInit _ _ _ _ _ _) as [[[tasks n]|err] inits].
  - exists tasks, n, inits. split; [done|]. intros ->.
    injection H as <- _. by destruct (Hres ExitOK).
  - injection H as <- _. by destruct (Hres ExitFatal).
Qed.

(** The task a pass executes is a loaded task that is actionable once
    the control commands are applied and stale [running] states are
    recovered, and it comes before every other actionable task in the
    order on (priority, created_at, id). *)
Theorem pass_executes_first_actionable r e d task code st d' :
  runPass r e d = (Executed task code st, d') ->
  exists tasks n states sd,
    (LoadTasksAndInit (globalDir e) (globalFiles e) (projectDir e)
       (projectFiles e) (Some (initDir d)) (initClock e)).1 = Ok (tasks, n)
    /\ loadStates tasks ∅
         (processControlCommands (controlLog d) (stateDir d)).2 = (states, sd)
    /\ task ∈ tasks
    /\ isActionable (nowFilter e) (stateOf states task) = true
    /\ (executeTask r (exec e) task (stateOf states task)).1 = (code, st)
    /\ forall t, t ∈ tasks ->
         isActionable (nowFilter e) (stateOf states t) = true ->
         t = task \/ keyLt (sortKey task) (sortKey t).
Proof.
  intros Hrun.
  destruct (runPass_not_loaded _ _ _ _ _ Hrun) as (Hdown & tasks & n & inits & Hload & Hne);
    [discriminate|].
  rewrite (runPass_loaded _ _ _ _ _ _ Hdown Hload Hne) in Hrun.
  destruct (processControlCommands _ _) as [log sd0] eqn:Hctl.
  cbv zeta in Hrun.
  destruct (loadStates tasks ∅ sd0) as [states sd] eqn:Hst.
  destruct (actionable (nowFilter e) tasks states) as [|task' rest] eqn:Hact.
  { destruct (waitingFuture _ _ _); discriminate. }
  destruct (executeTask r (exec e) task' (stateOf states task')) as [[code' st'] writes] eqn:Hex.
  injection Hrun as -> -> -> <-.
  exists tasks, n, states, sd. cbn [fst snd].
  split; [by rewrite Hload|]. split; [done|].
  assert (StronglySorted keyLt (sortKey <$> tasks)) as Hsorted.
  { assert ((LoadTasksAndInit (globalDir e) (globalFiles e) (projectDir e)
       (projectFiles e) (Some (initDir d)) (initClock e)).1 = Ok (tasks, n)) as H
      by (by rewrite Hload).
    apply LoadTasksAndInit_Ok in H as (all & canon & _ & _ & Hnd & ->).
    by apply sortSlice_tasks_sorted. }
  apply StronglySorted_fmap_inv in Hsorted.
  unfold actionable in Hact.
  destruct (filter_head_sorted _ _ _ _ _ Hsorted Hact) as (H1 & H2 & H3).
  split; [done|]. split; [done|]. split; [by rewrite Hex|].
  exact H3.
Qed.

Lemma applyOutcome_sID e task s res : sID (applyOutcome e task s res) = sID s.
Proof.
  unfold applyOutcome.
  destruct (detector.Result res), (detector.ResetTime res),
    (Attempt s <? MaxRetries task), (Attempt s <? 2); reflexivity.
Qed.

Lemma applyOutcome_Attempt e task s res :
  Attempt (applyOutcome e task s res) = Attempt s.
Proof.
  unfold applyOutcome.
  destruct (detector.Result res), (detector.ResetTime res),
    (Attempt s <? MaxRetries task), (Attempt s <? 2); reflexivity.
Qed.

Lemma shutdownRestore_running s :
  Status s = StatusRunning ->
  shutdownRestore s
  = setEndedAt (setAttempt (setStatus s StatusPending) (wrap64 (Attempt s - 1))) None.
Proof. intros H. unfold shutdownRestore. by rewrite H. Qed.



Lemma executeTask_paths r e task st :
  let res := executeTask r e task st in
  let code := res.1.1 in let st' := res.1.2 in let writes := res.2 in
  sID st' = sID st
  /\ Forall (fun w => sID w = sID st) writes
  /\ match pathOf r e task st with
     | BadWorkingDir =>
         code = ExitFailed /\ Status st' = StatusFailed
         /\ Attempt st' = Attempt st /\ writes = [st']
     | SaveFailed =>
         code = ExitFatal /\ Status st' = StatusRunning
         /\ Attempt st' = wrap64 (Attempt st + 1) /\ writes = []
     | PromptFailed | SpawnFailed =>
         code = ExitFailed /\ Status st' = StatusFailed
         /\ Attempt st' = wrap64 (Attempt st + 1)
         /\ writes = [preRun e task st; st']
     | Interrupted =>
         code = ExitSignal /\ Status st' = StatusPending
         /\ Attempt st' = wrap64 (wrap64 (Attempt st + 1) - 1)
         /\ writes = [preRun e task st; st']
     | Classified =>
         code = ExitOK
         /\ Attempt st' = wrap64 (Attempt st + 1)
         /\ writes = [preRun e task st; st']
     end.
Proof.
  cbv zeta. unfold pathOf, executeTask.
  destruct (negb (IsAbs (WorkingDir task)) || negb (isDir e (WorkingDir task))).
  { cbn. repeat split. by repeat constructor. }
  destruct (preRunSaveFails e).
  { cbn. repeat split. constructor. }
  destruct (buildPromptWithContext r e task (preRun e task st)) as [prompt|err].
  2: { cbn. repeat split. by repeat constructor. }
  destruct (child e _ _) as [| |lines stderrStr wait].
  1,2: cbn; repeat split; by repeat constructor.
  destruct (scanLines e _ lines "" [] _) as [[stdoutStr lastLines] sid].
  destruct (shuttingDown e).
  - rewrite shutdownRestore_running by reflexivity. cbn.
    repeat split. by repeat constructor.
  - cbn [fst snd]. 
    split; [cbn; rewrite applyOutcome_sID; reflexivity|].
    split.
    { constructor; [reflexivity|]. constructor; [|constructor].
      cbn. rewrite applyOutcome_sID. reflexivity. }
    split; [reflexivity|]. split; [|reflexivity].
    cbn. rewrite applyOutcome_Attempt. reflexivity.
Qed.


Lemma SaveState_named sd s : namedByID sd -> namedByID (SaveState sd s).
Proof.
  intros H k s'. unfold SaveState. rewrite lookup_insert.
  destruct (decide (sID s = k)) as [<-|Hne]; [by intros [= <-]|]. apply H.
Qed.

Lemma saveAll_named sd writes : namedByID sd -> namedByID (saveAll sd writes).
Proof.
  unfold saveAll. revert sd. induction writes as [|w ws IH]; intros sd H; [done|].
  cbn. apply IH. by apply SaveState_named.
Qed.

Lemma applyCommand_sID op st st' : applyCommand op st = Some st' -> sID st' = sID st.
Proof.
  unfold applyCommand.
  destruct (String.eqb op "retry"); [|destruct (String.eqb op "cancel")];
    [| |discriminate]; intros [= <-].
  - destruct (_ || _); [|done]. by destruct (ValidTransition _ _).
  - by destruct (ValidTransition _ _).
Qed.

Lemma LoadState_named sd k st :
  namedByID sd -> LoadState sd k = Ok (Some st) -> sID st = k.
Proof.
  intros H. unfold LoadState.
  destruct (sd !! k) as [[s|msg]|] eqn:E; [|discriminate..].
  intros [= <-]. by apply H.
Qed.



Lemma crashRecover_not_running st : Status (crashRecover st) <> StatusRunning.
Proof.
  unfold crashRecover. destruct (String.eqb (Status st) StatusRunning) eqn:E.
  - discriminate.
  - by apply String.eqb_neq in E.
Qed.








(** A pass leaves the loop only when no loaded task is pending, waiting
    or running. *)
Theorem pass_ends_when_drained r e d d' :
  runPass r e d = (Break, d') ->
  exists tasks n states sd,
    (LoadTasksAndInit (globalDir e) (globalFiles e) (projectDir e)
       (projectFiles e) (Some (initDir d)) (initClock e)).1 = Ok (tasks, n)
    /\ loadStates tasks ∅
         (processControlCommands (controlLog d) (stateDir d)).2 = (states, sd)
    /\ forall t, t ∈ tasks ->
         Status (stateOf states t) <> StatusPending
         /\ Status (stateOf states t) <> StatusWaiting
         /\ Status (stateOf states t) <> StatusRunning.
Proof.
  intros Hrun.
  destruct (runPass_not_loaded _ _ _ _ _ Hrun) as (Hdown & tasks & n & inits & Hload & Hne);
    [discriminate|].
  rewrite (runPass_loaded _ _ _ _ _ _ Hdown Hload Hne) in Hrun.
  destruct (processControlCommands _ _) as [log sd0] eqn:Hctl.
  cbv zeta in Hrun.
  destruct (loadStates tasks ∅ sd0) as [states sd] eqn:Hst.
  destruct (actionable (nowFilter e) tasks states) as [|task' rest] eqn:Hact.
  2: { destruct (executeTask _ _ _ _) as [[? ?] ?]. discriminate. }
  destruct (waitingFuture (nowFilter e) tasks states) as [|t' rest] eqn:Hw;
    [|discriminate].
  exists tasks, n, states, sd. split; [by rewrite Hload|]. split; [done|].
  intros t Ht.
  assert (isActionable (nowFilter e) (stateOf states t) <> true) as Ha.
  { intros H. assert (t ∈ actionable (nowFilter e) tasks states) as Hin
      by (by apply list_elem_of_filter).
    rewrite Hact in Hin. by apply elem_of_nil in Hin. }
  assert (isWaitingFuture (nowFilter e) (stateOf states t) <> true) as Hf.
  { intros H. assert (t ∈ waitingFuture (nowFilter e) tasks states) as Hin
      by (by apply list_elem_of_filter).
    rewrite Hw in Hin. by apply elem_of_nil in Hin. }
  unfold isActionable in Ha. unfold isWaitingFuture in Hf.
  assert (forall states0 sd1, loadStates tasks ∅ sd0 = (states0, sd1) ->
            Status (stateOf states0 t) <> StatusRunning) as Hrec.
  { clear. intros states0 sd1. revert sd0.
    assert (forall acc sd0,
              (forall k st, acc !! k = Some st -> Status st <> StatusRunning) ->
              loadStates tasks acc sd0 = (states0, sd1) ->
              forall k st, states0 !! k = Some st -> Status st <> StatusRunning) as H.
    { induction tasks as [|t0 tasks IH]; intros acc sd0 Hacc; cbn [loadStates].
      - by intros [= <- <-].
      - destruct (match LoadState sd0 (ID t0) with
            | Ok (Some st) =>
                if String.eqb (Status st) StatusRunning
                then (crashRecover st, SaveState sd0 (crashRecover st))
                else (st, sd0)
            | _ => (implicitPending (ID t0), sd0)
            end) as [st1 sd2] eqn:E.
        apply IH. intros k st. rewrite lookup_insert.
        destruct (decide (ID t0 = k)); [|apply Hacc]. intros [= <-].
        destruct (LoadState sd0 (ID t0)) as [[st|]|err];
          [|injection E as <- _; discriminate..].
        destruct (String.eqb (Status st) StatusRunning) eqn:E'; injection E as <- _.
        + apply crashRecover_not_running.
        + by apply String.eqb_neq in E'. }
    intros sd0 Hl. unfold stateOf. destruct (states0 !! ID t) as [st|] eqn:E.
    - eapply (H ∅ sd0); [|exact Hl|exact E]. intros k st'. by rewrite lookup_empty.
    - discriminate. }
  specialize (Hrec _ _ Hst).
  split; [|split; [|done]].
  - intros Hp. apply Ha. by rewrite Hp.
  - intros Hwt. rewrite Hwt in Ha, Hf. cbn in Ha, Hf.
    destruct (ResumeAt (stateOf states t)) as [ra|]; [|done].
    destruct (nowFilter e <? ra); done.
Qed.



(** The state file of a [done] task survives every sequence of queued
    control commands unchanged; a direct cancel leaves the directory as
    it is and a direct retry is rejected. *)
Theorem done_is_final (stateDir : gmap string stateFile) taskID st :
  namedByID stateDir ->
  stateDir !! taskID = Some (StateRecord st) ->
  Status st = StatusDone ->
  (forall cmds, applyCommands cmds stateDir !! taskID = Some (StateRecord st))
  /\ runCancelDirect stateDir taskID = Ok stateDir
  /\ exists msg, runRetryDirect stateDir taskID = Err msg.
Proof.
  intros Hn Hfile Hdone. split; [|split].
  - intros cmds. revert stateDir Hn Hfile.
    induction cmds as [|cmd cmds IH]; intros stateDir Hn Hfile; [done|].
    cbn [applyCommands].
    destruct (LoadState stateDir (TaskID cmd)) as [o|err] eqn:Hl; [|by apply IH].
    assert (sID (default (implicitPending (TaskID cmd)) o) = TaskID cmd) as Hid.
    { destruct o as [s|]; [|reflexivity]. by eapply LoadState_named. }
    destruct (applyCommand _ _) as [st'|] eqn:Ha; [|by apply IH].
    apply IH; [by apply SaveState_named|].
    pose proof (applyCommand_sID _ _ _ Ha) as Hid'. rewrite Hid in Hid'.
    unfold SaveState. rewrite lookup_insert, Hid'.
    destruct (decide (TaskID cmd = taskID)) as [Heq|Hne]; [|done].
    rewrite Heq in Hl. unfold LoadState in Hl. rewrite Hfile in Hl.
    injection Hl as <-. cbn [default from_option id] in Ha.
    destruct (applyCommand_follows_table _ _ _ Ha) as [Hv| ->]; [|done].
    rewrite Hdone in Hv. apply ValidTransition_table in Hv.
    exfalso.
    assert (Forall (fun p : string * string => p.1 <> StatusDone) transitionTable)
      as Hall.
    { unfold transitionTable.
      repeat (apply Forall_cons_2; [discriminate|]). apply Forall_nil_2. }
    rewrite Forall_forall in Hall. by apply (Hall _ Hv).
  - unfold runCancelDirect, LoadState. rewrite Hfile.
    cbn [wrapErr default from_option id]. by rewrite Hdone.
  - unfold runRetryDirect, LoadState. rewrite Hfile. cbn [wrapErr].
    rewrite Hdone. by eexists.
Qed.

(** How [executeTask] counts attempts, by exit code.  A call interrupted
    by shutdown leaves the task [pending] with the attempt count it had;
    a call that classifies the child's result, or whose first save
    fails, counts one attempt; a failed call leaves the task [failed]
    and counts one attempt unless the working directory was rejected,
    in which case none is counted. *)
Theorem executeTask_attempt_accounting r e task st :
  - 2 ^ 63 <= Attempt st < 2 ^ 63 - 1 ->
  let res := executeTask r e task st in
  let code := res.1.1 in
  let st' := res.1.2 in
  (code = ExitSignal -> Status st' = StatusPending /\ Attempt st' = Attempt st)
  /\ (code = ExitOK \/ code = ExitFatal -> Attempt st' = Attempt st + 1)
  /\ (code = ExitFailed ->
      Status st' = StatusFailed
      /\ Attempt st' =
           if IsAbs (WorkingDir task) && isDir e (WorkingDir task)
           then Attempt st + 1 else Attempt st).
Proof.
  intros Hrange. cbv zeta.
  assert (wrap64 (Attempt st + 1) = Attempt st + 1) as Hw1.
  { unfold wrap64. rewrite Z.mod_small; lia. }
  assert (wrap64 (Attempt st + 1 - 1) = Attempt st) as Hw2.
  { unfold wrap64. rewrite Z.mod_small; lia. }
  pose proof (executeTask_paths r e task st) as H. cbv zeta in H.
  destruct H as (_ & _ & H). unfold pathOf in H.
  destruct (IsAbs (WorkingDir task)), (isDir e (WorkingDir task));
    cbn [negb orb andb] in *.
  2-4: destruct H as (-> & -> & -> & _); split; [discriminate|];
       (split; [intros [|]; discriminate|done]).
  destruct (preRunSaveFails e).
  { destruct H as (-> & _ & -> & _). rewrite Hw1.
    split; [discriminate|]. split; [done|discriminate]. }
  destruct (buildPromptWithContext _ _ _ _).
  2: { destruct H as (-> & -> & -> & _). rewrite Hw1.
       split; [discriminate|]. split; [intros [|]; discriminate|done]. }
  destruct (child e _ _).
  1,2: destruct H as (-> & -> & -> & _); rewrite Hw1;
       (split; [discriminate|]); (split; [intros [|]; discriminate|done]).
  destruct (shuttingDown e).
  - destruct H as (-> & -> & -> & _). rewrite Hw1, Hw2.
    split; [done|]. split; [intros [|]; discriminate|discriminate].
  - destruct H as (-> & -> & _). rewrite Hw1.
    split; [discriminate|]. split; [done|discriminate].
Qed.

(** [executeTask] saves only states with the id of the state it was
    given; when the first save fails nothing is saved, and otherwise the
    last state saved is the state the call leaves. *)
Theorem executeTask_writes_own_state r e task st :
  let res := executeTask r e task st in
  let code := res.1.1 in
  let st' := res.1.2 in
  let writes := res.2 in
  sID st' = sID st
  /\ Forall (fun w => sID w = sID st) writes
  /\ (code = ExitFatal -> writes = [])
  /\ (code <> ExitFatal -> last writes = Some st').
Proof.
  pose proof (executeTask_paths r e task st) as H. cbv zeta in *.
  destruct H as (H1 & H2 & H). split; [done|]. split; [done|].
  destruct (pathOf r e task st).
  - destruct H as (-> & _ & _ & ->). split; [discriminate|done].
  - destruct H as (-> & _ & _ & ->). split; [done|]. by intros [].
  - destruct H as (-> & _ & _ & ->). split; [discriminate|done].
  - destruct H as (-> & _ & _ & ->). split; [discriminate|done].
  - destruct H as (-> & _ & _ & ->). split; [discriminate|done].
  - destruct H as (-> & _ & ->). split; [discriminate|done].
Qed.







(** Witness: of three tasks, the first in order is [done] and the second
    is cancelled by a queued command; the pass executes the third. *)
Lemma pass_executes_first_actionable_witness :
  exists task code st d',
    runPass sample.theRunner (sample.passEnv sample.threeTasks None)
      sample.zDoneDisk = (Executed task code st, d')
    /\ ID task = "high-pri"
    /\ exists tasks n states sd,
    (LoadTasksAndInit "/home/u/.claude-autopilot/tasks" sample.threeTasks
       "/work/proj/.autopilot/tasks" None (Some ∅)
       (fun _ => (sample.midnight + 3600) * gotime.Second)).1 = Ok (tasks, n)
    /\ loadStates tasks ∅
         (processControlCommands (controlLog sample.zDoneDisk)
            (stateDir sample.zDoneDisk)).2 = (states, sd)
    /\ task ∈ tasks
    /\ isActionable ((sample.midnight + 3600) * gotime.Second)
         (stateOf states task) = true
    /\ (executeTask sample.theRunner (sample.env sample.rateLimitedChild false)
          task (stateOf states task)).1 = (code, st)
    /\ forall t, t ∈ tasks ->
         isActionable ((sample.midnight + 3600) * gotime.Second)
           (stateOf states t) = true ->
         t = task \/ keyLt (sortKey task) (sortKey t).
Proof.
  eexists _, _, _, _. split; [vm_compute; reflexivity|].
  split; [reflexivity|].
  eapply (pass_executes_first_actionable sample.theRunner
            (sample.passEnv sample.threeTasks None) sample.zDoneDisk).
  vm_compute. reflexivity.
Defined.

(** Witness: three tasks, all [done]. *)
Lemma pass_ends_when_drained_witness :
  exists d',
    runPass sample.theRunner (sample.passEnv sample.threeTasks None)
      sample.drainedDisk = (Break, d')
    /\ exists tasks n states sd,
         (LoadTasksAndInit "/home/u/.claude-autopilot/tasks" sample.threeTasks
            "/work/proj/.autopilot/tasks" None (Some ∅)
            (fun _ => (sample.midnight + 3600) * gotime.Second)).1
         = Ok (tasks, n)
         /\ loadStates tasks ∅
              (processControlCommands [] (stateDir sample.drainedDisk)).2
            = (states, sd)
         /\ forall t, t ∈ tasks ->
              Status (stateOf states t) <> StatusPending
              /\ Status (stateOf states t) <> StatusWaiting
              /\ Status (stateOf states t) <> StatusRunning.
Proof.
  eexists. split; [vm_compute; reflexivity|].
  eapply (pass_ends_when_drained sample.theRunner
            (sample.passEnv sample.threeTasks None) sample.drainedDisk).
  vm_compute. reflexivity.
Defined.


(** Witness: a [done] task among three. *)
Lemma done_is_final_witness :
  (forall cmds,
     applyCommands cmds (stateDir sample.drainedDisk) !! "a-task"
     = Some (StateRecord (sample.doneState "a-task")))
  /\ runCancelDirect (stateDir sample.drainedDisk) "a-task"
     = Ok (stateDir sample.drainedDisk)
  /\ exists msg, runRetryDirect (stateDir sample.drainedDisk) "a-task" = Err msg.
Proof.
  apply done_is_final; [|vm_compute; reflexivity|reflexivity].
  apply saveAll_named. intros k s H. rewrite lookup_empty in H. discriminate H.
Defined.

(** Witness: a first run counts attempt 1; the same run interrupted by
    shutdown counts none. *)
Lemma executeTask_attempt_accounting_witness :
  Attempt (executeTask sample.theRunner (sample.env sample.rateLimitedChild false)
             sample.task (implicitPending "fix-login")).1.2 = 1
  /\ Attempt (executeTask sample.theRunner (sample.env sample.rateLimitedChild true)
                sample.task (implicitPending "fix-login")).1.2 = 0.
Proof.
  assert (- 2 ^ 63 <= Attempt (implicitPending "fix-login") < 2 ^ 63 - 1) as Hr
    by (cbn; lia).
  split.
  - destruct (executeTask_attempt_accounting sample.theRunner
                (sample.env sample.rateLimitedChild false) sample.task
                (implicitPending "fix-login") Hr) as (_ & Hok & _).
    apply Hok. left. vm_compute. reflexivity.
  - destruct (executeTask_attempt_accounting sample.theRunner
                (sample.env sample.rateLimitedChild true) sample.task
                (implicitPending "fix-login") Hr) as (Hsig & _ & _).
    apply Hsig. vm_compute. reflexivity.
Defined.



(** ** Further properties: CLI versions *)

Section semver.
Import compat GoStrings.



Lemma CompareSemver_cmpParts a b :
  CompareSemver a b = cmpParts (parseSemverParts a) (parseSemverParts b).
Proof.
  unfold CompareSemver, cmpParts.
  by destruct (parseSemverParts a) as [[a0 a1] a2],
    (parseSemverParts b) as [[b0 b1] b2].
Qed.

(** [CompareSemver] is a total preorder on version strings: it returns
    -1, 0 or 1, a version equals itself, swapping the arguments negates
    the result, the result is 0 exactly when the parsed parts agree, and
    [<=] is transitive. *)
Theorem CompareSemver_total_preorder a b c :
  CompareSemver a b ∈ [-1; 0; 1]
  /\ CompareSemver a a = 0
  /\ CompareSemver b a = - CompareSemver a b
  /\ (CompareSemver a b = 0 <-> parseSemverParts a = parseSemverParts b)
  /\ (CompareSemver a b <= 0 -> CompareSemver b c <= 0 ->
      CompareSemver a c <= 0).
Proof.
  rewrite !CompareSemver_cmpParts. unfold cmpParts.
  destruct (parseSemverParts a) as [[a0 a1] a2],
    (parseSemverParts b) as [[b0 b1] b2],
    (parseSemverParts c) as [[c0 c1] c2]. cbn [fst snd].
  split.
  { repeat (destruct (_ <? _); [apply (bool_decide_unpack _); vm_compute; exact I|]).
    apply (bool_decide_unpack _); vm_compute; exact I. }
  split.
  { rewrite !Z.ltb_irrefl. reflexivity. }
  split.
  { repeat (match goal with |- context [?x <? ?y] =>
              destruct (Z.ltb_spec x y) end); lia. }
  split.
  { split.
    - repeat (match goal with |- context [?x <? ?y] =>
                destruct (Z.ltb_spec x y) end); try lia.
      intros _. repeat f_equal; lia.
    - intros [= -> -> ->]. by rewrite !Z.ltb_irrefl. }
  repeat (match goal with |- context [?x <? ?y] =>
            destruct (Z.ltb_spec x y) end); lia.
Qed.

Lemma substring_all s : String.substring 0 (String.length s) s = s.
Proof. induction s as [|c s IH]; [done|]. cbn. by rewrite IH. Qed.

Lemma TrimPrefix_v_cons c r :
  TrimPrefix (String c r) "v" = if Ascii.eqb c "v" then r else String c r.
Proof.
  unfold TrimPrefix. cbn [GoStrings.HasPrefix]. rewrite HasPrefix_nil, andb_true_r.
  destruct (Ascii.eqb c "v"); [|done].
  cbn [String.length String.substring].
  replace (S (String.length r) - 1)%nat with (String.length r) by lia.
  apply substring_all.
Qed.

Lemma TrimPrefix_v_app a c x :
  c <> "v"%char ->
  TrimPrefix (a +:+ String c x) "v" = TrimPrefix a "v" +:+ String c x.
Proof.
  intros Hc. destruct a as [|y a].
  - change ("" +:+ String c x) with (String c x). rewrite TrimPrefix_v_cons.
    apply Ascii.eqb_neq in Hc. rewrite Hc. reflexivity.
  - rewrite append_cons, !TrimPrefix_v_cons. by destruct (Ascii.eqb y "v").
Qed.

Lemma substring_cons c s n :
  String.substring 0 (S n) (String c s) = String c (String.substring 0 n s).
Proof. reflexivity. Qed.

Lemma cut_before c v :
  (let idx := Index v (String c "") in
   if 0 <=? idx then GoStrings.prefixTo idx v else v) = before c v.
Proof.
  cbv zeta. induction v as [|x r IH]; [done|].
  cbn [Index GoStrings.HasPrefix before]. rewrite HasPrefix_nil, andb_true_r.
  destruct (Ascii.eqb x c); [done|].
  destruct (Z.leb_spec 0 (Index r (String c ""))) as [Hk|Hk].
  - assert (0 <=? Index r (String c "") + 1 = true) as -> by (apply Z.leb_le; lia).
    unfold GoStrings.prefixTo in *.
    replace (Z.to_nat (Index r (String c "") + 1))
      with (S (Z.to_nat (Index r (String c "")))) by lia.
    by rewrite substring_cons, IH.
  - cbn. by rewrite <- IH.
Qed.

Lemma before_app_same c a x : before c (a +:+ String c x) = before c a.
Proof.
  induction a as [|y a IH].
  - change ("" +:+ String c x) with (String c x). cbn.
    by rewrite Ascii.eqb_refl.
  - rewrite append_cons. cbn. by rewrite IH.
Qed.

Lemma before_app c a y :
  before c (a +:+ y)
  = if allBytes (fun x => negb (Ascii.eqb x c)) a
    then a +:+ before c y else before c a.
Proof.
  induction a as [|x a IH]; [done|].
  rewrite append_cons. cbn. destruct (Ascii.eqb x c); [done|]. cbn.
  rewrite IH. by destruct (allBytes _ a).
Qed.

Lemma before_idem c v : before c (before c v) = before c v.
Proof.
  induction v as [|x r IH]; [done|]. cbn.
  destruct (Ascii.eqb x c) eqn:E; [done|]. cbn. by rewrite E, IH.
Qed.

Lemma before_free c v :
  allBytes (fun x => negb (Ascii.eqb x c)) (before c v) = true.
Proof.
  induction v as [|x r IH]; [done|]. cbn.
  destruct (Ascii.eqb x c) eqn:E; [done|]. cbn. by rewrite E, IH.
Qed.

Lemma before_all c v :
  allBytes (fun x => negb (Ascii.eqb x c)) v = true -> before c v = v.
Proof.
  induction v as [|x r IH]; [done|]. cbn.
  destruct (Ascii.eqb x c); [done|]. cbn. intros H. by rewrite IH.
Qed.

(** [parseSemverParts] through [before]. *)
Lemma parseSemverParts_before v :
  parseSemverParts v =
  let fields :=
    SplitN (before "+" (before "-" (TrimPrefix v "v"))) "." 4 in
  let part (i : nat) : Z :=
    match fields !! i with
    | Some f => default 0 (strconv.Atoi f)
    | None => 0
    end in
  (part 0%nat, part 1%nat, part 2%nat).
Proof.
  unfold parseSemverParts. cbv zeta.
  pose proof (cut_before "-" (TrimPrefix v "v")) as H1. cbv zeta in H1.
  rewrite H1.
  pose proof (cut_before "+" (before "-" (TrimPrefix v "v"))) as H2.
  cbv zeta in H2. rewrite H2. reflexivity.
Qed.

Lemma parseSemverParts_prerelease a x :
  parseSemverParts (a +:+ "-" +:+ x) = parseSemverParts a.
Proof.
  rewrite !parseSemverParts_before. cbv zeta.
  change (a +:+ "-" +:+ x) with (a +:+ String "-" x).
  rewrite TrimPrefix_v_app by discriminate.
  by rewrite before_app_same.
Qed.

Lemma parseSemverParts_build a x :
  parseSemverParts (a +:+ "+" +:+ x) = parseSemverParts a.
Proof.
  rewrite !parseSemverParts_before. cbv zeta.
  change (a +:+ "+" +:+ x) with (a +:+ String "+" x).
  rewrite TrimPrefix_v_app by discriminate.
  set (a' := TrimPrefix a "v").
  rewrite before_app.
  destruct (allBytes (fun x0 => negb (Ascii.eqb x0 "-")) a') eqn:E; [|done].
  rewrite (before_all "-" a' E).
  change (before "-" (String "+" x)) with (String "+" (before "-" x)).
  by rewrite before_app_same.
Qed.

(** Whatever follows a dash or a plus sign takes no part in a
    comparison, on either side, and neither does a leading [v]. *)
Theorem CompareSemver_ignores_suffix a b x :
  CompareSemver (a +:+ "-" +:+ x) b = CompareSemver a b
  /\ CompareSemver (a +:+ "+" +:+ x) b = CompareSemver a b
  /\ CompareSemver b (a +:+ "-" +:+ x) = CompareSemver b a
  /\ CompareSemver b (a +:+ "+" +:+ x) = CompareSemver b a
  /\ (GoStrings.HasPrefix a "v" = false ->
      CompareSemver ("v" +:+ a) b = CompareSemver a b
      /\ CompareSemver b ("v" +:+ a) = CompareSemver b a).
Proof.
  rewrite !CompareSemver_cmpParts, parseSemverParts_prerelease,
    parseSemverParts_build.
  repeat (split; [reflexivity|]).
  intros Hv.
  assert (parseSemverParts ("v" +:+ a) = parseSemverParts a) as ->; [|done].
  unfold parseSemverParts.
  change ("v" +:+ a) with (String "v" a). rewrite TrimPrefix_v_cons.
  change (Ascii.eqb "v" "v") with true. cbv iota.
  assert (TrimPrefix a "v" = a) as ->; [|done].
  unfold TrimPrefix. by rewrite Hv.
Qed.

Lemma allBytes_substring p n m s :
  allBytes p s = true -> allBytes p (String.substring n m s) = true.
Proof.
  revert n m. induction s as [|c s IH]; intros n m H.
  - by destruct n, m.
  - cbn in H. apply andb_true_iff in H as [Hc Hs].
    destruct n as [|n]; cbn.
    + destruct m as [|m]; [done|]. cbn. by rewrite Hc, IH.
    + by apply IH.
Qed.

Lemma SplitN_allBytes p s sep n :
  allBytes p s = true ->
  Forall (fun f => allBytes p f = true) (SplitN s sep n).
Proof.
  revert s. induction n as [|n IH]; intros s H; [constructor|].
  cbn [SplitN]. destruct n as [|n]; [by repeat constructor|].
  destruct (Index s sep <? 0); [by repeat constructor|].
  constructor.
  - by apply allBytes_substring.
  - apply IH. by apply allBytes_substring.
Qed.

Lemma digitsFrom_nonneg acc s n :
  0 <= acc -> strconv.digitsFrom acc s = Some n -> 0 <= n.
Proof.
  revert acc. induction s as [|c s IH]; intros acc Hacc; cbn.
  - by intros [= <-].
  - unfold strconv.isDigit. destruct (_ && _) eqn:E; [|discriminate].
    apply andb_true_iff in E as [E1 E2]. apply N.leb_le in E1.
    apply IH. lia.
Qed.

Lemma Atoi_nonneg f n :
  allBytes (fun x => negb (Ascii.eqb x "-")) f = true ->
  strconv.Atoi f = Some n -> 0 <= n.
Proof.
  unfold strconv.Atoi. destruct f as [|c r]; [discriminate|].
  cbn [allBytes]. intros H. apply andb_true_iff in H as [Hc _].
  apply negb_true_iff in Hc. rewrite Hc.
  destruct (Ascii.eqb c "+").
  - destruct r as [|c' r']; [discriminate|].
    destruct (strconv.digitsFrom 0 (String c' r')) as [k|] eqn:E; [|discriminate].
    apply digitsFrom_nonneg in E; [|done].
    destruct (_ && _); [|discriminate]. by intros [= <-].
  - destruct (strconv.digitsFrom 0 (String c r)) as [k|] eqn:E; [|discriminate].
    apply digitsFrom_nonneg in E; [|done].
    destruct (_ && _); [|discriminate]. by intros [= <-].
Qed.

Lemma before_allBytes p c v :
  allBytes p v = true -> allBytes p (before c v) = true.
Proof.
  induction v as [|x r IH]; [done|]. cbn. intros H.
  apply andb_true_iff in H as [Hx Hr].
  destruct (Ascii.eqb x c); [done|]. cbn. by rewrite Hx, IH.
Qed.

Lemma parseSemverParts_nonneg v :
  0 <= (parseSemverParts v).1.1
  /\ 0 <= (parseSemverParts v).1.2
  /\ 0 <= (parseSemverParts v).2.
Proof.
  rewrite parseSemverParts_before. cbv zeta. cbn [fst snd].
  set (fields := SplitN _ "." 4).
  assert (Forall (fun f => allBytes (fun x => negb (Ascii.eqb x "-")) f = true)
            fields) as Hall.
  { apply SplitN_allBytes, before_allBytes, before_free. }
  assert (forall i, 0 <= match fields !! i with
                         | Some f => default 0 (strconv.Atoi f)
                         | None => 0
                         end) as H.
  { intros i. destruct (fields !! i) as [f|] eqn:E; [|done].
    rewrite Forall_forall in Hall.
    assert (f ∈ fields) as Hin by (by eapply list_elem_of_lookup_2).
    destruct (strconv.Atoi f) as [n|] eqn:Ea; [|done].
    by eapply Atoi_nonneg; [apply Hall|]. }
  repeat split; apply H.
Qed.


(** The parts of a version are never negative, and the table knows a
    version exactly when its major part is 1 or 2 and (minor, patch) is
    at most (99, 99): the entry is then the one of that major part. *)
Theorem LookupCompat_ranges v :
  let major := (parseSemverParts v).1.1 in
  let minor := (parseSemverParts v).1.2 in
  let patch := (parseSemverParts v).2 in
  0 <= major /\ 0 <= minor /\ 0 <= patch
  /\ LookupCompat v =
       if bool_decide (minor < 99 \/ (minor = 99 /\ patch <= 99))
       then if major =? 2 then Some entry2x
            else if major =? 1 then Some entry1x
            else None
       else None.
Proof.
  cbv zeta. destruct (parseSemverParts_nonneg v) as (H0 & H1 & H2).
  repeat (split; [done|]).
  unfold LookupCompat, compat.defaultCompat. cbn [lookupIn].
  rewrite !CompareSemver_cmpParts.
  destruct (parseSemverParts v) as [[ma mi] pa]. cbn [fst snd] in *.
  change (parseSemverParts (compat.MinVersion (compat.mkEntry "2.0.0" "2.99.99" true true 75)))
    with (2, 0, 0).
  change (parseSemverParts (compat.MaxVersion (compat.mkEntry "2.0.0" "2.99.99" true true 75)))
    with (2, 99, 99).
  change (parseSemverParts (compat.MinVersion (compat.mkEntry "1.0.0" "1.99.99" false false (-1))))
    with (1, 0, 0).
  change (parseSemverParts (compat.MaxVersion (compat.mkEntry "1.0.0" "1.99.99" false false (-1))))
    with (1, 99, 99).
  unfold cmpParts. cbn [fst snd].
  destruct (decide (mi < 99 \/ (mi = 99 /\ pa <= 99))) as [Hin|Hout].
  - rewrite bool_decide_eq_true_2 by done.
    destruct (Z.eqb_spec ma 2) as [->|Hne2].
    + cbn. repeat (match goal with |- context [?x <? ?y] =>
                destruct (Z.ltb_spec x y) end); cbn; try reflexivity; lia.
    + destruct (Z.eqb_spec ma 1) as [->|Hne1].
      * cbn. repeat (match goal with |- context [?x <? ?y] =>
                destruct (Z.ltb_spec x y) end); cbn; try reflexivity; lia.
      * repeat (match goal with |- context [?x <? ?y] =>
                destruct (Z.ltb_spec x y) end); cbn; try reflexivity; lia.
  - rewrite bool_decide_eq_false_2 by done.
    repeat (match goal with |- context [?x <? ?y] =>
                destruct (Z.ltb_spec x y) end); cbn; try reflexivity; lia.
Qed.

(** The adapter chosen for a version is one of two.  For a version of
    the 1.x row it supports neither stream-json nor resume and has no
    rate-limit exit code.  For every other version, listed or unknown,
    it supports both, has the rate-limit exit code 75 and builds the
    arguments of the safe adapter. *)
Theorem adapter_for_version v :
  let a := compat.NewAdapter (LookupCompat v) in
  (LookupCompat v = Some entry1x
   /\ compat.SupportsStreamJSON a = false
   /\ compat.SupportsResume a = false
   /\ compat.RateLimitExitCode a = -1)
  \/ (LookupCompat v <> Some entry1x
      /\ compat.SupportsStreamJSON a = true
      /\ compat.SupportsResume a = true
      /\ compat.RateLimitExitCode a = 75
      /\ forall prompt model sessionID skipPerms extraFlags,
           compat.BuildArgs a prompt model sessionID skipPerms extraFlags
           = compat.BuildArgs compat.safeAdapter prompt model sessionID
               skipPerms extraFlags).
Proof.
  cbv zeta. unfold LookupCompat, compat.defaultCompat. cbn [lookupIn].
  destruct (_ && _).
  { right. split; [discriminate|]. repeat (split; [reflexivity|]). reflexivity. }
  destruct (_ && _).
  { left. repeat split. }
  right. split; [discriminate|]. repeat (split; [reflexivity|]). reflexivity.
Qed.

End semver.

(** ** Further properties: reset times without clock changes *)

Section civil.
Import gotime.


Lemma allFrom_spec f n z :
  allFrom f n z = true -> forall k, z <= k < z + Z.of_nat n -> f k = true.
Proof.
  revert z. induction n as [|n IH]; intros z H k Hk; [lia|].
  cbn [allFrom] in H. apply andb_true_iff in H as [H0 H1].
  destruct (decide (k = z)) as [->|Hne]; [done|].
  apply (IH (z + 1)); [done|lia].
Qed.


Lemma eraDay_checked : allFrom eraDayOK (Z.to_nat 146097) 0 = true.
Proof. vm_compute. reflexivity. Qed.

Lemma eraDay_ok doe :
  0 <= doe < 146097 ->
  0 <= yoeOf doe <= 399 /\ 0 <= mpOf doe <= 11.
Proof.
  intros H. pose proof (allFrom_spec _ _ _ eraDay_checked doe) as Hc.
  unfold eraDayOK in Hc. rewrite !andb_true_iff, !Z.leb_le in Hc.
  assert (0 <= doe < 0 + Z.of_nat (Z.to_nat 146097)) as Hr by lia.
  destruct (Hc Hr) as [[[? ?] ?] ?]. lia.
Qed.

(** [daysFromCivil] inverts [civilFromDays], whose month is in 1..12. *)
Lemma civil_round_trip z :
  let '(y, m, d) := civilFromDays z in
  daysFromCivil y m d = z /\ 1 <= m <= 12.
Proof.
  unfold civilFromDays. cbv zeta.
  set (z' := z + 719468).
  set (era := z' / 146097).
  set (doe := z' - era * 146097).
  assert (0 <= doe < 146097) as Hdoe.
  { subst doe era. pose proof (Z.mod_pos_bound z' 146097 ltac:(lia)) as H.
    rewrite Z.mod_eq in H by lia. lia. }
  destruct (eraDay_ok doe Hdoe) as [Hyoe Hmp].
  unfold mpOf in Hmp. cbv zeta in Hmp. fold (yoeOf doe).
  set (yoe := yoeOf doe) in *.
  set (doy := doe - (365 * yoe + yoe / 4 - yoe / 100)) in *.
  set (mp := (5 * doy + 2) / 153) in *.
  set (m := if mp <? 10 then mp + 3 else mp - 9).
  assert (1 <= m <= 12) as Hm by (subst m; destruct (Z.ltb_spec mp 10); lia).
  split; [|exact Hm].
  unfold daysFromCivil. cbv zeta.
  assert ((if m <=? 2 then (if m <=? 2 then yoe + era * 400 + 1 else yoe + era * 400) - 1
           else (if m <=? 2 then yoe + era * 400 + 1 else yoe + era * 400))
          = yoe + era * 400) as ->.
  { destruct (m <=? 2); lia. }
  assert ((yoe + era * 400) / 400 = era) as ->.
  { symmetry. apply (Z.div_unique _ _ _ yoe); lia. }
  assert ((if 2 <? m then m - 3 else m + 9) = mp) as ->.
  { subst m. destruct (Z.ltb_spec mp 10).
    - destruct (Z.ltb_spec 2 (mp + 3)); lia.
    - destruct (Z.ltb_spec 2 (mp - 9)); lia. }
  replace (yoe + era * 400 - era * 400) with yoe by lia.
  subst doy doe z'. generalize (yoe / 4), (yoe / 100), ((153 * mp + 2) / 5).
  intros. lia.
Qed.

Lemma Date_fixed year month day hour min loc :
  transitions loc = [] -> 1 <= month <= 12 ->
  Date year month day hour min loc
  = (daysFromCivil year month day * 86400 + hour * 3600 + min * 60
     - initialOffset loc) * Second.
Proof.
  intros Htr Hm. unfold Date. cbv zeta.
  assert ((month - 1) / 12 = 0) as -> by (apply Z.div_small; lia).
  assert ((month - 1) mod 12 = month - 1) as -> by (apply Z.mod_small; lia).
  replace (year + 0) with year by lia.
  replace (month - 1 + 1) with month by lia.
  unfold lookup. rewrite Htr. cbn [lookupFrom].
  destruct (Z.eqb_spec (initialOffset loc) 0) as [->|Hne]; [f_equal; lia|].
  reflexivity.
Qed.

Lemma candidate_today loc now hour minute :
  transitions loc = [] -> 0 <= hour -> 0 <= minute ->
  now < timeparse.candidate loc now None hour minute + 24 * Hour.
Proof.
  intros Htr Hh Hmin. unfold timeparse.candidate, dateIn. cbv zeta.
  unfold lookup. rewrite Htr. cbn [lookupFrom].
  set (off := initialOffset loc).
  set (D := (now / Second + off) / 86400).
  pose proof (civil_round_trip D) as Hrt.
  destruct (civilFromDays D) as [[y m] d]. destruct Hrt as [Hrt Hm].
  rewrite Date_fixed by done. rewrite Hrt. fold off.
  assert (now < (now / Second + 1) * Second) as H1.
  { unfold Second. pose proof (Z.mod_pos_bound now 1000000000 ltac:(lia)).
    rewrite Z.mod_eq in H by lia. lia. }
  assert (now / Second + off < (D + 1) * 86400) as H2.
  { subst D. pose proof (Z.mod_pos_bound (now / Second + off) 86400 ltac:(lia)) as H.
    rewrite Z.mod_eq in H by lia. lia. }
  unfold Hour, Minute, Second in *. lia.
Qed.

Lemma atoiFrom_nonneg acc s n :
  0 <= acc -> timeparse.atoiFrom acc s = Some n -> 0 <= n.
Proof.
  revert acc. induction s as [|c s IH]; intros acc Hacc; cbn.
  - by intros [= <-].
  - unfold regexp.isDigit. destruct (_ && _) eqn:E; [|discriminate].
    apply andb_true_iff in E as [E1 E2]. apply N.leb_le in E1.
    apply IH. lia.
Qed.

Lemma timeparse_Atoi_nonneg s : 0 <= default 0 (timeparse.Atoi s).
Proof.
  unfold timeparse.Atoi. destruct s as [|c r]; [done|].
  destruct (timeparse.atoiFrom 0 (String c r)) as [n|] eqn:E; [|done].
  by apply atoiFrom_nonneg in E.
Qed.

Lemma extractTime_range s hour minute :
  timeparse.extractTime s = inr (hour, minute) ->
  0 <= hour <= 23 /\ 0 <= minute.
Proof.
  unfold timeparse.extractTime.
  destruct (regexp.FindStringSubmatch timeparse.reTime12 s) as [m|].
  - cbv zeta.
    pose proof (timeparse_Atoi_nonneg (regexp.group m 1)) as Hh.
    pose proof (timeparse_Atoi_nonneg (regexp.group m 2)) as Hm.
    set (h := default 0 (timeparse.Atoi (regexp.group m 1))) in *.
    destruct (Z.ltb_spec h 1); [discriminate|].
    destruct (Z.ltb_spec 12 h); [discriminate|]. cbn [orb].
    intros [= <- <-]. split.
    + destruct (String.eqb _ "am"); destruct (Z.eqb_spec h 12); cbn; lia.
    + by destruct (String.eqb (regexp.group m 2) "").
  - destruct (regexp.FindStringSubmatch timeparse.reTime24 s) as [m|];
      [|discriminate]. cbv zeta.
    destruct (Z.ltb_spec (default 0 (timeparse.Atoi (regexp.group m 1))) 0);
      [discriminate|].
    destruct (Z.ltb_spec 23 (default 0 (timeparse.Atoi (regexp.group m 1))));
      [discriminate|].
    destruct (Z.ltb_spec (default 0 (timeparse.Atoi (regexp.group m 2))) 0);
      [discriminate|].
    destruct (Z.ltb_spec 59 (default 0 (timeparse.Atoi (regexp.group m 2))));
      [discriminate|]. cbn [orb].
    intros [= <- <-]. lia.
Qed.

Lemma extractTimezone_loaded h s loc s' :
  timeparse.extractTimezone h s = (Some loc, s') ->
  exists name, timeparse.LoadLocation h name = Some loc.
Proof.
  unfold timeparse.extractTimezone.
  destruct (regexp.FindStringSubmatch timeparse.reTimezone s) as [m|];
    [|discriminate].
  destruct (timeparse.LoadLocation h (regexp.group m 1)) as [l|] eqn:E;
    [|discriminate].
  intros [= <- _]. by eexists.
Qed.

Lemma ParseResetTime_fixed_zone h s r :
  transitions (timeparse.Local h) = [] ->
  (forall name loc,
     timeparse.LoadLocation h name = Some loc -> transitions loc = []) ->
  timeparse.ParseResetTime h s = inr r ->
  timeparse.Now h <= r.
Proof.
  intros Hlocal Hdb. unfold timeparse.ParseResetTime.
  destruct (String.eqb s ""); [discriminate|].
  destruct (timeparse.extractTimezone h s) as [tz s'] eqn:Htz.
  set (loc := default (timeparse.Local h) tz).
  assert (transitions loc = []) as Hloc.
  { subst loc. destruct tz as [l|]; [|done].
    apply extractTimezone_loaded in Htz as [name Hname]. by eapply Hdb. }
  destruct (timeparse.extractTime s') as [e|[hour minute]] eqn:Ht; [discriminate|].
  apply extractTime_range in Ht as [Hh Hm]. cbv zeta.
  destruct (Z.ltb_spec (timeparse.candidate loc (timeparse.Now h)
                          (timeparse.extractDate s') hour minute)
              (timeparse.Now h)) as [Hlt|Hge].
  - destruct (timeparse.extractDate s'); [discriminate|].
    intros [= <-].
    pose proof (candidate_today loc (timeparse.Now h) hour minute Hloc
                  ltac:(lia) Hm). lia.
  - by intros [= <-].
Qed.

(** In zones without a clock change (the local zone and every zone of
    the database), no instant that [ParseResetTime] returns lies before
    now. *)
Theorem ParseResetTime_fixed_zone_not_past h s r :
  transitions (timeparse.Local h) = [] ->
  (forall name loc,
     timeparse.LoadLocation h name = Some loc -> transitions loc = []) ->
  timeparse.ParseResetTime h s = inr r ->
  timeparse.Now h <= r.
Proof. apply ParseResetTime_fixed_zone. Qed.

(** Witness: at noon UTC the string [9:15 AM] means tomorrow. *)
Lemma ParseResetTime_fixed_zone_not_past_witness :
  timeparse.ParseResetTime
    (sample.hostUTC ((sample.midnight + 12 * 3600) * gotime.Second))
    "9:15 AM"
  = inr ((sample.midnight + 86400 + 9 * 3600 + 900) * gotime.Second)
  /\ (sample.midnight + 12 * 3600) * gotime.Second
     <= (sample.midnight + 86400 + 9 * 3600 + 900) * gotime.Second.
Proof.
  split; [vm_compute; reflexivity|].
  apply (ParseResetTime_fixed_zone_not_past
           (sample.hostUTC ((sample.midnight + 12 * 3600) * gotime.Second))
           "9:15 AM"); [reflexivity|discriminate|vm_compute; reflexivity].
Defined.

Lemma extractResetTime_parsed h text t :
  detector.extractResetTime h text = Some t ->
  exists s, timeparse.ParseResetTime h s = inr t.
Proof.
  unfold detector.extractResetTime.
  destruct (regexp.FindStringSubmatch detector.resetTimeRegex text) as [m|];
    [|discriminate].
  cbv zeta. destruct (String.eqb _ ""); [discriminate|].
  destruct (timeparse.ParseResetTime h _) as [e|t'] eqn:E; [discriminate|].
  intros [= <-]. by eexists.
Qed.

(** [Detect] reports a reset time only with the result [RateLimited]
    (hence never for exit code 0); the time is one that
    [ParseResetTime] returned, and in zones without a clock change it
    does not lie before now. *)
Theorem Detect_reset_time h d exitCode stdout stderr t :
  detector.ResetTime (detector.Detect h d exitCode stdout stderr) = Some t ->
  detector.Result (detector.Detect h d exitCode stdout stderr)
  = detector.RateLimited
  /\ exitCode <> 0
  /\ (exists s, timeparse.ParseResetTime h s = inr t)
  /\ (transitions (timeparse.Local h) = [] ->
      (forall name loc,
         timeparse.LoadLocation h name = Some loc -> transitions loc = []) ->
      timeparse.Now h <= t).
Proof.
  unfold detector.Detect.
  destruct (Z.eqb_spec exitCode 0) as [H0|H0]; [discriminate|].
  assert (forall text,
            detector.extractResetTime h text = Some t ->
            (exists s, timeparse.ParseResetTime h s = inr t)
            /\ (transitions (timeparse.Local h) = [] ->
                (forall name loc,
                   timeparse.LoadLocation h name = Some loc ->
                   transitions loc = []) ->
                timeparse.Now h <= t)) as Hx.
  { intros text Hx. apply extractResetTime_parsed in Hx as [s Hs].
    split; [by eexists|]. intros H1 H2.
    by eapply ParseResetTime_fixed_zone. }
  destruct (_ && _).
  { cbn. intros H. repeat (split; [done|]). by eapply Hx. }
  destruct (detector.matchPatterns d stderr).
  { cbn. intros H. repeat (split; [done|]). by eapply Hx. }
  destruct (detector.matchPatterns d stdout); [|discriminate].
  cbn. intros H. repeat (split; [done|]). by eapply Hx.
Qed.

(** Witness: a rate-limit message on stderr that names 6pm. *)
Lemma Detect_reset_time_witness :
  detector.Result
    (detector.Detect (sample.hostUTC ((sample.midnight + 3600) * Second))
       (detector.NewDetector ["rate limit"] 75) 1 "ok"
       "Error: Rate Limit reached; will reset at 6pm.")
  = detector.RateLimited
  /\ (sample.midnight + 3600) * Second <= (sample.midnight + 18 * 3600) * Second.
Proof.
  destruct (Detect_reset_time (sample.hostUTC ((sample.midnight + 3600) * Second))
              (detector.NewDetector ["rate limit"] 75) 1 "ok"
              "Error: Rate Limit reached; will reset at 6pm."
              ((sample.midnight + 18 * 3600) * Second))
    as (Hr & _ & _ & Ht); [vm_compute; reflexivity|].
  split; [exact Hr|]. apply Ht; [reflexivity|discriminate].
Defined.

End civil.

(** ** Further properties: matchers *)

Section matchers_facts.
Import matchers.



Lemma toSet_lookup_gen items (s : gmap string bool) p :
  default false (foldl (fun s item => <[item := true]> s) s items !! p)
  = bool_decide (p ∈ items) || default false (s !! p).
Proof.
  revert s. induction items as [|x items IH]; intros s; cbn [foldl].
  - rewrite bool_decide_eq_false_2 by apply not_elem_of_nil. done.
  - rewrite IH, lookup_insert.
    destruct (decide (x = p)) as [->|Hne].
    + rewrite (bool_decide_eq_true_2 (p ∈ p :: items)) by left.
      cbn. by rewrite orb_true_r.
    + destruct (decide (p ∈ items)) as [Hin|Hout].
      * rewrite !bool_decide_eq_true_2; [done|by right|done].
      * rewrite !bool_decide_eq_false_2; [done| |done].
        intros [->|H]%elem_of_cons; done.
Qed.

Lemma toSet_lookup items p :
  default false (toSet items !! p) = bool_decide (p ∈ items).
Proof.
  unfold toSet. rewrite toSet_lookup_gen, lookup_empty. cbn. by rewrite orb_false_r.
Qed.

Lemma filterExcluded_filter patterns excl :
  filterExcluded patterns (toSet excl) = filter (fun p => p ∉ excl) patterns.
Proof.
  induction patterns as [|p rest IH]; [done|]. cbn [filterExcluded].
  rewrite toSet_lookup, filter_cons, IH.
  destruct (decide (p ∈ excl)) as [Hin|Hout].
  - rewrite bool_decide_eq_true_2 by done. by rewrite decide_False by (by intros H).
  - rewrite bool_decide_eq_false_2 by done. by rewrite decide_True by done.
Qed.

Lemma appendUniqueFrom_spec existing base additions :
  (forall p, default false (existing !! p) = bool_decide (p ∈ base)) ->
  exists added,
    appendUniqueFrom existing base additions = base ++ added
    /\ NoDup added
    /\ added `sublist_of` additions
    /\ forall p, p ∈ added <-> p ∈ additions /\ p ∉ base.
Proof.
  revert existing base. induction additions as [|a rest IH]; intros existing base Hex.
  { exists []. rewrite app_nil_r. split; [done|]. split; [constructor|].
    split; [done|]. intros p. split; [by intros H%elem_of_nil|].
    by intros [H%elem_of_nil _]. }
  cbn [appendUniqueFrom]. rewrite Hex.
  destruct (decide (a ∈ base)) as [Hin|Hout].
  - rewrite bool_decide_eq_true_2 by done.
    destruct (IH existing base Hex) as (added & -> & Hnd & Hsub & Hmem).
    exists added. split; [done|]. split; [done|].
    split; [by apply sublist_cons|].
    intros p. rewrite Hmem, elem_of_cons. split; [tauto|].
    intros [[->|H] Hp]; [done|tauto].
  - rewrite bool_decide_eq_false_2 by done.
    destruct (IH (<[a := true]> existing) (base ++ [a])) as (added & -> & Hnd & Hsub & Hmem).
    { intros p. rewrite lookup_insert.
      destruct (decide (a = p)) as [->|Hne].
      - cbn. symmetry. apply bool_decide_eq_true_2.
        apply elem_of_app. right. left.
      - rewrite Hex. apply bool_decide_ext.
        rewrite elem_of_app, list_elem_of_singleton. split; [tauto|].
        intros [H|H]; [done|]. by subst. }
    exists (a :: added). split; [by rewrite <- app_assoc|].
    split.
    { constructor; [|done]. rewrite Hmem. intros [_ H]. apply H.
      apply elem_of_app. right. left. }
    split; [by apply sublist_skip|].
    intros p. rewrite !elem_of_cons, Hmem, elem_of_app, list_elem_of_singleton.
    destruct (decide (p = a)) as [->|Hne]; [tauto|]. tauto.
Qed.

Lemma appendUnique_spec base additions :
  exists added,
    appendUnique base additions = base ++ added
    /\ NoDup added
    /\ added `sublist_of` additions
    /\ forall p, p ∈ added <-> p ∈ additions /\ p ∉ base.
Proof. apply appendUniqueFrom_spec. intros p. apply toSet_lookup. Qed.

Lemma merge_rate_limit base user :
  let kept :=
    filter (fun p => p ∉ ExcludeRateLimitPatterns user) (RateLimitPatterns base) in
  exists added,
    RateLimitPatterns (merge base user) = kept ++ added
    /\ NoDup added
    /\ added `sublist_of` RateLimitPatterns user
    /\ forall p, p ∈ added <-> p ∈ RateLimitPatterns user /\ p ∉ kept.
Proof.
  cbv zeta. unfold merge. cbv zeta. cbn [RateLimitPatterns].
  rewrite filterExcluded_filter. apply appendUnique_spec.
Qed.

Lemma merge_rate_limit_mem base user p :
  p ∈ RateLimitPatterns (merge base user) <->
  (p ∈ RateLimitPatterns base /\ p ∉ ExcludeRateLimitPatterns user)
  \/ p ∈ RateLimitPatterns user.
Proof.
  destruct (merge_rate_limit base user) as (added & -> & _ & _ & Hmem).
  rewrite elem_of_app, Hmem, list_elem_of_filter.
  destruct (decide (p ∈ RateLimitPatterns base /\ p ∉ ExcludeRateLimitPatterns user));
    tauto.
Qed.

(** The merged rate-limit patterns are the defaults that the user does
    not exclude, in their order, followed by the user's patterns that
    are not among those, each once and in the user's order; a pattern is
    in the result exactly when it is a default that is not excluded or
    one of the user's; defaults without repetition merge without
    repetition.  The prompt patterns merge in the same way, and the
    result carries no exclude list. *)
Theorem merge_patterns base user :
  let kept :=
    filter (fun p => p ∉ ExcludeRateLimitPatterns user) (RateLimitPatterns base) in
  let merged := RateLimitPatterns (merge base user) in
  (exists added,
     merged = kept ++ added
     /\ NoDup added
     /\ added `sublist_of` RateLimitPatterns user
     /\ forall p, p ∈ added <-> p ∈ RateLimitPatterns user /\ p ∉ kept)
  /\ (forall p,
        p ∈ merged <->
        (p ∈ RateLimitPatterns base /\ p ∉ ExcludeRateLimitPatterns user)
        \/ p ∈ RateLimitPatterns user)
  /\ (NoDup (RateLimitPatterns base) -> NoDup merged)
  /\ (forall p,
        p ∈ PromptPatterns (merge base user) <->
        (p ∈ PromptPatterns base /\ p ∉ ExcludePromptPatterns user)
        \/ p ∈ PromptPatterns user)
  /\ ExcludeRateLimitPatterns (merge base user) = []
  /\ ExcludePromptPatterns (merge base user) = [].
Proof.
  cbv zeta. split; [apply merge_rate_limit|].
  split; [apply merge_rate_limit_mem|].
  split.
  { intros Hb. destruct (merge_rate_limit base user) as (added & -> & Hnd & _ & Hmem).
    apply NoDup_app. split; [by apply NoDup_filter|].
    split; [|done]. intros p Hk Ha. apply Hmem in Ha. tauto. }
  split; [|done].
  intros p. unfold merge. cbv zeta. cbn [PromptPatterns].
  rewrite filterExcluded_filter.
  destruct (appendUnique_spec
              (filter (fun p => p ∉ ExcludePromptPatterns user) (PromptPatterns base))
              (PromptPatterns user)) as (added & -> & _ & _ & Hmem).
  rewrite elem_of_app, Hmem, list_elem_of_filter.
  destruct (decide (p ∈ PromptPatterns base /\ p ∉ ExcludePromptPatterns user));
    tauto.
Qed.

End matchers_facts.





(** ** Further properties: waking up, temp files, resume context *)


Lemma findEarliestFrom_spec earliest tasks states :
  match runner.findEarliestFrom earliest tasks states with
  | None => earliest = None /\ Forall (fun t => resumeOf states t = None) tasks
  | Some e =>
      (earliest = Some e \/ Exists (fun t => resumeOf states t = Some e) tasks)
      /\ (forall e0, earliest = Some e0 -> e <= e0)
      /\ Forall (fun t => forall ra, resumeOf states t = Some ra -> e <= ra) tasks
  end.
Proof.
  revert earliest. induction tasks as [|t rest IH]; intros earliest.
  { cbn. destruct earliest as [e|].
    - split; [by left|]. split; [by intros e0 [= <-]|constructor].
    - split; [done|constructor]. }
  cbn [runner.findEarliestFrom].
  assert (forall earliest',
    (resumeOf states t = None /\ earliest' = earliest
     \/ exists ra, resumeOf states t = Some ra
          /\ earliest' = Some (match earliest with
                               | None => ra
                               | Some e => if ra <? e then ra else e
                               end)) ->
    match runner.findEarliestFrom earliest' rest states with
    | Some e =>
       (earliest = Some e \/ Exists (fun t0 => resumeOf states t0 = Some e) (t :: rest))
       /\ (forall e0, earliest = Some e0 -> e <= e0)
       /\ Forall (fun t0 => forall ra, resumeOf states t0 = Some ra -> e <= ra) (t :: rest)
    | None => earliest = None /\ Forall (fun t0 => resumeOf states t0 = None) (t :: rest)
    end) as Hstep.
  { intros earliest' Hcase. specialize (IH earliest').
    destruct (runner.findEarliestFrom earliest' rest states) as [e|].
    - destruct IH as (Hsrc & Hle & Hall).
      destruct Hcase as [[Hnone ->]|(ra & Hra & ->)].
      + split; [destruct Hsrc; [by left|right; by apply Exists_cons_tl]|].
        split; [done|]. constructor; [|done]. intros ra. by rewrite Hnone.
      + specialize (Hle _ eq_refl).
        split.
        { destruct Hsrc as [[= Hsrc]|Hsrc]; [|right; by apply Exists_cons_tl].
          destruct earliest as [e1|].
          - revert Hsrc. destruct (Z.ltb_spec ra e1); intros <-.
            + right. apply Exists_cons_hd. exact Hra.
            + by left.
          - subst e. right. apply Exists_cons_hd. exact Hra. }
        split.
        { intros e0 ->. destruct (Z.ltb_spec ra e0); lia. }
        constructor; [|done]. intros ra'. rewrite Hra. intros [= <-].
        destruct earliest as [e1|]; [|done]. destruct (Z.ltb_spec ra e1); lia.
    - destruct IH as [He Hall].
      destruct Hcase as [[Hnone Heq]|(ra & Hra & Heq)].
      + split; [congruence|]. by constructor.
      + rewrite He in Heq. discriminate Heq. }
  unfold resumeOf in Hstep. 
  destruct (states !! ID t) as [st|] eqn:Est; cbn [mbind option_bind] in *.
  - destruct (ResumeAt st) as [ra|] eqn:Era.
    + apply Hstep. right. exists ra. split; [done|].
      destruct earliest as [e|]; [|done]. by destruct (ra <? e).
    + apply Hstep. by left.
  - apply Hstep. by left.
Qed.

(** [findEarliestResume] returns the least resume time among the states
    of the given tasks, and nothing when none of them has one.  For the
    tasks the loop found waiting for a future resume time, if there is
    one, it returns a time, and that time is after now: the loop's
    branch for a missing time is never taken. *)
Theorem findEarliestResume_earliest tasks states :
  match runner.findEarliestResume tasks states with
  | None => Forall (fun t => resumeOf states t = None) tasks
  | Some e =>
      Exists (fun t => resumeOf states t = Some e) tasks
      /\ Forall (fun t => forall ra, resumeOf states t = Some ra -> e <= ra) tasks
  end
  /\ forall now all,
       tasks = waitingFuture now all states -> tasks <> [] ->
       exists e, runner.findEarliestResume tasks states = Some e /\ now < e.
Proof.
  pose proof (findEarliestFrom_spec None tasks states) as H.
  fold (runner.findEarliestResume tasks states) in H.
  split.
  { destruct (runner.findEarliestResume tasks states) as [e|].
    - destruct H as ([H|H] & _ & Hall); [discriminate|done].
    - by destruct H. }
  intros now all Htasks Hne.
  assert (Forall (fun t => exists ra, resumeOf states t = Some ra /\ now < ra) tasks)
    as Hfut.
  { subst tasks. apply Forall_forall. intros t Ht.
    apply list_elem_of_filter in Ht as [Ht _]. unfold isWaitingFuture in Ht.
    apply andb_true_iff in Ht as [_ Ht]. unfold stateOf in Ht. unfold resumeOf.
    destruct (states !! ID t) as [st|]; cbn in *; [|discriminate].
    destruct (ResumeAt st) as [ra|]; [|discriminate].
    exists ra. split; [done|]. by apply Z.ltb_lt. }
  destruct (runner.findEarliestResume tasks states) as [e|].
  - exists e. split; [done|]. destruct H as ([H|H] & _ & _); [discriminate|].
    apply Exists_exists in H as (t & Ht & He).
    rewrite Forall_forall in Hfut. destruct (Hfut t Ht) as (ra & Hra & Hlt).
    congruence.
  - destruct H as [_ H]. destruct tasks as [|t rest]; [done|].
    apply Forall_cons in H as [H _]. apply Forall_cons in Hfut as [(ra & Hra & _) _].
    congruence.
Qed.



Lemma HasPrefix_app_l s t sub :
  (String.length sub <= String.length s)%nat ->
  GoStrings.HasPrefix (s +:+ t) sub = GoStrings.HasPrefix s sub.
Proof.
  revert s. induction sub as [|c sub IH]; intros s H.
  - by rewrite !HasPrefix_nil.
  - destruct s as [|x s]; [cbn in H; lia|].
    rewrite append_cons. cbn. rewrite IH; [done|]. cbn in H. lia.
Qed.

Lemma HasPrefix_refl_app sub rest : GoStrings.HasPrefix (sub +:+ rest) sub = true.
Proof. apply HasPrefix_spec. by exists rest. Qed.

Lemma Index_here s sub :
  GoStrings.HasPrefix s sub = true -> GoStrings.Index s sub = 0.
Proof. intros H. destruct s; cbn [GoStrings.Index]; by rewrite H. Qed.

(** The first occurrence of [sub +:+ String c ""] in a string in which
    none begins earlier. *)
Lemma Index_first a sub c rest :
  GoStrings.Contains (a +:+ sub) (sub +:+ String c "") = false ->
  GoStrings.Index (a +:+ (sub +:+ String c "") +:+ rest) (sub +:+ String c "")
  = GoStrings.len a.
Proof.
  induction a as [|x a IH]; intros H.
  - change ("" +:+ (sub +:+ String c "") +:+ rest)
      with ((sub +:+ String c "") +:+ rest).
    apply Index_here, HasPrefix_refl_app.
  - rewrite append_cons in H. cbn [GoStrings.Contains] in H.
    apply orb_false_iff in H as [H1 H2]. rewrite <- append_cons in H1.
    rewrite append_cons. cbn [GoStrings.Index].
    rewrite <- append_cons.
    assert (GoStrings.HasPrefix (String x a +:+ (sub +:+ String c "") +:+ rest)
              (sub +:+ String c "") = false) as ->.
    { rewrite <- H1.
      assert (String x a +:+ (sub +:+ String c "") +:+ rest
              = (String x a +:+ sub) +:+ (String c "" +:+ rest)) as ->
        by (by rewrite !append_assoc).
      apply HasPrefix_app_l. rewrite !length_append. cbn. lia. }
    rewrite IH by done. unfold GoStrings.len. cbn [String.length].
    destruct (Z.leb_spec 0 (Z.of_nat (String.length a))); lia.
Qed.

Lemma substring_skip (a b : string) :
  String.substring (String.length a) (String.length b) (a +:+ b) = b.
Proof.
  induction a as [|x a IH]; [apply substring_all|]. rewrite append_cons. cbn. exact IH.
Qed.

Lemma suffixFrom_app (a b : string) :
  GoStrings.suffixFrom (GoStrings.len a) (a +:+ b) = b.
Proof.
  unfold GoStrings.suffixFrom, GoStrings.len. rewrite Nat2Z.id, length_append.
  replace (String.length a + String.length b - String.length a)%nat
    with (String.length b) by lia.
  apply substring_skip.
Qed.

Lemma prefixTo_app (a b : string) :
  GoStrings.prefixTo (GoStrings.len a) (a +:+ b) = a.
Proof.
  unfold GoStrings.prefixTo, GoStrings.len. rewrite Nat2Z.id.
  induction a as [|x a IH]; [by destruct b|]. rewrite append_cons. cbn. by rewrite IH.
Qed.

Lemma pretty_N_char_digit k :
  (k < 10)%N ->
  strconv.isDigit (pretty_N_char k) = true
  /\ Z.of_N (N_of_ascii (pretty_N_char k)) - 48 = Z.of_N k.
Proof.
  intros H.
  assert (k ∈ [0;1;2;3;4;5;6;7;8;9]%N) as Hin.
  { assert (k = N.of_nat (N.to_nat k)) as -> by lia.
    assert (N.to_nat k < 10)%nat as Hn by lia.
    revert Hn. generalize (N.to_nat k). intros n Hn.
    do 10 (destruct n as [|n]; [apply (bool_decide_unpack _); vm_compute; exact I|]).
    lia. }
  assert (Forall (fun k => strconv.isDigit (pretty_N_char k) = true
                    /\ Z.of_N (N_of_ascii (pretty_N_char k)) - 48 = Z.of_N k)
            [0;1;2;3;4;5;6;7;8;9]%N) as Hall
    by (repeat constructor).
  rewrite Forall_forall in Hall. by apply Hall.
Qed.

(** The decimal digits that [pretty] writes read back as the number. *)
Lemma pretty_N_go_digits x :
  forall s, exists d,
    pretty_N_go x s = d +:+ s
    /\ allBytes strconv.isDigit d = true
    /\ (0 < x -> d <> "")%N
    /\ forall acc s',
         strconv.digitsFrom acc (d +:+ s')
         = strconv.digitsFrom (acc * 10 ^ Z.of_nat (String.length d) + Z.of_N x) s'.
Proof.
  induction (N.lt_wf_0 x) as [x _ IH]. intros s.
  destruct (decide (x = 0%N)) as [->|Hne].
  { exists "". rewrite pretty_N_go_0. split; [done|]. split; [done|].
    split; [lia|]. intros acc s'. cbn. f_equal. lia. }
  assert (0 < x)%N as Hpos by lia.
  rewrite pretty_N_go_step by done.
  destruct (IH (x `div` 10)%N (N.div_lt x 10 Hpos eq_refl)
              (String (pretty_N_char (x `mod` 10)) s))
    as (d' & Heq & Hd & _ & Hval).
  destruct (pretty_N_char_digit (x `mod` 10)%N) as [Hc Hv].
  { apply N.mod_lt. discriminate. }
  exists (d' +:+ String (pretty_N_char (x `mod` 10)) "").
  split; [by rewrite Heq, append_assoc|].
  split; [rewrite allBytes_app, Hd; cbn; by rewrite Hc|].
  split; [intros _; by destruct d'|].
  intros acc s'. rewrite append_assoc. cbn [append].
  change (String (pretty_N_char (x `mod` 10)) "" +:+ s')
    with (String (pretty_N_char (x `mod` 10)) s').
  rewrite Hval. cbn [strconv.digitsFrom]. rewrite Hc, Hv. f_equal.
  rewrite length_append. cbn [String.length].
  replace (Z.of_nat (String.length d' + 1)) with (Z.of_nat (String.length d') + 1) by lia.
  rewrite Z.pow_add_r by lia.
  pose proof (N.div_mod x 10 ltac:(discriminate)) as Hdm.
  assert (Z.of_N x = 10 * Z.of_N (x `div` 10) + Z.of_N (x `mod` 10)) as Hx by lia.
  lia.
Qed.

Lemma pretty_pid pid :
  0 < pid < 2 ^ 63 ->
  exists d,
    pretty pid = d /\ d <> "" /\ allBytes strconv.isDigit d = true
    /\ strconv.Atoi d = Some pid.
Proof.
  intros Hpid. destruct pid as [|p|p]; [lia| |lia].
  change (pretty (Z.pos p)) with (pretty_N_go (N.pos p) "").
  destruct (pretty_N_go_digits (N.pos p) "") as (d & Heq & Hd & Hne & Hval).
  rewrite append_nil_r in Heq.
  exists d. split; [done|]. split; [apply Hne; lia|]. split; [done|].
  specialize (Hne ltac:(lia)).
  unfold strconv.Atoi. destruct d as [|c r]; [done|].
  cbn [allBytes] in Hd. apply andb_true_iff in Hd as [Hc Hr].
  assert (Ascii.eqb c "-" = false) as ->.
  { apply Ascii.eqb_neq. intros ->. discriminate Hc. }
  assert (Ascii.eqb c "+" = false) as ->.
  { apply Ascii.eqb_neq. intros ->. discriminate Hc. }
  specialize (Hval 0 ""). rewrite append_nil_r in Hval. rewrite Hval.
  cbn [strconv.digitsFrom].
  replace (0 * 10 ^ Z.of_nat (String.length (String c r)) + Z.of_N (N.pos p))
    with (Z.pos p) by lia.
  assert ((- 2 ^ 63 <=? Z.pos p) && (Z.pos p <=? 2 ^ 63 - 1) = true) as ->; [|done].
  apply andb_true_iff. split; [apply Z.leb_le|apply Z.leb_le]; lia.
Qed.

Lemma digits_no_dot d :
  allBytes strconv.isDigit d = true -> GoStrings.Contains d "." = false.
Proof.
  induction d as [|c d IH]; [done|]. cbn. intros H.
  apply andb_true_iff in H as [Hc Hd]. rewrite HasPrefix_nil, andb_true_r.
  rewrite IH by done. rewrite orb_false_r.
  apply Ascii.eqb_neq. intros ->. discriminate Hc.
Qed.

(** [extractPID] reads back the process id that [TempFileName] wrote,
    provided the id is positive and [.tmp.] does not occur in the file
    name followed by [.tmp] (so the name neither holds [.tmp.] nor ends
    in [.tmp]). *)
Theorem extractPID_TempFileName base pid rnd :
  0 < pid < 2 ^ 63 ->
  GoStrings.Contains (base +:+ ".tmp") ".tmp." = false ->
  fileutil.extractPID (fileutil.TempFileName base pid rnd) = pid.
Proof.
  intros Hpid Hbase. unfold fileutil.extractPID, fileutil.TempFileName.
  destruct (pretty_pid pid Hpid) as (d & -> & Hne & Hd & Hatoi).
  pose proof (Index_first base ".tmp" "." (d +:+ "." +:+ hexEncode rnd) Hbase) as Hi.
  change (".tmp" +:+ String "." "") with ".tmp." in Hi.
  cbv zeta. rewrite Hi.
  assert (GoStrings.len base <? 0 = false) as ->
    by (apply Z.ltb_ge; unfold GoStrings.len; lia).
  assert (base +:+ ".tmp." +:+ d +:+ "." +:+ hexEncode rnd
          = (base +:+ ".tmp.") +:+ (d +:+ "." +:+ hexEncode rnd)) as ->
    by (by rewrite !append_assoc).
  assert (GoStrings.len base + 5 = GoStrings.len (base +:+ ".tmp.")) as ->.
  { unfold GoStrings.len. rewrite length_append. cbn. lia. }
  rewrite suffixFrom_app. cbn [GoStrings.SplitN].
  pose proof (Index_first d "" "." (hexEncode rnd)) as Hj.
  change ("" +:+ String "." "") with "." in Hj. rewrite append_nil_r in Hj.
  rewrite Hj by (by apply digits_no_dot).
  assert (GoStrings.len d <? 0 = false) as ->
    by (apply Z.ltb_ge; unfold GoStrings.len; lia).
  rewrite prefixTo_app. by rewrite Hatoi.
Qed.

(** Witness: the temp file of a state file. *)
Lemma extractPID_TempFileName_witness :
  fileutil.TempFileName "fix-login.state.json" 4242 [222; 173; 190; 239]%N
  = "fix-login.state.json.tmp.4242.deadbeef"
  /\ fileutil.extractPID "fix-login.state.json.tmp.4242.deadbeef" = 4242.
Proof.
  assert (fileutil.TempFileName "fix-login.state.json" 4242 [222; 173; 190; 239]%N
          = "fix-login.state.json.tmp.4242.deadbeef") as H
    by (vm_compute; reflexivity).
  split; [exact H|]. rewrite <- H.
  apply extractPID_TempFileName; [lia|vm_compute; reflexivity].
Defined.

(** The owner of a temp file of a file whose name ends in [.tmp] is not
    found, and a name without [.tmp.] has none. *)
Example extractPID_edge :
  fileutil.extractPID (fileutil.TempFileName "notes.tmp" 4242 [222; 173; 190; 239]%N)
  = 0
  /\ fileutil.extractPID "fix-login.state.json" = 0.
Proof. split; vm_compute; reflexivity. Qed.


Lemma lastN_snoc n (l : list string) x :
  (1 <= n)%nat ->
  resume.lastN n (resume.lastN n l ++ [x]) = resume.lastN n (l ++ [x]).
Proof.
  intros Hn. unfold resume.lastN at 2.
  destruct (Nat.ltb_spec n (length l)) as [Hlt|Hge]; [|done].
  unfold resume.lastN. rewrite !length_app, length_drop. cbn [length].
  assert (n <? length l - (length l - n) + 1 = true)%nat as ->
    by (apply Nat.ltb_lt; lia).
  assert (n <? length l + 1 = true)%nat as -> by (apply Nat.ltb_lt; lia).
  rewrite !drop_app_le by (rewrite ?length_drop; lia).
  rewrite drop_drop. f_equal. f_equal. lia.
Qed.

Lemma lastN_idem n (l : list string) :
  resume.lastN n (resume.lastN n l) = resume.lastN n l.
Proof.
  unfold resume.lastN.
  destruct (Nat.ltb_spec n (length l)) as [Hlt|Hge].
  - rewrite length_drop.
    destruct (Nat.ltb_spec n (length l - (length l - n))); [lia|done].
  - destruct (Nat.ltb_spec n (length l)); [lia|done].
Qed.

Lemma scanLines_gen e sj lines buf last sid :
  let '(out, lastLines, sid') := scanLines e sj lines buf last sid in
  lastLines = foldl (fun acc line => resume.lastN 20 (acc ++ [line])) last lines
  /\ (sid <> "" -> sid' <> "")
  /\ (sj = false -> sid' = sid).
Proof.
  revert buf last sid. induction lines as [|line rest IH]; intros buf last sid.
  { cbn. done. }
  cbn [scanLines foldl].
  set (sid1 := if sj then _ else sid).
  specialize (IH (buf +:+ line +:+ resume.nl)
                (resume.lastN 20 (last ++ [line])) sid1).
  destruct (scanLines e sj rest _ _ sid1) as [[out lastLines] sid'].
  destruct IH as (H1 & H2 & H3). split; [done|].
  assert ((sid <> "" -> sid1 <> "") /\ (sj = false -> sid1 = sid)) as [Ha Hb].
  { subst sid1. destruct sj; [|done]. split; [|done]. intros Hs.
    destruct (decodeNDJSON e line) as [msg|]; [|done].
    destruct (String.eqb (msgType msg) "system"); [|done].
    destruct (msgSessionID msg) as [s|]; [|done].
    destruct (String.eqb_spec s ""); done. }
  split; [tauto|]. intros Hsj. rewrite H3, Hb; done.
Qed.

Lemma foldl_lastN (l : list string) last :
  foldl (fun acc line => resume.lastN 20 (acc ++ [line])) (resume.lastN 20 last) l
  = resume.lastN 20 (last ++ l).
Proof.
  revert last. induction l as [|x l IH]; intros last.
  { cbn. by rewrite app_nil_r. }
  cbn [foldl]. rewrite lastN_snoc by lia. rewrite IH. by rewrite <- app_assoc.
Qed.

(** The lines kept while scanning the child's output are its last 20
    lines; a session id that is set is never replaced by an empty one,
    and without stream-json it is not touched.  The resume prompt uses
    only the last 20 of the messages it is given, so building it from
    the kept lines is building it from the whole output. *)
Theorem resume_context_last_20 e streamJSON lines sid attempt msgs prompt :
  let scan := scanLines e streamJSON lines "" [] sid in
  scan.1.2 = resume.lastN 20 lines
  /\ (length scan.1.2 <= 20)%nat
  /\ (sid <> "" -> scan.2 <> "")
  /\ (streamJSON = false -> scan.2 = sid)
  /\ resume.BuildResumePrompt attempt msgs prompt
     = resume.BuildResumePrompt attempt (resume.lastN 20 msgs) prompt
  /\ resume.BuildResumePrompt attempt scan.1.2 prompt
     = resume.BuildResumePrompt attempt lines prompt.
Proof.
  cbv zeta. pose proof (scanLines_gen e streamJSON lines "" [] sid) as H.
  destruct (scanLines e streamJSON lines "" [] sid) as [[out lastLines] sid'].
  cbn [fst snd]. destruct H as (H1 & H2 & H3).
  assert (lastLines = resume.lastN 20 lines) as Hl.
  { rewrite H1. exact (foldl_lastN lines []). }
  split; [done|]. split.
  { rewrite Hl. unfold resume.lastN. destruct (Nat.ltb_spec 20 (length lines)).
    - rewrite length_drop. lia.
    - done. }
  split; [done|]. split; [done|].
  unfold resume.BuildResumePrompt. cbv zeta. rewrite Hl, !lastN_idem. done.
Qed.

(** ** Backoff *)

Import float64.
Open Scope Q_scope.


(** 0.2 is not a binary64 number; its nearest one is just above it. *)
Example round_one_fifth :
  round (1 # 5) = 3602879701896397 # 18014398509481984.
Proof. vm_compute. reflexivity. Qed.
Example mul_cap_jitterPct : mul 300 (const (1 # 5)) = 60.
Proof. vm_compute. reflexivity. Qed.
(** The first attempt with no jitter waits 5 minutes; the third with the
    lowest jitter waits 16. *)
Example exponentialBackoff_first :
  exponentialBackoff 1 (1 # 2) = (5 * gotime.Minute)%Z.
Proof. vm_compute. reflexivity. Qed.
Example exponentialBackoff_third_lowest :
  exponentialBackoff 3 0 = (16 * gotime.Minute)%Z.
Proof. vm_compute. reflexivity. Qed.
(** Powers of two. *)
Lemma pow2_pos z : 0 < pow2 z.
Proof. apply Qpower_0_lt. reflexivity. Qed.

Lemma pow2_add a b : pow2 (a + b) == pow2 a * pow2 b.
Proof. apply Qpower_plus. discriminate. Qed.

Lemma pow2_le a b : (a <= b)%Z -> pow2 a <= pow2 b.
Proof. intros H. apply Qpower_le_compat_l; [exact H|discriminate]. Qed.

Lemma pow2_lt_inv a b : pow2 a < pow2 b -> (a < b)%Z.
Proof. intros H. eapply Qpower_lt_compat_l_inv; [exact H|reflexivity]. Qed.

Lemma pow2_Z z : (0 <= z)%Z -> pow2 z == inject_Z (2 ^ z).
Proof. intros H. symmetry. apply Zpower_Qpower. exact H. Qed.

Lemma pow2_cancel a : pow2 a * pow2 (- a) == 1.
Proof. rewrite <- pow2_add. replace (a + - a)%Z with 0%Z by lia. reflexivity. Qed.

(* scaling by a power of two preserves order *)
Lemma scale_le x y E : x <= y -> x * pow2 E <= y * pow2 E.
Proof. intros H. apply Qmult_le_compat_r; [exact H|]. apply Qlt_le_weak, pow2_pos. Qed.

(** [ilog2 x] is the binary exponent of a positive [x]. *)
Lemma ilog2_spec x : 0 < x -> pow2 (ilog2 x) <= x /\ x < pow2 (ilog2 x + 1).
Proof.
  intros Hx. destruct x as [a b]. unfold ilog2. cbn [Qnum Qden].
  assert (0 < a)%Z as Ha by (unfold Qlt in Hx; cbn in Hx; lia).
  set (la := Z.log2 a). set (lb := Z.log2 (Z.pos b)).
  pose proof (Z.log2_spec a Ha) as [Ha1 Ha2]. fold la in Ha1, Ha2.
  pose proof (Z.log2_spec (Z.pos b) ltac:(lia)) as [Hb1 Hb2]. fold lb in Hb1, Hb2.
  assert (0 <= la)%Z as Hla by apply Z.log2_nonneg.
  assert (0 <= lb)%Z as Hlb by apply Z.log2_nonneg.
  assert (pow2 la <= inject_Z a) as Qa1.
  { rewrite pow2_Z by lia. rewrite <- Zle_Qle. exact Ha1. }
  assert (inject_Z a < pow2 (la + 1)) as Qa2.
  { rewrite pow2_Z by lia. rewrite <- Zlt_Qlt. replace (la + 1)%Z with (Z.succ la) by lia. exact Ha2. }
  assert (pow2 lb <= inject_Z (Z.pos b)) as Qb1.
  { rewrite pow2_Z by lia. rewrite <- Zle_Qle. exact Hb1. }
  assert (inject_Z (Z.pos b) < pow2 (lb + 1)) as Qb2.
  { rewrite pow2_Z by lia. rewrite <- Zlt_Qlt. replace (lb + 1)%Z with (Z.succ lb) by lia. exact Hb2. }
  assert (0 < inject_Z (Z.pos b)) as Qb0 by reflexivity.
  assert (a # b < pow2 (la - lb + 1)) as Hhigh.
  { rewrite (Qmake_Qdiv a b). apply Qlt_shift_div_r; [exact Qb0|].
    eapply Qlt_le_trans; [exact Qa2|].
    replace (la + 1)%Z with ((la - lb + 1) + lb)%Z by lia.
    rewrite pow2_add. apply Qmult_le_l; [apply pow2_pos|exact Qb1]. }
  assert (pow2 (la - lb - 1) < a # b) as Hlow.
  { rewrite (Qmake_Qdiv a b). apply Qlt_shift_div_l; [exact Qb0|].
    eapply Qlt_le_trans; [|exact Qa1].
    replace la with ((la - lb - 1) + (lb + 1))%Z at 2 by lia.
    rewrite pow2_add. apply Qmult_lt_l; [apply pow2_pos|exact Qb2]. }
  destruct (Qle_bool (pow2 (la - lb)) (a # b)) eqn:Hb.
  - apply Qle_bool_iff in Hb. split; [exact Hb|exact Hhigh].
  - assert (a # b < pow2 (la - lb)) as Hlt.
    { apply Qnot_le_lt. intros H. apply Qle_bool_iff in H. congruence. }
    split; [apply Qlt_le_weak; exact Hlow|].
    replace (la - lb - 1 + 1)%Z with (la - lb)%Z by lia. exact Hlt.
Qed.

Lemma ilog2_mono x y : 0 < x -> x <= y -> (ilog2 x <= ilog2 y)%Z.
Proof.
  intros Hx Hxy.
  destruct (ilog2_spec x Hx) as [H1 _].
  destruct (ilog2_spec y (Qlt_le_trans _ _ _ Hx Hxy)) as [_ H2].
  assert (pow2 (ilog2 x) < pow2 (ilog2 y + 1)) as H.
  { eapply Qle_lt_trans; [exact H1|]. eapply Qle_lt_trans; [exact Hxy|exact H2]. }
  apply pow2_lt_inv in H. lia.
Qed.

(** Rounding to the nearest integer, ties to even. *)
Lemma rne_range q : (Qfloor q <= rne q <= Qfloor q + 1)%Z.
Proof.
  unfold rne. destruct (Qcompare _ _); [destruct (Z.even _)| |]; lia.
Qed.

Lemma rne_Z z : rne (inject_Z z) = z.
Proof.
  unfold rne. rewrite Qfloor_Z.
  destruct (Qcompare_spec (inject_Z z - inject_Z z) (1 # 2)) as [H|H|H];
    [exfalso; lra|reflexivity|exfalso; lra].
Qed.

Lemma rne_mono q1 q2 : q1 <= q2 -> (rne q1 <= rne q2)%Z.
Proof.
  intros Hle. pose proof (Qfloor_resp_le _ _ Hle) as Hf.
  pose proof (rne_range q1) as R1. pose proof (rne_range q2) as R2.
  destruct (Z.eq_dec (Qfloor q1) (Qfloor q2)) as [E|NE]; [|lia].
  unfold rne in *. rewrite <- E in *.
  destruct (Qcompare_spec (q1 - inject_Z (Qfloor q1)) (1 # 2)) as [H1|H1|H1];
    destruct (Qcompare_spec (q2 - inject_Z (Qfloor q1)) (1 # 2)) as [H2|H2|H2];
    try lia; try (destruct (Z.even _); lia); exfalso; lra.
Qed.

Lemma rne_le q z : q <= inject_Z z -> (rne q <= z)%Z.
Proof. intros H. rewrite <- (rne_Z z). by apply rne_mono. Qed.

Lemma rne_ge q z : inject_Z z <= q -> (z <= rne q)%Z.
Proof. intros H. rewrite <- (rne_Z z). by apply rne_mono. Qed.

Lemma Qabs_pos_eq x : 0 < x -> Qabs x = x.
Proof.
  destruct x as [a b]. unfold Qlt. cbn. intros H.
  rewrite Z.abs_eq by lia. reflexivity.
Qed.

Lemma Qabs_neg_eq x : x < 0 -> Qabs x = - x.
Proof.
  destruct x as [a b]. unfold Qlt. cbn. intros H.
  rewrite Z.abs_neq by lia. reflexivity.
Qed.

Lemma round_zero x : x == 0 -> round x = 0.
Proof.
  intros H. unfold round.
  destruct (Qcompare_spec x 0) as [H'|H'|H']; [reflexivity|exfalso; lra|exfalso; lra].
Qed.

Lemma round_eq x :
  ~ x == 0 ->
  round x == inject_Z (rne (x * pow2 (- ulpExp x))) * pow2 (ulpExp x).
Proof.
  intros H. unfold round.
  destruct (Qcompare_spec x 0) as [H'|H'|H']; [done|apply Qred_correct..].
Qed.

Lemma unscale_le z x E :
  inject_Z z * pow2 E <= x <-> inject_Z z <= x * pow2 (- E).
Proof.
  rewrite <- (Qmult_le_r _ _ (pow2 (- E))) by apply pow2_pos.
  rewrite <- Qmult_assoc, pow2_cancel, Qmult_1_r. reflexivity.
Qed.

Lemma unscale_ge z x E :
  x <= inject_Z z * pow2 E <-> x * pow2 (- E) <= inject_Z z.
Proof.
  rewrite <- (Qmult_le_r _ _ (pow2 (- E))) by apply pow2_pos.
  rewrite <- Qmult_assoc, pow2_cancel, Qmult_1_r. reflexivity.
Qed.

(** Rounding does not cross a multiple of the unit in the last place. *)
Lemma round_ge_grid x z :
  ~ x == 0 -> inject_Z z * pow2 (ulpExp x) <= x ->
  inject_Z z * pow2 (ulpExp x) <= round x.
Proof.
  intros Hx H. rewrite (round_eq x Hx).
  apply Qmult_le_compat_r; [|apply Qlt_le_weak, pow2_pos].
  rewrite <- Zle_Qle. apply rne_ge. by apply unscale_le.
Qed.

Lemma round_le_grid x z :
  ~ x == 0 -> x <= inject_Z z * pow2 (ulpExp x) ->
  round x <= inject_Z z * pow2 (ulpExp x).
Proof.
  intros Hx H. rewrite (round_eq x Hx).
  apply Qmult_le_compat_r; [|apply Qlt_le_weak, pow2_pos].
  rewrite <- Zle_Qle. apply rne_le. by apply unscale_ge.
Qed.

Lemma grid_pow2 E k : (0 <= k)%Z -> inject_Z (2 ^ k) * pow2 E == pow2 (E + k).
Proof.
  intros Hk. rewrite <- pow2_Z by exact Hk. rewrite <- pow2_add.
  replace (k + E)%Z with (E + k)%Z by lia. reflexivity.
Qed.

Lemma ulpExp_ge x : (ilog2 (Qabs x) - 52 <= ulpExp x)%Z.
Proof. unfold ulpExp. lia. Qed.

(** A rounded number stays within the binade of its argument. *)
Lemma round_pos_upper x : 0 < x -> 0 <= round x <= pow2 (ulpExp x + 53).
Proof.
  intros Hx. assert (~ x == 0) as Hne by lra.
  split.
  - pose proof (round_ge_grid x 0 Hne) as H.
    rewrite Qmult_0_l in H. apply H. lra.
  - rewrite <- grid_pow2 by lia. apply round_le_grid; [exact Hne|].
    rewrite grid_pow2 by lia.
    destruct (ilog2_spec x Hx) as [_ H].
    apply Qlt_le_weak. eapply Qlt_le_trans; [exact H|].
    apply pow2_le. pose proof (ulpExp_ge x) as HE.
    rewrite (Qabs_pos_eq x Hx) in HE. lia.
Qed.

Lemma round_pos_lower x :
  0 < x -> ulpExp x = (ilog2 x - 52)%Z -> pow2 (ilog2 x) <= round x.
Proof.
  intros Hx HE. assert (~ x == 0) as Hne by lra.
  replace (ilog2 x) with (ulpExp x + 52)%Z at 1 by lia.
  rewrite <- grid_pow2 by lia. apply round_ge_grid; [exact Hne|].
  rewrite grid_pow2 by lia. replace (ulpExp x + 52)%Z with (ilog2 x) by lia.
  by destruct (ilog2_spec x Hx).
Qed.

Lemma round_neg_lower x : x < 0 -> - pow2 (ulpExp x + 53) <= round x <= 0.
Proof.
  intros Hx. assert (~ x == 0) as Hne by lra.
  assert (0 < - x) as Hpos by lra.
  split.
  - assert (- pow2 (ulpExp x + 53) == inject_Z (- 2 ^ 53) * pow2 (ulpExp x)) as ->.
    { rewrite <- grid_pow2 by lia. rewrite inject_Z_opp. ring. }
    apply round_ge_grid; [exact Hne|].
    rewrite inject_Z_opp.
    assert (- inject_Z (2 ^ 53) * pow2 (ulpExp x) == - pow2 (ulpExp x + 53)) as ->.
    { rewrite <- grid_pow2 by lia. ring. }
    destruct (ilog2_spec (- x) Hpos) as [_ H].
    pose proof (ulpExp_ge x) as HE. rewrite (Qabs_neg_eq x Hx) in HE.
    assert (pow2 (ilog2 (- x) + 1) <= pow2 (ulpExp x + 53)) by (apply pow2_le; lia).
    lra.
  - pose proof (round_le_grid x 0 Hne) as H.
    rewrite Qmult_0_l in H. apply H. lra.
Qed.

Lemma round_neg_upper x :
  x < 0 -> ulpExp x = (ilog2 (- x) - 52)%Z -> round x <= - pow2 (ilog2 (- x)).
Proof.
  intros Hx HE. assert (~ x == 0) as Hne by lra.
  assert (0 < - x) as Hpos by lra.
  assert (- pow2 (ilog2 (- x)) == inject_Z (- 2 ^ 52) * pow2 (ulpExp x)) as Heq.
  { rewrite inject_Z_opp.
    assert (inject_Z (2 ^ 52) * pow2 (ulpExp x) == pow2 (ulpExp x + 52)) as H
      by (apply grid_pow2; lia).
    replace (ulpExp x + 52)%Z with (ilog2 (- x)) in H by lia. lra. }
  rewrite Heq. apply round_le_grid; [exact Hne|]. rewrite <- Heq.
  destruct (ilog2_spec (- x) Hpos) as [H _]. lra.
Qed.

Lemma round_same_ulp x y :
  ~ x == 0 -> ~ y == 0 -> ulpExp x = ulpExp y -> x <= y -> round x <= round y.
Proof.
  intros Hx Hy HE Hle. rewrite (round_eq x Hx), (round_eq y Hy), HE.
  apply Qmult_le_compat_r; [|apply Qlt_le_weak, pow2_pos].
  rewrite <- Zle_Qle. apply rne_mono. by apply scale_le.
Qed.

(** Rounding to binary64 is monotone. *)
Theorem round_mono x y : x <= y -> round x <= round y.
Proof.
  intros Hle.
  destruct (Qlt_le_dec 0 x) as [Hx|Hx].
  - (* 0 < x <= y *)
    assert (0 < y) as Hy by lra.
    pose proof (ilog2_mono x y Hx Hle) as He.
    destruct (Z.eq_dec (ulpExp x) (ulpExp y)) as [E|NE].
    { apply round_same_ulp; [lra|lra|exact E|exact Hle]. }
    assert (ulpExp x < ulpExp y /\ ulpExp y = ilog2 y - 52)%Z as [Hlt Hey].
    { unfold ulpExp in *. rewrite (Qabs_pos_eq x Hx), (Qabs_pos_eq y Hy) in *. lia. }
    destruct (round_pos_upper x Hx) as [_ H1].
    pose proof (round_pos_lower y Hy Hey) as H2.
    assert (pow2 (ulpExp x + 53) <= pow2 (ilog2 y)) by (apply pow2_le; lia).
    lra.
  - destruct (Qlt_le_dec y 0) as [Hy|Hy].
    + (* x <= y < 0 *)
      assert (x < 0) as Hx' by lra.
      assert (0 < - y) as Hy' by lra.
      pose proof (ilog2_mono (- y) (- x) Hy' ltac:(lra)) as He.
      destruct (Z.eq_dec (ulpExp x) (ulpExp y)) as [E|NE].
      { apply round_same_ulp; [lra|lra|exact E|exact Hle]. }
      assert (ulpExp y < ulpExp x /\ ulpExp x = ilog2 (- x) - 52)%Z as [Hlt Hex].
      { unfold ulpExp in *. rewrite (Qabs_neg_eq x Hx'), (Qabs_neg_eq y Hy) in *. lia. }
      pose proof (round_neg_upper x Hx' Hex) as H1.
      destruct (round_neg_lower y Hy) as [H2 _].
      assert (pow2 (ulpExp y + 53) <= pow2 (ilog2 (- x))) by (apply pow2_le; lia).
      lra.
    + (* x <= 0 <= y *)
      assert (round x <= 0) as H1.
      { destruct (Qeq_dec x 0) as [E|NE]; [rewrite (round_zero x E); lra|].
        apply round_neg_lower. lra. }
      assert (0 <= round y) as H2.
      { destruct (Qeq_dec y 0) as [E|NE]; [rewrite (round_zero y E); lra|].
        apply round_pos_upper. lra. }
      lra.
Qed.


(** Conversion to an integer truncates; below zero is not needed here. *)
Lemma toInt_nonneg x : 0 <= x -> toInt x = Qfloor x.
Proof.
  destruct x as [a b]. unfold Qle, toInt, Qfloor. cbn. intros H.
  apply Z.quot_div_nonneg; lia.
Qed.

Lemma toInt_bounds x lo hi :
  (0 <= lo)%Z -> inject_Z lo <= x -> x <= inject_Z hi ->
  (lo <= toInt x <= hi)%Z.
Proof.
  intros Hlo H1 H2.
  assert (0 <= x) as Hx.
  { eapply Qle_trans; [|exact H1]. change 0 with (inject_Z 0). rewrite <- Zle_Qle. exact Hlo. }
  rewrite (toInt_nonneg x Hx). split.
  - rewrite <- (Qfloor_Z lo). by apply Qfloor_resp_le.
  - rewrite <- (Qfloor_Z hi). by apply Qfloor_resp_le.
Qed.

(** The capped product is exact: every [5 * 2^k] up to 300 is a binary64
    number, and past the cap the product, finite or not, exceeds 300. *)
Lemma capped_minutes k :
  (0 <= k)%Z ->
  capAt 300 (mulExt 5 (Pow2 k)) = inject_Z (Z.min (5 * 2 ^ k) 300).
Proof.
  intros Hk. destruct (Z.le_gt_cases k 5) as [Hs|Hl].
  - assert (k = 0 \/ k = 1 \/ k = 2 \/ k = 3 \/ k = 4 \/ k = 5)%Z as Hc by lia.
    destruct Hc as [->|[->|[->|[->|[->| ->]]]]]; vm_compute; reflexivity.
  - assert (Z.min (5 * 2 ^ k) 300 = 300)%Z as ->.
    { assert (2 ^ 6 <= 2 ^ k)%Z by (apply Z.pow_le_mono_r; lia). lia. }
    unfold Pow2. destruct (1024 <=? k)%Z; [reflexivity|].
    destruct (k <? -1074)%Z eqn:E; [lia|].
    assert (320 <= mul 5 (pow2 k)) as Hbig.
    { change 320 with (round 320). apply round_mono.
      change 320 with (5 * pow2 6).
      apply Qmult_le_l; [reflexivity|]. apply pow2_le. lia. }
    unfold mulExt. destruct (Qle_bool (pow2 1024) _); [reflexivity|].
    unfold capAt. destruct (Qle_bool (mul 5 (pow2 k)) 300) eqn:E'; [|reflexivity].
    apply Qle_bool_iff in E'. exfalso. lra.
Qed.

Lemma exponentialBackoff_unfold attempt u :
  exponentialBackoff attempt u
  = withJitter (capAt 300 (mulExt 5 (Pow2 (wrap64 (attempt - 1))))) u.
Proof. reflexivity. Qed.

(** Each rounded step keeps the bounds of the exact one. *)
Lemma withJitter_bounds m u :
  jitterFacts m = true -> 0 <= u -> u < 1 ->
  (48000000000 * m <= withJitter (inject_Z m) u <= 72000000000 * m)%Z.
Proof.
  unfold jitterFacts. cbv zeta. rewrite !andb_true_iff, !Qle_bool_iff, Z.leb_le.
  set (a := mul (inject_Z m) (const (20 # 100))).
  set (lo := inject_Z (4 * m / 5)). set (hi := inject_Z (6 * m / 5)).
  intros ((((((((((((F0 & F2) & Fm1) & F1) & Fa) & Fna) & Fpa) & Flo) & Fhi) & Flo1) & FL) & FU) & Fm) Hu0 Hu1.
  unfold withJitter. cbv zeta. fold a.
  (* 2*u *)
  assert (0 <= mul 2 u <= 2) as [T0 T2].
  { unfold mul. split.
    - eapply Qle_trans; [exact F0|]. apply round_mono. lra.
    - eapply Qle_trans; [|exact F2]. apply round_mono. lra. }
  assert (- (1) <= sub (mul 2 u) 1 <= 1) as [X0 X1].
  { unfold sub. split.
    - eapply Qle_trans; [exact Fm1|]. apply round_mono. lra.
    - eapply Qle_trans; [|exact F1]. apply round_mono. lra. }
  set (x := sub (mul 2 u) 1) in *.
  assert (- a <= mul a x <= a) as [J0 J1].
  { unfold mul. split.
    - eapply Qle_trans; [exact Fna|]. apply round_mono. nra.
    - eapply Qle_trans; [|exact Fpa]. apply round_mono. nra. }
  set (jit := mul a x) in *.
  assert (lo <= add (inject_Z m) jit <= hi) as [M0 M1].
  { unfold add. split.
    - eapply Qle_trans; [exact Flo|]. apply round_mono. lra.
    - eapply Qle_trans; [|exact Fhi]. apply round_mono. lra. }
  set (m' := add (inject_Z m) jit) in *.
  assert (Qle_bool 1 m' = true) as -> by (apply Qle_bool_iff; lra).
  assert (0 < inject_Z gotime.Minute) as Hmin by reflexivity.
  apply toInt_bounds.
  - lia.
  - unfold mul. eapply Qle_trans; [exact FL|]. apply round_mono.
    apply Qmult_le_compat_r; [exact M0|lra].
  - unfold mul. eapply Qle_trans; [|exact FU]. apply round_mono.
    apply Qmult_le_compat_r; [exact M1|lra].
Qed.

(** C5: for every attempt number from 1 on and every jitter sample in
    [0, 1), the value before jitter is [min(5 * 2^(attempt-1), 300)]
    minutes, and the duration [exponentialBackoff] returns lies between
    80% and 120% of it (a minute is 60 000 000 000 nanoseconds). *)
Theorem exponentialBackoff_bounds attempt u :
  (1 <= attempt < 2 ^ 63)%Z -> 0 <= u -> u < 1 ->
  capAt 300 (mulExt 5 (Pow2 (wrap64 (attempt - 1))))
  = inject_Z (baseMinutes attempt)
  /\ (48000000000 * baseMinutes attempt
      <= exponentialBackoff attempt u
      <= 72000000000 * baseMinutes attempt)%Z.
Proof.
  intros Hn Hu0 Hu1. rewrite exponentialBackoff_unfold.
  assert (wrap64 (attempt - 1) = attempt - 1)%Z as ->.
  { unfold wrap64. rewrite Z.mod_small; lia. }
  rewrite capped_minutes by lia. fold (baseMinutes attempt).
  split; [reflexivity|].
  apply withJitter_bounds; [|exact Hu0|exact Hu1].
  unfold baseMinutes.
  destruct (Z.le_gt_cases (attempt - 1) 5) as [Hs|Hl].
  - assert (attempt - 1 = 0 \/ attempt - 1 = 1 \/ attempt - 1 = 2
            \/ attempt - 1 = 3 \/ attempt - 1 = 4 \/ attempt - 1 = 5)%Z as Hc by lia.
    destruct Hc as [->|[->|[->|[->|[->| ->]]]]]; vm_compute; reflexivity.
  - assert (Z.min (5 * 2 ^ (attempt - 1)) 300 = 300)%Z as ->.
    { assert (2 ^ 6 <= 2 ^ (attempt - 1))%Z by (apply Z.pow_le_mono_r; lia). lia. }
    vm_compute. reflexivity.
Qed.

(** C5, witness: the third attempt with the jitter sample 1/4 waits
    between 16 and 24 minutes. *)
Lemma exponentialBackoff_bounds_witness :
  (48000000000 * 20 <= exponentialBackoff 3 (1 # 4) <= 72000000000 * 20)%Z.
Proof.
  apply (exponentialBackoff_bounds 3 (1 # 4)); [lia|lra|lra].
Defined.

(** The first attempt waits 5 minutes before jitter, each later attempt
    twice as long as the one before, until 300 minutes are reached at the
    seventh. *)
Example baseMinutes_values :
  baseMinutes <$> [1; 2; 3; 4; 5; 6; 7; 8; 9]%Z
  = [5; 10; 20; 40; 80; 160; 300; 300; 300]%Z.
Proof. reflexivity. Qed.
